(** * Producer voting of the system contract (contracts/eosio.system/voting.cpp)

    A shallow embedding of the voting actions of the system contract and the
    properties of its election mechanism.

    Numeric model.  [int64_t] values are integers with two's-complement
    wrap-around written out ([wrap64]); [double] values are idealised as real
    numbers (rounding, infinities and NaN are not modelled), so that the sine
    of the weight curve is the real sine.  A conversion from [double] to
    [int64_t] truncates toward zero; it is defined in C++ only when the
    truncated value is an [int64_t], and the statements that depend on a
    converted value assume that range.  The weight curve divides by the size
    of the producer table: on the empty table the source computes NaN for a
    slate that is not empty, which the real numbers do not have, and the
    statements that depend on such a weight assume a table with a row.

    Effects.  The contract runs in a state monad over the three tables it
    touches.  A failed [eosio_assert] ends the action: the chain discards every
    write of the transaction, so an aborted run carries no state.  Dereferencing
    the end iterator of a table is undefined behaviour and is a separate
    outcome.  Recursion that the source does not bound is given fuel. *)

From Stdlib Require Import ZArith List String Reals Lra Lia Permutation Sorted.
From stdpp Require Import gmap.


(** ** Numbers *)

Definition wrap64 (z : Z) : Z := ((z + 2 ^ 63) mod 2 ^ 64 - 2 ^ 63)%Z.

Definition add64 (a b : Z) : Z := wrap64 (a + b).
Definition sub64 (a b : Z) : Z := wrap64 (a - b).

Definition in_int64 (z : Z) : Prop := (- 2 ^ 63 <= z < 2 ^ 63)%Z.

#[global] Instance Rle_decision : RelDecision Rle := Rle_dec.
#[global] Instance Rlt_decision : RelDecision Rlt := Rlt_dec.
#[global] Instance Rge_decision : RelDecision Rge := Rge_dec.
#[global] Instance Rgt_decision : RelDecision Rgt := Rgt_dec.
#[global] Instance Req_decision : EqDecision R := Req_dec_T.

(** Truncation toward zero, the rounding of a [double] to integer conversion. *)
Definition Rtrunc (x : R) : Z :=
  if decide (0 <= x)%R then Int_part x else (- Int_part (- x))%Z.

(** The conversion of a [double] to [int64_t].  It agrees with the source
    where the source defines it, for [x] whose truncation is in [in_int64];
    outside that range the C++ conversion is undefined and the value here is
    the wrapped one. *)
Definition double_to_int64 (x : R) : Z := wrap64 (Rtrunc x).

(** The [double] [x] converts to an [int64_t]: its truncation is in range. *)
Definition fits_int64 (x : R) : Prop := in_int64 (Rtrunc x).

(** [#define VOTE_VARIATION 0.1] *)
Definition VOTE_VARIATION : R := (1 / 10)%R.

(** [M_PI_2] of <cmath>. *)
Definition M_PI_2 : R := (PI / 2)%R.

(** ** Tables *)

Abbreviation account_name := N (only parsing).

(** Modelled from the spec: the key type of the missing header; only the
    default value matters to the code ([regproducer] rejects it, [deactivate]
    restores it). *)
Abbreviation public_key := N (only parsing).
Definition default_public_key : public_key := 0%N.

(** Modelled from the spec: [voter_info] of the missing header eosio.system.hpp,
    with the fields voting.cpp reads and writes ([staked] is passed as
    [int64_t]; the weights are compared with [0.0]). *)
Record voter_info := mk_voter {
  owner : account_name;
  proxy : account_name;
  producers : list account_name;
  staked : Z;
  last_vote_weight : R;
  proxied_vote_weight : R;
  is_proxy : bool
}.

(** Modelled from the spec: [producer_info] of the missing header. *)
Record producer_info := mk_producer {
  prod_owner : account_name;
  total_votes : R;
  producer_key : public_key;
  is_active : bool;
  url : string;
  location : N
}.

(** Modelled from the spec: the global state singleton of the missing header. *)
Record eosio_global_state := mk_gstate {
  total_activated_stake : Z;
  thresh_activated_stake_time : N;
  last_producer_schedule_size : N;
  total_producer_vote_weight : R;
  last_producer_schedule_update : N
}.

Record state := mk_state {
  _voters : gmap N voter_info;
  _producers : gmap N producer_info;
  _gstate : eosio_global_state
}.

(** Field updates, one per assignment form of the source. *)
Definition set_proxied_vote_weight (x : R) (v : voter_info) : voter_info :=
  mk_voter (owner v) (proxy v) (producers v) (staked v) (last_vote_weight v) x (is_proxy v).
Definition set_last_vote_weight (x : R) (v : voter_info) : voter_info :=
  mk_voter (owner v) (proxy v) (producers v) (staked v) x (proxied_vote_weight v) (is_proxy v).
Definition set_is_proxy (b : bool) (v : voter_info) : voter_info :=
  mk_voter (owner v) (proxy v) (producers v) (staked v) (last_vote_weight v)
           (proxied_vote_weight v) b.
Definition set_vote (w : R) (ps : list account_name) (px : account_name)
    (v : voter_info) : voter_info :=
  mk_voter (owner v) px ps (staked v) w (proxied_vote_weight v) (is_proxy v).

Definition set_total_votes (x : R) (p : producer_info) : producer_info :=
  mk_producer (prod_owner p) x (producer_key p) (is_active p) (url p) (location p).

(** Modelled from the spec: [producer_info::deactivate] of the missing header
    resets the key to the default key and clears the flag. *)
Definition deactivate (p : producer_info) : producer_info :=
  mk_producer (prod_owner p) (total_votes p) default_public_key false (url p) (location p).

Definition set_total_activated_stake (x : Z) (g : eosio_global_state) :=
  mk_gstate x (thresh_activated_stake_time g) (last_producer_schedule_size g)
            (total_producer_vote_weight g) (last_producer_schedule_update g).
Definition set_thresh_activated_stake_time (x : N) (g : eosio_global_state) :=
  mk_gstate (total_activated_stake g) x (last_producer_schedule_size g)
            (total_producer_vote_weight g) (last_producer_schedule_update g).
Definition set_last_producer_schedule_size (x : N) (g : eosio_global_state) :=
  mk_gstate (total_activated_stake g) (thresh_activated_stake_time g) x
            (total_producer_vote_weight g) (last_producer_schedule_update g).
Definition set_total_producer_vote_weight (x : R) (g : eosio_global_state) :=
  mk_gstate (total_activated_stake g) (thresh_activated_stake_time g)
            (last_producer_schedule_size g) x (last_producer_schedule_update g).
Definition set_last_producer_schedule_update (x : N) (g : eosio_global_state) :=
  mk_gstate (total_activated_stake g) (thresh_activated_stake_time g)
            (last_producer_schedule_size g) (total_producer_vote_weight g) x.

(** ** The contract monad *)

Inductive outcome (A : Type) : Type :=
| Done (a : A) (s : state)
| Abort (msg : string)
| Fault
| Diverge.

Arguments Done {A} a s.
Arguments Abort {A} msg.
Arguments Fault {A}.
Arguments Diverge {A}.

Definition M (A : Type) : Type := state -> outcome A.

Definition ret {A} (a : A) : M A := fun s => Done a s.

Definition bind {A B} (m : M A) (k : A -> M B) : M B :=
  fun s => match m s with
           | Done a s' => k a s'
           | Abort msg => Abort msg
           | Fault => Fault
           | Diverge => Diverge
           end.

#[global] Instance M_ret : MRet M := @ret.
#[global] Instance M_bind : MBind M := fun A B k m => bind m k.

Definition eosio_assert (test : bool) (msg : string) : M unit :=
  fun s => if test then Done tt s else Abort msg.

Definition diverge {A} : M A := fun _ => Diverge.

Definition get_gstate : M eosio_global_state := fun s => Done (_gstate s) s.

Definition modify_gstate (f : eosio_global_state -> eosio_global_state) : M unit :=
  fun s => Done tt (mk_state (_voters s) (_producers s) (f (_gstate s))).

(** An iterator of a table is the key of its row, or [None] at [end()]. *)
Abbreviation iterator := (option account_name) (only parsing).

(** [_voters.find(name)] *)
Definition voters_find (name : account_name) : M iterator :=
  fun s => Done (match _voters s !! name with Some _ => Some name | None => None end) s.

(** [*it] and [it->field] on the voters table: reading through the end
    iterator is undefined. *)
Definition voters_deref (it : iterator) : M voter_info :=
  fun s => match it with
           | Some k => match _voters s !! k with
                       | Some v => Done v s
                       | None => Fault
                       end
           | None => Fault
           end.

(** [_voters.get(name, msg)] *)
Definition voters_get (name : account_name) (msg : string) : M voter_info :=
  fun s => match _voters s !! name with
           | Some v => Done v s
           | None => Abort msg
           end.

(** [_voters.modify(row, payer, f)]: the row is updated in place. *)
Definition voters_modify (k : account_name) (f : voter_info -> voter_info) : M unit :=
  fun s => Done tt (mk_state (alter f k (_voters s)) (_producers s) (_gstate s)).

(** [_voters.emplace(payer, f)] *)
Definition voters_emplace (v : voter_info) : M unit :=
  fun s => Done tt (mk_state (<[owner v := v]> (_voters s)) (_producers s) (_gstate s)).

Definition producers_find (name : account_name) : M iterator :=
  fun s => Done (match _producers s !! name with Some _ => Some name | None => None end) s.

Definition producers_deref (it : iterator) : M producer_info :=
  fun s => match it with
           | Some k => match _producers s !! k with
                       | Some p => Done p s
                       | None => Fault
                       end
           | None => Fault
           end.

Definition producers_get (name : account_name) (msg : string) : M producer_info :=
  fun s => match _producers s !! name with
           | Some p => Done p s
           | None => Abort msg
           end.

Definition producers_modify (k : account_name) (f : producer_info -> producer_info)
    : M unit :=
  fun s => Done tt (mk_state (_voters s) (alter f k (_producers s)) (_gstate s)).

Definition producers_emplace (p : producer_info) : M unit :=
  fun s => Done tt (mk_state (_voters s) (<[prod_owner p := p]> (_producers s)) (_gstate s)).

(** A range-based [for] loop with an effectful body. *)
Fixpoint for_each {A} (l : list A) (body : A -> M unit) : M unit :=
  match l with
  | [] => ret tt
  | x :: l' => body x ;; for_each l' body
  end.

(** What the chain keeps of a transaction: the writes of a run that completed,
    nothing of one that was aborted.  A run that read through an end iterator
    or exhausted its depth is not kept either: the first meets the failed
    existence check a few lines further on, the second the resource limits of
    the transaction. *)
Definition commit {A} (s : state) (o : outcome A) : state :=
  match o with
  | Done _ s' => s'
  | _ => s
  end.

Definition reads {A} (f : state -> A) : M A := fun s => Done (f s) s.

(** A name used as a condition, [if ( proxy )]. *)
Definition is_set (a : account_name) : bool := negb (a =? 0)%N.

(** ** The weight curve *)

(** [system_contract::inverseVoteWeight]: a read-only member function, here a
    function of the state it reads.  On the empty producer table with a slate
    that is not empty the source divides by zero, and the sine of the infinite
    quotient, and with it the result, is NaN; the value here agrees with the
    source on every other input. *)
Definition inverseVoteWeight (s : state) (staked : Z) (amountVotedProducers : R)
    (variation : R) : R :=
  if decide (amountVotedProducers = 0)%R then 0%R
  else
    let totalProducers := INR (size (_producers s)) in
    let totalProducers :=
      if decide (totalProducers > 30)%R then 30%R else totalProducers in
    let k := (1 - variation)%R in
    ((k * sin (M_PI_2 * (amountVotedProducers / totalProducers)) + variation)
     * IZR staked)%R.

(** ** The vote deltas: [flat_map<account_name, pair<double, bool>>] *)

Abbreviation flat_map := (list (account_name * (R * bool))) (only parsing).

(** [f(producer_deltas[p])]: the entry is created with the default value when
    it is absent; the keys stay in increasing order. *)
Fixpoint deltas_update (p : account_name) (f : R * bool -> R * bool) (m : flat_map)
    : flat_map :=
  match m with
  | [] => [(p, f (0%R, false))]
  | (q, d) :: m' =>
      if (p <? q)%N then (p, f (0%R, false)) :: m
      else if (p =? q)%N then (q, f d) :: m'
      else (q, d) :: deltas_update p f m'
  end.

(** The update of a row in the loop over the deltas:
    [p.total_votes += delta; if ( p.total_votes < 0 ) p.total_votes = 0;] *)
Definition clamp_add (delta : R) (p : producer_info) : producer_info :=
  let tv := (total_votes p + delta)%R in
  set_total_votes (if bool_decide (tv < 0)%R then 0%R else tv) p.

(** ** The elected schedule *)

(** [eosio::producer_key]: the producer's name and its signing key. *)
Abbreviation eosio_producer_key := (account_name * public_key)%type (only parsing).

Abbreviation schedule_entry := (eosio_producer_key * N)%type (only parsing).

(** The collecting loop of [update_elected_producers]; [it] is what is left of
    the index traversal, [top_producers] the vector built so far. *)
Fixpoint collect_top (it : list producer_info) (top_producers : list schedule_entry)
    : list schedule_entry :=
  match it with
  | [] => top_producers
  | p :: it' =>
      if bool_decide (length top_producers < 21)
         && bool_decide (0 < total_votes p)%R
         && is_active p
      then collect_top it'
             (top_producers ++ [((prod_owner p, producer_key p), location p)])
      else top_producers
  end.

(** [operator<] on the pairs: producer keys compare by name. *)
Definition entry_ltb (a b : schedule_entry) : bool :=
  (a.1.1 <? b.1.1)%N || (negb (b.1.1 <? a.1.1)%N && (a.2 <? b.2)%N).

Fixpoint entry_insert (x : schedule_entry) (l : list schedule_entry) :=
  match l with
  | [] => [x]
  | y :: l' => if entry_ltb y x then y :: entry_insert x l' else x :: l
  end.

(** [std::sort( top_producers.begin(), top_producers.end() )] *)
Definition sort_entries (l : list schedule_entry) : list schedule_entry :=
  foldr entry_insert [] l.



Section Contract.

(** Modelled from the spec: the activation threshold, a constant of the
    missing header. *)
Variable min_activated_stake : Z.

(** The collaborators: the time source, the authority check and the
    acceptance of a proposed schedule. *)
Variable current_time : N.
Variable has_auth : account_name -> bool.
Variable set_proposed_producers : list eosio_producer_key -> Z.

Definition require_auth (a : account_name) : M unit :=
  eosio_assert (has_auth a) "missing required authority".

Definition regproducer (producer : account_name) (key : public_key)
    (url_arg : string) (location_arg : N) : M unit :=
  eosio_assert (bool_decide (String.length url_arg < 512)) "url too long" ;;
  eosio_assert (bool_decide (key ≠ default_public_key))
    "public key should not be the default value" ;;
  require_auth producer ;;
  prod ← producers_find producer;
  match prod with
  | Some k =>
      producers_modify k (fun info =>
        mk_producer (prod_owner info) (total_votes info) key true url_arg location_arg)
  | None =>
      producers_emplace (mk_producer producer 0%R key true url_arg location_arg)
  end.

Definition unregprod (producer : account_name) : M unit :=
  require_auth producer ;;
  _ ← producers_get producer "producer not found";
  producers_modify producer deactivate.

(** [idx] is the traversal of the [prototalvote] index, [block_time] the
    slot of the block. *)
Definition update_elected_producers (idx : list producer_info) (block_time : N)
    : M unit :=
  modify_gstate (set_last_producer_schedule_update block_time) ;;
  let top_producers := collect_top idx [] in
  g ← get_gstate;
  if bool_decide (N.of_nat (length top_producers) < last_producer_schedule_size g)%N
  then ret tt
  else
    let top_producers := sort_entries top_producers in
    let producers := map fst top_producers in
    if bool_decide (set_proposed_producers producers >= 0)%Z
    then modify_gstate
           (set_last_producer_schedule_size (N.of_nat (length top_producers)))
    else ret tt.

Definition checkNetworkActivation : M unit :=
  g ← get_gstate;
  if bool_decide (total_activated_stake g >= min_activated_stake)%Z
     && bool_decide (thresh_activated_stake_time g = 0%N)
  then modify_gstate (set_thresh_activated_stake_time current_time)
  else ret tt.

(** The number of rows with [isActive()], the loop at the head of
    [propagate_weight_change]. *)
Definition count_active (prods : gmap N producer_info) : nat :=
  length (filter (fun p => is_active p = true) (map snd (map_to_list prods))).

(** [voter] is the key of the row the reference denotes.  The source recurses
    without a bound; [fuel] is the depth allowed, and a run that needs more
    is [Diverge]. *)
Fixpoint propagate_weight_change (fuel : nat) (voter : account_name) : M unit :=
  match fuel with
  | O => diverge
  | S fuel' =>
      v ← voters_deref (Some voter);
      eosio_assert (bool_decide (proxy v = 0%N) || negb (is_proxy v))
        "account registered as a proxy is not allowed to use a proxy" ;;
      totalProds ← reads (fun s => count_active (_producers s));
      let totalStake := (IZR (staked v) + proxied_vote_weight v)%R in
      new_weight ← reads (fun s =>
        inverseVoteWeight s (double_to_int64 totalStake) (INR totalProds)
          VOTE_VARIATION);
      (if is_set (proxy v) then
         pr ← voters_get (proxy v) "proxy not found";
         voters_modify (proxy v) (set_proxied_vote_weight (IZR (staked pr))) ;;
         propagate_weight_change fuel' (proxy v)
       else
         for_each (producers v) (fun acnt =>
           _ ← producers_get acnt "producer not found";
           producers_modify acnt (set_total_votes new_weight))) ;;
      voters_modify voter (set_last_vote_weight new_weight)
  end.

(** The loop that checks [producers[i-1] < producers[i]]. *)
Fixpoint check_sorted (l : list account_name) : M unit :=
  match l with
  | a :: (b :: _) as l' =>
      eosio_assert (a <? b)%N "producer votes must be unique and sorted" ;;
      check_sorted l'
  | _ => ret tt
  end.

(** The body of the loop over [producer_deltas]. *)
Definition apply_delta (voting : bool) (pd : account_name * (R * bool)) : M unit :=
  pitr ← producers_find pd.1;
  match pitr with
  | Some k =>
      p ← producers_deref pitr;
      eosio_assert (negb voting || is_active p || negb pd.2.2)
        "producer is not currently registered" ;;
      producers_modify k (clamp_add pd.2.1) ;;
      modify_gstate (fun g =>
        set_total_producer_vote_weight (total_producer_vote_weight g + pd.2.1)%R g)
  | None =>
      eosio_assert (negb pd.2.2) "producer is not registered"
  end.

(** The old proxy loses [amount] of proxied weight and re-weights its votes
    (the two blocks of the source that look up [voter->proxy]). *)
Definition leave_old_proxy (fuel : nat) (old : account_name) (amount : R) : M unit :=
  old_proxy ← voters_find old;
  eosio_assert (bool_decide (old_proxy ≠ None)) "old proxy not found" ;;
  voters_modify old (fun vp =>
    set_proxied_vote_weight (proxied_vote_weight vp - amount)%R vp) ;;
  propagate_weight_change fuel old.

(** [update_votes].  [v] is the voter's row as read before the first write
    to the voters table; of its fields only the two weights are ever written
    before the final update, and the row is read again where the source
    reads a weight after such a write.  [require_recipient( proxy )] only
    notifies the proxy and is left out. *)
Definition update_votes (fuel : nat) (voter_name proxy_arg : account_name)
    (producers_arg : list account_name) (voting : bool) : M unit :=
  (if is_set proxy_arg then
     eosio_assert (bool_decide (length producers_arg = 0))
       "cannot vote for producers and proxy at same time" ;;
     eosio_assert (bool_decide (voter_name ≠ proxy_arg)) "cannot proxy to self"
   else
     eosio_assert (bool_decide (length producers_arg <= 30))
       "attempt to vote for too many producers" ;;
     check_sorted producers_arg) ;;
  voter ← voters_find voter_name;
  eosio_assert (bool_decide (voter ≠ None)) "user must stake before they can vote" ;;
  v ← voters_deref voter;
  eosio_assert (negb (is_set proxy_arg) || negb (is_proxy v))
    "account registered as a proxy is not allowed to use a proxy" ;;
  totalStaked ←
    (if is_set proxy_arg then
       pxy ← voters_find proxy_arg;
       px ← voters_deref pxy;
       ret (double_to_int64 (IZR (staked v) + proxied_vote_weight px))
     else ret (staked v));
  inverse_stake ← reads (fun s =>
    inverseVoteWeight s totalStaked (INR (length producers_arg)) VOTE_VARIATION);
  let new_vote_weight := inverse_stake in
  (if bool_decide (last_vote_weight v <= 0)%R
      && bool_decide (0 < length producers_arg) && voting
   then
     modify_gstate (fun g =>
       set_total_activated_stake (add64 (total_activated_stake g) (staked v)) g) ;;
     (if bool_decide (proxied_vote_weight v > 0)%R then
        modify_gstate (fun g =>
          set_total_activated_stake
            (double_to_int64 (IZR (total_activated_stake g) + proxied_vote_weight v)) g)
      else ret tt) ;;
     checkNetworkActivation
   else if bool_decide (last_vote_weight v <= 0)%R && is_set proxy_arg && voting
   then
     prx ← voters_find proxy_arg;
     px ← voters_deref prx;
     if bool_decide (last_vote_weight px > 0)%R then
       modify_gstate (fun g =>
         set_total_activated_stake (add64 (total_activated_stake g) (staked v)) g) ;;
       checkNetworkActivation
     else ret tt
   else if bool_decide (length producers_arg = 0) && negb (is_set proxy_arg) && voting
   then
     modify_gstate (fun g =>
       set_total_activated_stake (sub64 (total_activated_stake g) (staked v)) g) ;;
     if bool_decide (proxied_vote_weight v > 0)%R then
       modify_gstate (fun g =>
         set_total_activated_stake
           (double_to_int64 (IZR (total_activated_stake g) - proxied_vote_weight v)) g)
     else ret tt
   else ret tt) ;;
  producer_deltas ←
    (if bool_decide (last_vote_weight v > 0)%R then
       if is_set (proxy v) then
         leave_old_proxy fuel (proxy v) (last_vote_weight v) ;;
         ret []
       else
         ret (fold_left
                (fun m p =>
                   deltas_update p (fun d => ((d.1 - last_vote_weight v)%R, false)) m)
                (producers v) [])
     else ret []);
  producer_deltas ←
    (if is_set proxy_arg then
       new_proxy ← voters_find proxy_arg;
       eosio_assert (bool_decide (new_proxy ≠ None)) "invalid proxy specified" ;;
       np ← voters_deref new_proxy;
       eosio_assert (negb voting || is_proxy np) "proxy not found" ;;
       (if voting then
          voters_modify proxy_arg (fun vp =>
            set_proxied_vote_weight (proxied_vote_weight vp + IZR (staked v))%R vp)
        else
          voters_modify proxy_arg (set_proxied_vote_weight (IZR (staked v)))) ;;
       np' ← voters_deref new_proxy;
       (if bool_decide (last_vote_weight np' > 0)%R
        then propagate_weight_change fuel proxy_arg
        else ret tt) ;;
       ret producer_deltas
     else if bool_decide (new_vote_weight >= 0)%R then
       (if is_set (proxy v)
        then leave_old_proxy fuel (proxy v) (IZR (staked v))
        else ret tt) ;;
       if voting then
         ret (fold_left
                (fun m p =>
                   deltas_update p (fun d => ((d.1 + new_vote_weight)%R, true)) m)
                producers_arg producer_deltas)
       else
         v' ← voters_deref voter;
         (if bool_decide (last_vote_weight v' > 0)%R
          then propagate_weight_change fuel voter_name
          else ret tt) ;;
         ret producer_deltas
     else ret producer_deltas);
  for_each producer_deltas (apply_delta voting) ;;
  voters_modify voter_name (set_vote new_vote_weight producers_arg proxy_arg).

Definition voteproducer (fuel : nat) (voter_name proxy_arg : account_name)
    (producers_arg : list account_name) : M unit :=
  require_auth voter_name ;;
  update_votes fuel voter_name proxy_arg producers_arg true.

Definition regproxy (proxy_arg : account_name) (isproxy : bool) : M unit :=
  require_auth proxy_arg ;;
  pitr ← voters_find proxy_arg;
  match pitr with
  | Some k =>
      p ← voters_deref pitr;
      eosio_assert (negb (eqb isproxy (is_proxy p))) "action has no effect" ;;
      eosio_assert (negb isproxy || negb (is_set (proxy p)))
        "account that uses a proxy is not allowed to become a proxy" ;;
      voters_modify k (set_is_proxy isproxy)
  | None =>
      voters_emplace (mk_voter proxy_arg 0 [] 0 0 0 isproxy)
  end.

End Contract.

(** ** Actions and transactions *)

(** What a transaction sees of its environment: the time, the authorities and
    the answer of the schedule-acceptance collaborator. *)
Record env := mk_env {
  env_time : N;
  env_auth : account_name -> bool;
  env_accept : list eosio_producer_key -> Z
}.

(** The functions of voting.cpp, as calls. *)
Inductive action : Type :=
| Regproducer (producer : account_name) (key : public_key) (url_arg : string)
    (location_arg : N)
| Unregprod (producer : account_name)
| Voteproducer (voter_name proxy_arg : account_name) (producers_arg : list account_name)
| Regproxy (proxy_arg : account_name) (isproxy : bool)
| UpdateVotes (voter_name proxy_arg : account_name) (producers_arg : list account_name)
    (voting : bool)
| UpdateElectedProducers (idx : list producer_info) (block_time : N)
| CheckNetworkActivation
| PropagateWeightChange (voter : account_name).

Definition run (min_activated_stake : Z) (fuel : nat) (e : env) (a : action) : M unit :=
  match a with
  | Regproducer producer key url_arg location_arg =>
      regproducer (env_auth e) producer key url_arg location_arg
  | Unregprod producer => unregprod (env_auth e) producer
  | Voteproducer voter_name proxy_arg producers_arg =>
      voteproducer min_activated_stake (env_time e) (env_auth e) fuel
        voter_name proxy_arg producers_arg
  | Regproxy proxy_arg isproxy => regproxy (env_auth e) proxy_arg isproxy
  | UpdateVotes voter_name proxy_arg producers_arg voting =>
      update_votes min_activated_stake (env_time e) fuel
        voter_name proxy_arg producers_arg voting
  | UpdateElectedProducers idx block_time =>
      update_elected_producers (env_accept e) idx block_time
  | CheckNetworkActivation => checkNetworkActivation min_activated_stake (env_time e)
  | PropagateWeightChange voter => propagate_weight_change fuel voter
  end.

(** One transaction: the action runs and the chain keeps its writes only when
    it completed. *)
Definition apply_action (min_activated_stake : Z) (fuel : nat) (s : state)
    (ea : env * action) : state :=
  commit s (run min_activated_stake fuel ea.1 ea.2 s).

Definition apply_all (min_activated_stake : Z) (fuel : nat)
    (l : list (env * action)) (s : state) : state :=
  fold_left (apply_action min_activated_stake fuel) l s.

(** ** Notions used in the statements *)

(** The test of the collecting loop on one row. *)
Definition qualifies (p : producer_info) : bool :=
  bool_decide (0 < total_votes p)%R && is_active p.

Definition entry_of (p : producer_info) : schedule_entry :=
  ((prod_owner p, producer_key p), location p).

(** The schedule [update_elected_producers] proposes for the traversal [idx]. *)
Definition proposed_schedule (idx : list producer_info) : list eosio_producer_key :=
  map fst (sort_entries (collect_top idx [])).

(** The call publishes: enough rows were collected and the proposal was
    accepted. *)
Definition publishes (accept : list eosio_producer_key -> Z) (idx : list producer_info)
    (g : eosio_global_state) : bool :=
  negb (bool_decide
          (N.of_nat (length (collect_top idx [])) < last_producer_schedule_size g)%N)
  && bool_decide (accept (proposed_schedule idx) >= 0)%Z.

(** The producer table after the deltas [m] are applied in order. *)
Definition apply_deltas (m : flat_map) (t : gmap N producer_info) : gmap N producer_info :=
  fold_left (fun t pd => alter (clamp_add pd.2.1) pd.1 t) m t.

(** The keys of a delta map are strictly increasing. *)
Definition deltas_sorted (m : flat_map) : Prop := StronglySorted N.lt m.*1.


(** The producer table after a proxy's weight [w] is written onto its slate. *)
Definition overwrite_votes (w : R) (l : list account_name) (t : gmap N producer_info)
    : gmap N producer_info :=
  fold_left (fun t p => alter (set_total_votes w) p t) l t.


(** The activated stake after a withdrawal by the voter [v]. *)
Definition withdrawn_stake (v : voter_info) (tas : Z) : Z :=
  let t := sub64 tas (staked v) in
  if bool_decide (proxied_vote_weight v > 0)%R
  then double_to_int64 (IZR t - proxied_vote_weight v)
  else t.


(** The chain of proxy links that starts at [voter] stops within [d] links: it
    reaches a missing row, a row without a proxy, or a row that is registered
    as a proxy itself. *)
Fixpoint chain_ends (s : state) (d : nat) (voter : account_name) : bool :=
  match _voters s !! voter with
  | None => true
  | Some v =>
      if is_set (proxy v) && negb (is_proxy v) then
        match d with
        | O => false
        | S d' => chain_ends s d' (proxy v)
        end
      else true
  end.

(** Accounts 1 and 2 name each other as proxy and neither is registered as
    one. *)
Definition two_cycle (s : state) : Prop :=
  exists v1 v2,
    _voters s !! 1%N = Some v1 /\ proxy v1 = 2%N /\ is_proxy v1 = false /\
    _voters s !! 2%N = Some v2 /\ proxy v2 = 1%N /\ is_proxy v2 = false.

(** A computation that writes nothing. *)
Definition read_only {A} (m : M A) : Prop :=
  forall s a s', m s = Done a s' -> s' = s.

(** A computation whose completed runs relate the states by [Rel]. *)
Definition preserved (Rel : state -> state -> Prop) {A} (m : M A) : Prop :=
  forall s a s', m s = Done a s' -> Rel s s'.

(** The activation latch: a time that is set stays as it is. *)
Definition latched (s s' : state) : Prop :=
  thresh_activated_stake_time (_gstate s) ≠ 0%N ->
  thresh_activated_stake_time (_gstate s') = thresh_activated_stake_time (_gstate s).


(** Two states with the same proxy links and proxy registrations. *)
Definition same_links (s s' : state) : Prop :=
  forall k, (proxy <$> _voters s' !! k) = (proxy <$> _voters s !! k)
         /\ (is_proxy <$> _voters s' !! k) = (is_proxy <$> _voters s !! k).

(** Two states whose producer tables have the same rows with the same
    activity. *)
Definition same_activity (s s' : state) : Prop :=
  forall k, (is_active <$> _producers s' !! k) = (is_active <$> _producers s !! k).

(** ** States and inputs of the examples *)

Definition prod_row (name : account_name) (votes : R) (active : bool) : producer_info :=
  mk_producer name votes (if active then 1%N else default_public_key) active "" 0.

Arguments prod_row name%_N votes%_R active.

(** A voter that staked and never voted. *)
Definition fresh_voter (name : account_name) (stake : Z) : voter_info :=
  mk_voter name 0 [] stake 0 0 false.

(** A voter whose row names [px] as its proxy. *)
Definition delegator (name px : account_name) (stake : Z) : voter_info :=
  mk_voter name px [] stake 0 0 false.

(** A voter that votes directly: no proxy, a slate and the weight of its last
    vote. *)
Definition direct_voter (name : account_name) (stake : Z) (weight : R)
    (slate : list account_name) : voter_info :=
  mk_voter name 0 slate stake weight 0 false.

(** A registered proxy that has not voted. *)
Definition registered_proxy (name : account_name) (stake : Z) : voter_info :=
  mk_voter name 0 [] stake 0 0 true.

Definition gstate0 : eosio_global_state := mk_gstate 0 0 0 0 0.

Definition always_auth (a : account_name) : bool := true.
Definition reject_all (l : list eosio_producer_key) : Z := (-1)%Z.
Definition accept_all (l : list eosio_producer_key) : Z := 0%Z.
Definition test_env : env := mk_env 5 always_auth accept_all.

Definition one_producer : state :=
  mk_state ∅ (<[1%N := prod_row 1 0 true]> ∅) gstate0.

Definition two_producers_one_active : state :=
  mk_state ∅ (<[2%N := prod_row 2 0 false]> (<[1%N := prod_row 1 0 true]> ∅)) gstate0.

Definition one_producer_one_voter : state :=
  mk_state (<[10%N := fresh_voter 10 100]> ∅) (<[1%N := prod_row 1 0 true]> ∅) gstate0.




(** A schedule of one producer was published; the last update was at slot 3. *)
Definition published_one : state :=
  mk_state ∅ ∅ (mk_gstate 0 0 1 0 3).

(** No schedule was published yet; the last update was at slot 3. *)
Definition never_published : state :=
  mk_state ∅ ∅ (mk_gstate 0 0 0 0 3).

(** Accounts 1 and 2 delegate to each other. *)
Definition proxy_cycle : state :=
  mk_state (<[2%N := delegator 2 1 5]> (<[1%N := delegator 1 2 5]> ∅)) ∅ gstate0.

(** Account 1 delegates to the registered proxy 2. *)
Definition delegated : state :=
  mk_state (<[2%N := registered_proxy 2 5]> (<[1%N := delegator 1 2 5]> ∅)) ∅ gstate0.

(** Voter 10 (stake 5, weight 5) votes for producer 1, whose total is [votes];
    account 20 is a registered proxy. *)
Definition switch_state (votes : R) : state :=
  mk_state (<[20%N := registered_proxy 20 1]> (<[10%N := direct_voter 10 5 5 [1%N]]> ∅))
           (<[1%N := prod_row 1 votes true]> ∅) gstate0.

(** ** Notions used in the further properties *)

(** Two states with the same size of the last published schedule. *)
Definition same_schedule_size (s s' : state) : Prop :=
  last_producer_schedule_size (_gstate s') = last_producer_schedule_size (_gstate s).

(** The order of [std::sort] on the collected entries, as "not after". *)
Definition entry_le (a b : schedule_entry) : Prop := entry_ltb b a = false.

(** What the input checks of [update_votes] accept: a proxy comes with an
    empty slate and is not the voter itself; without a proxy the slate has at
    most 30 names, in strictly increasing order. *)
Definition valid_vote_input (voter_name proxy_arg : account_name)
    (producers_arg : list account_name) : Prop :=
  if is_set proxy_arg
  then producers_arg = [] /\ voter_name ≠ proxy_arg
  else length producers_arg <= 30 /\ StronglySorted N.lt producers_arg.

(** What a change of weights leaves of a voter's row and of a producer's
    row. *)
Definition voter_static (v : voter_info) :=
  (owner v, proxy v, producers v, staked v, is_proxy v).

Definition producer_static (p : producer_info) :=
  (prod_owner p, producer_key p, is_active p, url p, location p).

(** Two states with the same rows in both tables, up to the weights
    ([last_vote_weight], [proxied_vote_weight], [total_votes]). *)
Definition only_weights (s s' : state) : Prop :=
  (forall k, (voter_static <$> _voters s' !! k) = (voter_static <$> _voters s !! k))
  /\ (forall k, (producer_static <$> _producers s' !! k)
                = (producer_static <$> _producers s !! k)).

(** Two states with the same global state. *)
Definition same_gstate (s s' : state) : Prop := _gstate s' = _gstate s.

(** The weight [update_votes] computes for a vote of the voter [v] for the
    slate [slate], without a proxy. *)
Definition vote_weight (s : state) (v : voter_info) (slate : list account_name) : R :=
  inverseVoteWeight s (staked v) (INR (length slate)) VOTE_VARIATION.

(** The activated stake after the first vote of the voter [v]. *)
Definition activated_stake (v : voter_info) (tas : Z) : Z :=
  let t := add64 tas (staked v) in
  if bool_decide (proxied_vote_weight v > 0)%R
  then double_to_int64 (IZR t + proxied_vote_weight v)
  else t.

(** The global state after [checkNetworkActivation]. *)
Definition activated (min_activated_stake : Z) (current_time : N)
    (g : eosio_global_state) : eosio_global_state :=
  if bool_decide (total_activated_stake g >= min_activated_stake)%Z
     && bool_decide (thresh_activated_stake_time g = 0%N)
  then set_thresh_activated_stake_time current_time g
  else g.

(** The sum the loop over the deltas adds to [total_producer_vote_weight]. *)
Definition deltas_total (m : flat_map) (t : R) : R :=
  fold_left (fun t pd => (t + pd.2.1)%R) m t.

(** Two states with the same activated stake and the same activation time. *)
Definition same_activation (s s' : state) : Prop :=
  total_activated_stake (_gstate s') = total_activated_stake (_gstate s)
  /\ thresh_activated_stake_time (_gstate s')
     = thresh_activated_stake_time (_gstate s).

(** No row of either table is removed. *)
Definition rows_kept (s s' : state) : Prop :=
  (forall k, is_Some (_voters s !! k) -> is_Some (_voters s' !! k))
  /\ (forall k, is_Some (_producers s !! k) -> is_Some (_producers s' !! k)).

(** A voter row as the checks of [update_votes] and [regproxy] leave it: a
    registered proxy names no proxy, a row that names a proxy has no slate,
    and a slate has at most 30 names in strictly increasing order. *)
Definition wellformed_row (v : voter_info) : Prop :=
  (is_proxy v = true -> proxy v = 0%N)
  /\ (proxy v ≠ 0%N -> producers v = [])
  /\ StronglySorted N.lt (producers v)
  /\ length (producers v) <= 30.

Definition voters_wellformed (s : state) : Prop :=
  forall k v, _voters s !! k = Some v -> wellformed_row v.

(** The weight [propagate_weight_change] computes for the row [P]: the sum
    of its stake and its proxied weight, on a slate as large as the number of
    active producers. *)
Definition propagated_weight (s : state) (P : voter_info) : R :=
  inverseVoteWeight s (double_to_int64 (IZR (staked P) + proxied_vote_weight P))
    (INR (count_active (_producers s))) VOTE_VARIATION.


(** A delta map, as a finite map. *)
Definition deltas_map (m : flat_map) : gmap N (R * bool) := list_to_map m.

(** The row of the producer [p] after a voter with the last weight [old_w]
    and the slate [old] voted for the slate [new] with the weight [w]: the
    two deltas are summed before the total is floored at zero. *)
Definition vote_change (old new : list account_name) (old_w w : R)
    (p : account_name) (row : producer_info) : producer_info :=
  if decide (p ∈ new \/ p ∈ old)
  then clamp_add ((if decide (p ∈ new) then w else 0)
                  - (if decide (p ∈ old) then old_w else 0)) row
  else row.



(** * Properties *)

(** ** Running the monad in a proof *)

Ltac mrun :=
  cbv beta iota zeta delta
    [mbind M_bind bind mret M_ret ret eosio_assert reads get_gstate modify_gstate
     voters_find voters_deref voters_get voters_modify voters_emplace
     producers_find producers_deref producers_get producers_modify producers_emplace
     diverge negb andb orb];
  cbn [_voters _producers _gstate for_each fold_left length].

Ltac decide_guards tac :=
  repeat match goal with
  | |- context [bool_decide ?P] =>
      first [ rewrite (bool_decide_eq_true_2 P) by tac
            | rewrite (bool_decide_eq_false_2 P) by tac ]
  end.

Ltac mexec :=
  repeat (progress (mrun; decide_guards ltac:(first [lia | lra | congruence]))).

(** ** The weight curve *)

Lemma inverseVoteWeight_zero s staked variation :
  inverseVoteWeight s staked 0 variation = 0%R.
Proof. unfold inverseVoteWeight. destruct (decide _); [reflexivity | congruence]. Qed.

Lemma inverseVoteWeight_eq s staked n variation :
  n ≠ 0%R ->
  inverseVoteWeight s staked n variation =
    (((1 - variation) * sin (PI / 2 * (n / Rmin (INR (size (_producers s))) 30))
      + variation) * IZR staked)%R.
Proof.
  intros Hn. unfold inverseVoteWeight, M_PI_2.
  destruct (decide (n = 0%R)) as [|_]; [contradiction|].
  unfold Rmin.
  destruct (decide (INR (size (_producers s)) > 30)%R) as [Hgt|Hle];
    destruct (Rle_dec (INR (size (_producers s))) 30) as [H1|H1];
    try reflexivity; lra.
Qed.

Lemma Rmin_INR_30 (n : nat) : Rmin (INR n) 30 = INR (Nat.min n 30).
Proof.
  replace 30%R with (INR 30) by (simpl; lra).
  destruct (Nat.le_ge_cases n 30) as [H|H].
  - rewrite Nat.min_l by exact H. apply Rmin_left. now apply le_INR.
  - rewrite Nat.min_r by exact H. apply Rmin_right. now apply le_INR.
Qed.

(** A slate as large as the capped number of registered producers weighs the
    whole stake. *)
Lemma inverseVoteWeight_full_slate s staked variation :
  (0 < size (_producers s))%nat ->
  inverseVoteWeight s staked (INR (Nat.min (size (_producers s)) 30)) variation
  = IZR staked.
Proof.
  intros Hpos.
  assert (Hn : INR (Nat.min (size (_producers s)) 30) ≠ 0%R)
    by (apply not_0_INR; lia).
  rewrite inverseVoteWeight_eq by exact Hn. rewrite Rmin_INR_30.
  replace (PI / 2 * (INR (Nat.min (size (_producers s)) 30)
                     / INR (Nat.min (size (_producers s)) 30)))%R
    with (PI / 2)%R by (field; exact Hn).
  rewrite sin_PI2. ring.
Qed.

(** C3, as amended: for a slate that is not empty and a producer table that is
    not empty, the weight is
    [((1 - variation) * sin (pi/2 * slateSize / producerCount) + variation) * stake]
    where [producerCount] is the number of registered producers, active or
    not, capped at 30. *)
Theorem inverseVoteWeight_counts_registered s staked n variation :
  n ≠ 0%R ->
  (0 < size (_producers s))%nat ->
  inverseVoteWeight s staked n variation =
    (((1 - variation)
      * sin (PI / 2 * (n / INR (Nat.min (size (_producers s)) 30)))
      + variation) * IZR staked)%R.
Proof.
  intros Hn _. rewrite inverseVoteWeight_eq by exact Hn. now rewrite Rmin_INR_30.
Qed.

Lemma inverseVoteWeight_counts_registered_witness :
  inverseVoteWeight two_producers_one_active 1 1 VOTE_VARIATION =
    (((1 - VOTE_VARIATION) * sin (PI / 2 * (1 / INR 2)) + VOTE_VARIATION) * IZR 1)%R.
Proof.
  apply (inverseVoteWeight_counts_registered two_producers_one_active 1 1 VOTE_VARIATION).
  - lra.
  - vm_compute. lia.
Defined.

(** C3, the claim as stated fails: with one active and one inactive producer
    the code divides by 2, the claim by the single active one. *)
Lemma inverseVoteWeight_not_active_count :
  count_active (_producers two_producers_one_active) = 1%nat
  /\ inverseVoteWeight two_producers_one_active 1 1 VOTE_VARIATION ≠
     (((1 - VOTE_VARIATION)
       * sin (PI / 2
              * (1 / Rmin (INR (count_active (_producers two_producers_one_active))) 30))
       + VOTE_VARIATION) * IZR 1)%R.
Proof.
  assert (Hact : count_active (_producers two_producers_one_active) = 1%nat)
    by (vm_compute; reflexivity).
  split; [exact Hact|].
  rewrite inverseVoteWeight_eq by lra. rewrite Hact.
  replace (size (_producers two_producers_one_active)) with 2%nat by reflexivity.
  unfold VOTE_VARIATION. simpl INR.
  rewrite !Rmin_left by lra.
  replace (PI / 2 * (1 / 1))%R with (PI / 2)%R by field.
  rewrite sin_PI2.
  assert (H : (sin (PI / 2 * (1 / (1 + 1))) < sin (PI / 2))%R).
  { pose proof PI_RGT_0. apply sin_increasing_1; lra. }
  rewrite sin_PI2 in H. lra.
Qed.

Lemma inverseVoteWeight_nonneg s staked (n : nat) :
  (0 <= staked)%Z -> (n <= Nat.min (size (_producers s)) 30)%nat ->
  (0 <= inverseVoteWeight s staked (INR n) VOTE_VARIATION)%R.
Proof.
  intros Hs Hn. destruct n as [|n].
  - change (INR 0) with 0%R. rewrite inverseVoteWeight_zero. lra.
  - rewrite inverseVoteWeight_eq by (apply not_0_INR; lia).
    rewrite Rmin_INR_30.
    set (T := Nat.min _ _) in *.
    assert (HT : (0 < INR T)%R) by (apply lt_0_INR; lia).
    assert (Hn' : (INR (S n) <= INR T)%R) by (apply le_INR; lia).
    assert (H0 : (0 <= INR (S n))%R) by apply pos_INR.
    assert (Hf : (0 <= INR (S n) / INR T <= 1)%R).
    { split.
      - apply Rmult_le_pos; [lra|]. left. now apply Rinv_0_lt_compat.
      - apply (Rmult_le_reg_r (INR T)); [lra|]. field_simplify; lra. }
    pose proof PI_RGT_0 as Hpi.
    assert (Hsin : (0 <= sin (PI / 2 * (INR (S n) / INR T)))%R).
    { apply sin_ge_0; nra. }
    pose proof (IZR_le _ _ Hs) as Hst. unfold VOTE_VARIATION. nra.
Qed.

(** C9, as amended: for a stake that is not negative, the weight does not
    decrease when the slate grows, as long as the slate is no larger than the
    number of registered producers capped at 30; the code applies no clamp
    beyond that. *)
Theorem inverseVoteWeight_monotone_to_count s staked (n1 n2 : nat) :
  (0 <= staked)%Z -> (n1 <= n2)%nat -> (n2 <= Nat.min (size (_producers s)) 30)%nat ->
  (inverseVoteWeight s staked (INR n1) VOTE_VARIATION
   <= inverseVoteWeight s staked (INR n2) VOTE_VARIATION)%R.
Proof.
  intros Hs H12 Hn. destruct n1 as [|n1].
  - change (INR 0) with 0%R. rewrite inverseVoteWeight_zero.
    now apply inverseVoteWeight_nonneg.
  - rewrite !inverseVoteWeight_eq by (apply not_0_INR; lia).
    rewrite Rmin_INR_30.
    set (T := Nat.min _ _) in *.
    assert (HT : (0 < INR T)%R) by (apply lt_0_INR; lia).
    assert (H1 : (0 < INR (S n1))%R) by (apply lt_0_INR; lia).
    assert (H2 : (INR (S n1) <= INR n2)%R) by (apply le_INR; lia).
    assert (H3 : (INR n2 <= INR T)%R) by (apply le_INR; lia).
    assert (Hi : (0 < / INR T)%R) by now apply Rinv_0_lt_compat.
    assert (Hf1 : (0 <= INR (S n1) / INR T)%R) by (unfold Rdiv; nra).
    assert (Hf12 : (INR (S n1) / INR T <= INR n2 / INR T)%R) by (unfold Rdiv; nra).
    assert (Hf2 : (INR n2 / INR T <= 1)%R).
    { apply (Rmult_le_reg_r (INR T)); [lra|]. field_simplify; lra. }
    pose proof PI_RGT_0 as Hpi.
    assert (Hsin : (sin (PI / 2 * (INR (S n1) / INR T))
                    <= sin (PI / 2 * (INR n2 / INR T)))%R).
    { apply sin_incr_1; nra. }
    pose proof (IZR_le _ _ Hs) as Hst. unfold VOTE_VARIATION. nra.
Qed.

Lemma inverseVoteWeight_monotone_to_count_witness :
  (inverseVoteWeight two_producers_one_active 7 (INR 1) VOTE_VARIATION
   <= inverseVoteWeight two_producers_one_active 7 (INR 2) VOTE_VARIATION)%R.
Proof.
  apply (inverseVoteWeight_monotone_to_count two_producers_one_active 7 1 2).
  - lia.
  - lia.
  - vm_compute. lia.
Defined.

(** C9, the claim as stated fails: with one registered producer a slate of two
    weighs less than a slate of one, for the same stake. *)
Lemma inverseVoteWeight_not_monotone :
  (inverseVoteWeight one_producer 1 (INR 2) VOTE_VARIATION
   < inverseVoteWeight one_producer 1 (INR 1) VOTE_VARIATION)%R.
Proof.
  rewrite !inverseVoteWeight_eq by (simpl; lra).
  replace (size (_producers one_producer)) with 1%nat by reflexivity.
  rewrite Rmin_left by (simpl; lra). simpl INR. unfold VOTE_VARIATION.
  replace (PI / 2 * ((1 + 1) / 1))%R with PI by field.
  replace (PI / 2 * (1 / 1))%R with (PI / 2)%R by field.
  rewrite sin_PI, sin_PI2. lra.
Qed.


(** ** The elected schedule *)

Lemma collect_top_prefix it acc :
  exists pre rest,
    it = pre ++ rest
    /\ Forall (fun p => qualifies p = true) pre
    /\ match rest with [] => True | p :: _ => qualifies p = false end
    /\ collect_top it acc = acc ++ map entry_of (firstn (21 - length acc) pre).
Proof.
  revert acc. induction it as [|p it IH]; intros acc.
  - exists [], []. simpl. rewrite firstn_nil, app_nil_r. auto.
  - cbn [collect_top]. destruct (qualifies p) eqn:Hq.
    + pose proof Hq as Hq'. unfold qualifies in Hq'.
      destruct (bool_decide (length acc < 21)) eqn:Hlen.
      * apply bool_decide_eq_true_1 in Hlen.
        destruct (IH (acc ++ [entry_of p])) as (pre & rest & -> & Hpre & Hrest & Hc).
        exists (p :: pre), rest.
        split; [reflexivity|].
        split; [constructor; [exact Hq | exact Hpre]|].
        split; [exact Hrest|].
        cbn [andb]. rewrite Hq'. unfold entry_of in Hc |- *. rewrite Hc.
        rewrite length_app. simpl length.
        replace (21 - length acc) with (S (21 - (length acc + 1))) by lia.
        simpl. now rewrite <- app_assoc.
      * apply bool_decide_eq_false_1 in Hlen.
        destruct (IH acc) as (pre & rest & -> & Hpre & Hrest & _).
        exists (p :: pre), rest.
        split; [reflexivity|].
        split; [constructor; [exact Hq | exact Hpre]|].
        split; [exact Hrest|].
        replace (21 - length acc) with 0 by lia. simpl. now rewrite app_nil_r.
    + exists [], (p :: it).
      split; [reflexivity|]. split; [constructor|]. split; [exact Hq|].
      replace (bool_decide (length acc < 21) && bool_decide (0 < total_votes p)%R
               && is_active p) with false.
      * rewrite firstn_nil. simpl. now rewrite app_nil_r.
      * unfold qualifies in Hq. destruct (bool_decide (length acc < 21)); simpl; auto.
Qed.







Lemma entry_insert_length x l : length (entry_insert x l) = S (length l).
Proof.
  induction l as [|y l IH]; [reflexivity|].
  simpl. destruct (entry_ltb y x); simpl; [now rewrite IH | reflexivity].
Qed.

Lemma sort_entries_length l : length (sort_entries l) = length l.
Proof.
  induction l as [|x l IH]; [reflexivity|].
  unfold sort_entries in *. cbn [foldr]. rewrite entry_insert_length. now rewrite IH.
Qed.

(** C5, as amended: [update_elected_producers] always completes and always
    sets [last_producer_schedule_update] to the block time, also when it
    returns early or the proposal is rejected; [last_producer_schedule_size]
    is set to the number of collected producers only when the schedule is
    published and is unchanged otherwise; nothing else is written. *)
Theorem update_elected_producers_bookkeeping
    (accept : list (N * N) -> Z) (idx : list producer_info) (block_time : N) (s : state) :
  update_elected_producers accept idx block_time s =
    Done tt (mk_state (_voters s) (_producers s)
      (mk_gstate (total_activated_stake (_gstate s))
                 (thresh_activated_stake_time (_gstate s))
                 (if publishes accept idx (_gstate s)
                  then N.of_nat (length (collect_top idx []))
                  else last_producer_schedule_size (_gstate s))
                 (total_producer_vote_weight (_gstate s))
                 block_time)).
Proof.
  unfold update_elected_producers, publishes, proposed_schedule. mrun.
  cbn [last_producer_schedule_size set_last_producer_schedule_update].
  destruct (bool_decide (_ < _)%N); cbn [negb andb]; [reflexivity|].
  destruct (bool_decide (_ >= _)%Z); [|reflexivity].
  rewrite sort_entries_length. reflexivity.
Qed.

(** C5, the claim as stated fails: on the early return (no producer
    qualifies, the last schedule had one) and on a rejected proposal the time
    of the last update is overwritten. *)
Lemma update_elected_producers_stamps_on_abort :
  (publishes accept_all [] (_gstate published_one) = false
   /\ exists s', update_elected_producers accept_all [] 7 published_one = Done tt s'
      /\ last_producer_schedule_update (_gstate published_one) = 3%N
      /\ last_producer_schedule_update (_gstate s') = 7%N)
  /\ (publishes reject_all [] (_gstate never_published) = false
      /\ exists s', update_elected_producers reject_all [] 7 never_published = Done tt s'
         /\ last_producer_schedule_update (_gstate never_published) = 3%N
         /\ last_producer_schedule_update (_gstate s') = 7%N).
Proof.
  split; (split; [reflexivity|]).
  - exists (mk_state ∅ ∅ (mk_gstate 0 0 1 0 7)). repeat split; reflexivity.
  - exists (mk_state ∅ ∅ (mk_gstate 0 0 0 0 7)). repeat split; reflexivity.
Qed.


(** ** What a completed run preserves *)

Lemma eosio_assert_Done b msg s a s' :
  eosio_assert b msg s = Done a s' -> s' = s /\ b = true.
Proof. unfold eosio_assert. destruct b; intros H; inversion H; auto. Qed.

Lemma read_only_assert b msg : read_only (eosio_assert b msg).
Proof. intros s a s' H. now apply eosio_assert_Done in H. Qed.

Lemma read_only_reads {A} (f : state -> A) : read_only (reads f).
Proof. intros s a s' H. now inversion H. Qed.

Lemma read_only_get_gstate : read_only get_gstate.
Proof. intros s a s' H. now inversion H. Qed.

Lemma read_only_voters_find k : read_only (voters_find k).
Proof. intros s a s' H. now inversion H. Qed.

Lemma read_only_producers_find k : read_only (producers_find k).
Proof. intros s a s' H. now inversion H. Qed.

Lemma read_only_voters_deref it : read_only (voters_deref it).
Proof.
  intros s a s' H. unfold voters_deref in H.
  destruct it; [destruct (_voters s !! _)|]; now inversion H.
Qed.

Lemma read_only_producers_deref it : read_only (producers_deref it).
Proof.
  intros s a s' H. unfold producers_deref in H.
  destruct it; [destruct (_producers s !! _)|]; now inversion H.
Qed.

Lemma read_only_voters_get k msg : read_only (voters_get k msg).
Proof. intros s a s' H. unfold voters_get in H. destruct (_ !! _); now inversion H. Qed.

Lemma read_only_producers_get k msg : read_only (producers_get k msg).
Proof. intros s a s' H. unfold producers_get in H. destruct (_ !! _); now inversion H. Qed.

Lemma read_only_diverge {A} : read_only (@diverge A).
Proof. intros s a s' H. discriminate. Qed.

Create HintDb read_only_db.

#[export] Hint Resolve read_only_assert read_only_reads read_only_get_gstate
  read_only_voters_find read_only_producers_find read_only_voters_deref
  read_only_producers_deref read_only_voters_get read_only_producers_get
  @read_only_diverge : read_only_db.

Section Preserved.

Variable Rel : state -> state -> Prop.
Hypothesis Rel_refl : forall s, Rel s s.
Hypothesis Rel_trans : forall s1 s2 s3, Rel s1 s2 -> Rel s2 s3 -> Rel s1 s3.

Lemma preserved_ret {A} (a : A) : preserved Rel (mret a).
Proof. intros s a' s' H. inversion H. subst. apply Rel_refl. Qed.

Lemma preserved_bind {A B} (m : M A) (k : A -> M B) :
  preserved Rel m -> (forall a, preserved Rel (k a)) -> preserved Rel (m ≫= k).
Proof.
  intros Hm Hk s b s' H. unfold mbind, M_bind, bind in H.
  destruct (m s) as [a s1| | |] eqn:E; try discriminate.
  eapply Rel_trans; [eapply Hm, E | eapply Hk, H].
Qed.

Lemma preserved_read_only {A} (m : M A) : read_only m -> preserved Rel m.
Proof. intros Hm s a s' H. rewrite (Hm _ _ _ H). apply Rel_refl. Qed.

Lemma preserved_for_each {A} (l : list A) (body : A -> M unit) :
  (forall x, preserved Rel (body x)) -> preserved Rel (for_each l body).
Proof.
  intros Hb. induction l as [|x l IH]; simpl.
  - apply (preserved_ret tt).
  - apply preserved_bind; [apply Hb | intros _; apply IH].
Qed.

End Preserved.

(** ** The activation latch *)

Lemma latched_refl s : latched s s.
Proof. intros _. reflexivity. Qed.

Lemma latched_trans s1 s2 s3 : latched s1 s2 -> latched s2 s3 -> latched s1 s3.
Proof. unfold latched. intros H12 H23 H. rewrite H23; rewrite H12; auto. Qed.

Lemma latched_of_gstate s s' : _gstate s' = _gstate s -> latched s s'.
Proof. intros H _. now rewrite H. Qed.

(** ** The activated stake *)




(** One step of a proof that a computation preserves [Rel], a relation that
    looks at the global state only: [refl], [trans] and [of_gstate] are its
    three lemmas. *)
Ltac frame_step Rel refl trans of_gstate :=
  lazymatch goal with
  | |- preserved Rel (mbind _ _) =>
      apply (preserved_bind Rel trans); [ | intros ? ]
  | |- preserved Rel (mret _) => apply (preserved_ret Rel refl)
  | |- preserved Rel (for_each _ _) =>
      apply (preserved_for_each Rel refl trans); intros ?
  | |- preserved Rel (modify_gstate _) =>
      let s := fresh "s" in let H := fresh "H" in
      intros s ? ? H; inversion H; subst; clear H;
      destruct s as [? ? []]; unfold Rel; cbn;
      first [reflexivity | intros _; reflexivity]
  | |- preserved Rel (voters_modify _ _) =>
      intros ? ? ? H; inversion H; now apply of_gstate
  | |- preserved Rel (voters_emplace _) =>
      intros ? ? ? H; inversion H; now apply of_gstate
  | |- preserved Rel (producers_modify _ _) =>
      intros ? ? ? H; inversion H; now apply of_gstate
  | |- preserved Rel (producers_emplace _) =>
      intros ? ? ? H; inversion H; now apply of_gstate
  | |- preserved Rel (if ?b then _ else _) => destruct b
  | |- preserved Rel (match ?x with _ => _ end) => destruct x
  | |- preserved Rel _ =>
      apply (preserved_read_only Rel refl); solve [eauto with read_only_db]
  end.

Ltac latch_step := frame_step latched latched_refl latched_trans latched_of_gstate.




Lemma latched_checkNetworkActivation min now :
  preserved latched (checkNetworkActivation min now).
Proof.
  intros s a s' H Hnz. unfold checkNetworkActivation in H.
  unfold mbind, M_bind, bind, get_gstate in H.
  rewrite (bool_decide_eq_false_2 _ Hnz), andb_false_r in H.
  now inversion H.
Qed.

Lemma latched_propagate fuel voter :
  preserved latched (propagate_weight_change fuel voter).
Proof.
  revert voter. induction fuel as [|fuel IH]; intros voter; simpl.
  - latch_step.
  - repeat first [apply IH | latch_step].
Qed.

Lemma latched_check_sorted l : preserved latched (check_sorted l).
Proof.
  induction l as [|a [|b l] IH]; simpl; repeat first [apply IH | latch_step].
Qed.

Lemma latched_update_votes min now fuel voter_name proxy_arg producers_arg voting :
  preserved latched (update_votes min now fuel voter_name proxy_arg producers_arg voting).
Proof.
  unfold update_votes, leave_old_proxy, apply_delta.
  repeat first
    [ apply latched_checkNetworkActivation
    | apply latched_propagate
    | apply latched_check_sorted
    | latch_step ].
Qed.

Lemma latched_run min fuel e a : preserved latched (run min fuel e a).
Proof.
  destruct a; cbn [run].
  - unfold regproducer, require_auth. repeat latch_step.
  - unfold unregprod, require_auth. repeat latch_step.
  - unfold voteproducer, require_auth.
    repeat first [apply latched_update_votes | latch_step].
  - unfold regproxy, require_auth. repeat latch_step.
  - apply latched_update_votes.
  - unfold update_elected_producers. repeat latch_step.
  - apply latched_checkNetworkActivation.
  - apply latched_propagate.
Qed.

Lemma latched_apply_action min fuel s ea : latched s (apply_action min fuel s ea).
Proof.
  unfold apply_action, commit.
  destruct (run min fuel ea.1 ea.2 s) as [[] s'| | |] eqn:E; try apply latched_refl.
  eapply latched_run, E.
Qed.

Lemma latched_apply_all min fuel l s : latched s (apply_all min fuel l s).
Proof.
  revert s. induction l as [|ea l IH]; intros s; [apply latched_refl|].
  eapply latched_trans; [apply latched_apply_action | apply IH].
Qed.

(** C7: [checkNetworkActivation] always completes, writes nothing but the
    activation time, and sets it to the current time exactly when the
    activated stake has reached the threshold and the time is still zero; once
    the time is not zero no sequence of transactions made of the functions of
    the contract changes it; and a second call after the threshold was crossed
    at a time that is not zero returns the state unchanged. *)
Theorem activation_latch (min : Z) :
  (forall now s,
     checkNetworkActivation min now s =
       Done tt (mk_state (_voters s) (_producers s)
                  (if bool_decide (total_activated_stake (_gstate s) >= min)%Z
                      && bool_decide (thresh_activated_stake_time (_gstate s) = 0%N)
                   then set_thresh_activated_stake_time now (_gstate s)
                   else _gstate s)))
  /\ (forall fuel l s,
        thresh_activated_stake_time (_gstate s) ≠ 0%N ->
        thresh_activated_stake_time (_gstate (apply_all min fuel l s))
        = thresh_activated_stake_time (_gstate s))
  /\ (forall now now' s,
        (total_activated_stake (_gstate s) >= min)%Z -> now ≠ 0%N ->
        exists s1,
          checkNetworkActivation min now s = Done tt s1
          /\ thresh_activated_stake_time (_gstate s1) ≠ 0%N
          /\ checkNetworkActivation min now' s1 = Done tt s1).
Proof.
  assert (Hrun : forall now s,
     checkNetworkActivation min now s =
       Done tt (mk_state (_voters s) (_producers s)
                  (if bool_decide (total_activated_stake (_gstate s) >= min)%Z
                      && bool_decide (thresh_activated_stake_time (_gstate s) = 0%N)
                   then set_thresh_activated_stake_time now (_gstate s)
                   else _gstate s))).
  { intros now s. unfold checkNetworkActivation, mbind, M_bind, bind, get_gstate.
    destruct (_ && _); [reflexivity|]. destruct s; reflexivity. }
  split; [exact Hrun|split].
  - intros fuel l s. apply latched_apply_all.
  - intros now now' s Hge Hnow. eexists. split; [apply Hrun|].
    rewrite (bool_decide_eq_true_2 _ Hge). cbn [andb _gstate].
    assert (Hnz : thresh_activated_stake_time
                    (if bool_decide (thresh_activated_stake_time (_gstate s) = 0%N)
                     then set_thresh_activated_stake_time now (_gstate s)
                     else _gstate s) ≠ 0%N).
    { destruct (bool_decide _) eqn:E; [exact Hnow|].
      now apply bool_decide_eq_false_1 in E. }
    split; [exact Hnz|].
    rewrite Hrun. cbn [_gstate _voters _producers].
    rewrite (bool_decide_eq_false_2 _ Hnz), andb_false_r. reflexivity.
Qed.


(** ** Termination of the propagation *)

Lemma chain_ends_same_links s s' d voter :
  same_links s s' -> chain_ends s' d voter = chain_ends s d voter.
Proof.
  intros H. revert voter. induction d as [|d IH]; intros voter; simpl;
    destruct (H voter) as [Hp Hi];
    destruct (_voters s' !! voter) as [v'|], (_voters s !! voter) as [v|];
    simpl in Hp, Hi; try discriminate; try reflexivity;
    injection Hp as Hp; injection Hi as Hi; rewrite Hp, Hi; try reflexivity.
  now rewrite IH.
Qed.

Lemma same_links_set_pvw s k x :
  same_links s (mk_state (alter (set_proxied_vote_weight x) k (_voters s))
                         (_producers s) (_gstate s)).
Proof.
  intros j. cbn [_voters]. rewrite lookup_alter.
  destruct (decide (k = j)) as [->|]; [|done].
  destruct (_voters s !! j); done.
Qed.

Lemma for_each_no_diverge {A} (l : list A) (body : A -> M unit) s :
  (forall x s, body x s ≠ Diverge) -> for_each l body s ≠ Diverge.
Proof.
  intros Hb. revert s. induction l as [|x l IH]; intros s; simpl; [done|].
  unfold mbind, M_bind, bind. specialize (Hb x s).
  destruct (body x s); done.
Qed.

Lemma set_votes_no_diverge w acnt s :
  (_ ← producers_get acnt "producer not found";
   producers_modify acnt (set_total_votes w)) s ≠ Diverge.
Proof. mrun. destruct (_producers s !! acnt); done. Qed.

Lemma propagate_step_no_proxy fuel voter s v :
  _voters s !! voter = Some v -> proxy v = 0%N ->
  propagate_weight_change (S fuel) voter s ≠ Diverge.
Proof.
  intros Hv Hp. simpl. mrun. rewrite Hv, Hp. change (is_set 0) with false. mexec.
  match goal with |- context [for_each ?l ?b ?s] =>
    pose proof (for_each_no_diverge l b s (set_votes_no_diverge _)) as Hf;
    destruct (for_each l b s) end; done.
Qed.

Lemma propagate_no_diverge (d fuel : nat) (voter : N) (s : state) :
  d < fuel -> chain_ends s d voter = true ->
  propagate_weight_change fuel voter s ≠ Diverge.
Proof.
  revert fuel voter s. induction d as [|d IH]; intros fuel voter s Hlt Hch;
    (destruct fuel as [|fuel]; [lia|]).
  - simpl in Hch. destruct (_voters s !! voter) as [v|] eqn:Hv.
    + destruct (decide (proxy v = 0%N)) as [Hp|Hp].
      * eapply propagate_step_no_proxy; eauto.
      * assert (Hset : is_set (proxy v) = true)
          by (unfold is_set; apply negb_true_iff, N.eqb_neq, Hp).
        rewrite Hset in Hch. destruct (is_proxy v) eqn:Hi; [|discriminate].
        simpl. mrun. rewrite Hv, Hi. mexec. done.
    + simpl. mrun. rewrite Hv. done.
  - simpl in Hch. destruct (_voters s !! voter) as [v|] eqn:Hv.
    + destruct (decide (proxy v = 0%N)) as [Hp|Hp].
      * eapply propagate_step_no_proxy; eauto.
      * assert (Hset : is_set (proxy v) = true)
          by (unfold is_set; apply negb_true_iff, N.eqb_neq, Hp).
        rewrite Hset in Hch.
        cbn [propagate_weight_change]. mrun. rewrite Hv.
        destruct (is_proxy v) eqn:Hi; mexec; [done|].
        rewrite Hset. mrun.
        destruct (_voters s !! proxy v) as [pr|]; [|done].
        match goal with |- context [propagate_weight_change fuel ?k ?s1] =>
          assert (Hrec : propagate_weight_change fuel k s1 ≠ Diverge) end.
        { apply IH; [lia|].
          rewrite (chain_ends_same_links s); [exact Hch | apply same_links_set_pvw]. }
        match goal with |- context [propagate_weight_change fuel ?k ?s1] =>
          destruct (propagate_weight_change fuel k s1) end; done.
    + simpl. mrun. rewrite Hv. done.
Qed.

Lemma propagate_unfold fuel voter :
  propagate_weight_change (S fuel) voter =
    (v ← voters_deref (Some voter);
     eosio_assert (bool_decide (proxy v = 0%N) || negb (is_proxy v))
       "account registered as a proxy is not allowed to use a proxy" ;;
     totalProds ← reads (fun s => count_active (_producers s));
     let totalStake := (IZR (staked v) + proxied_vote_weight v)%R in
     new_weight ← reads (fun s =>
       inverseVoteWeight s (double_to_int64 totalStake) (INR totalProds)
         VOTE_VARIATION);
     (if is_set (proxy v) then
        pr ← voters_get (proxy v) "proxy not found";
        voters_modify (proxy v) (set_proxied_vote_weight (IZR (staked pr))) ;;
        propagate_weight_change fuel (proxy v)
      else
        for_each (producers v) (fun acnt =>
          _ ← producers_get acnt "producer not found";
          producers_modify acnt (set_total_votes new_weight))) ;;
     voters_modify voter (set_last_vote_weight new_weight)).
Proof. reflexivity. Qed.

Lemma propagate_fuel_step fuel voter s :
  propagate_weight_change fuel voter s ≠ Diverge ->
  propagate_weight_change (S fuel) voter s = propagate_weight_change fuel voter s.
Proof.
  revert voter s. induction fuel as [|fuel IH]; intros voter s H; [done|].
  revert H. rewrite (propagate_unfold (S fuel) voter), (propagate_unfold fuel voter). mrun.
  destruct (_voters s !! voter) as [v|]; mrun; [|done].
  destruct (bool_decide (proxy v = 0%N)); destruct (is_proxy v); mrun; try done;
    (destruct (is_set (proxy v)); mrun; [|done]);
    (destruct (_voters s !! proxy v) as [pr|]; mrun; [|done]);
    match goal with |- context [propagate_weight_change fuel ?k ?s1] =>
      destruct (propagate_weight_change fuel k s1) eqn:E;
      [ | | | intros H; now contradiction H ];
      intros _; rewrite IH by (rewrite E; discriminate); rewrite E; reflexivity
    end.
Qed.

Lemma propagate_fuel_mono fuel fuel' voter s :
  fuel <= fuel' ->
  propagate_weight_change fuel voter s ≠ Diverge ->
  propagate_weight_change fuel' voter s = propagate_weight_change fuel voter s.
Proof.
  intros Hle H. induction Hle as [|fuel' Hle IH]; [reflexivity|].
  rewrite propagate_fuel_step; [exact IH | now rewrite IH].
Qed.

(** C6, as amended: the recursion has no depth bound of its own; it ends,
    with a result or a failed assertion that does not depend on the depth
    allowed, whenever the chain of proxy links from the voter stops within
    finitely many links, and the depth it needs is one more than the length of
    that chain. *)
Theorem propagate_terminates_on_finite_chain (d : nat) (voter : N) (s : state) :
  chain_ends s d voter = true ->
  exists r,
    r ≠ Diverge
    /\ forall fuel, d < fuel -> propagate_weight_change fuel voter s = r.
Proof.
  intros Hch.
  assert (H : propagate_weight_change (S d) voter s ≠ Diverge)
    by (apply (propagate_no_diverge d); [lia | exact Hch]).
  exists (propagate_weight_change (S d) voter s). split; [exact H|].
  intros fuel Hlt. apply propagate_fuel_mono; [lia | exact H].
Qed.

Lemma two_cycle_same_links s s' : same_links s s' -> two_cycle s -> two_cycle s'.
Proof.
  intros H (v1 & v2 & H1 & Hp1 & Hi1 & H2 & Hp2 & Hi2).
  destruct (H 1%N) as [Ha Hb]. destruct (H 2%N) as [Hc Hd].
  rewrite H1 in Ha, Hb. rewrite H2 in Hc, Hd.
  destruct (_voters s' !! 1%N) as [w1|] eqn:E1; [|discriminate].
  destruct (_voters s' !! 2%N) as [w2|] eqn:E2; [|discriminate].
  simplify_eq/=. exists w1, w2. repeat split; congruence.
Qed.

Lemma two_cycle_diverges fuel s :
  two_cycle s ->
  propagate_weight_change fuel 1 s = Diverge
  /\ propagate_weight_change fuel 2 s = Diverge.
Proof.
  revert s. induction fuel as [|fuel IH]; intros s Hc; [done|].
  pose proof Hc as (v1 & v2 & H1 & Hp1 & Hi1 & H2 & Hp2 & Hi2).
  split; cbn [propagate_weight_change]; mrun.
  - rewrite H1, Hp1, Hi1. change (is_set 2) with true. mexec. rewrite H2. mrun.
    match goal with |- context [propagate_weight_change fuel 2 ?s1] =>
      destruct (IH s1) as [_ ->]; [|done] end.
    eapply two_cycle_same_links; [apply same_links_set_pvw | exact Hc].
  - rewrite H2, Hp2, Hi2. change (is_set 1) with true. mexec. rewrite H1. mrun.
    match goal with |- context [propagate_weight_change fuel 1 ?s1] =>
      destruct (IH s1) as [-> _]; [|done] end.
    eapply two_cycle_same_links; [apply same_links_set_pvw | exact Hc].
Qed.

Lemma propagate_terminates_on_finite_chain_witness :
  exists r,
    r ≠ Diverge
    /\ forall fuel, 1 < fuel -> propagate_weight_change fuel 1 delegated = r.
Proof.
  apply (propagate_terminates_on_finite_chain 1 1 delegated).
  reflexivity.
Defined.

(** C6, the claim as stated fails: on a state where two accounts name each
    other as proxy the recursion exhausts every depth. *)
Lemma propagate_diverges_on_cycle :
  ~ exists fuel, propagate_weight_change fuel 1 proxy_cycle ≠ Diverge.
Proof.
  intros [fuel H]. apply H. apply two_cycle_diverges.
  exists (delegator 1 2 5), (delegator 2 1 5). repeat split; reflexivity.
Qed.


(** ** Votes *)

(** C4: when the named proxy has no row, [update_votes] reads through the end
    iterator of the voters table (the weight added to [totalStaked]) before
    any check that the row exists. *)
Theorem update_votes_missing_proxy_faults
    (min : Z) (now : N) (fuel : nat) (voter_name proxy_arg : N) (voting : bool)
    (s : state) (v : voter_info) :
  is_set proxy_arg = true ->
  voter_name ≠ proxy_arg ->
  _voters s !! voter_name = Some v ->
  is_proxy v = false ->
  _voters s !! proxy_arg = None ->
  update_votes min now fuel voter_name proxy_arg [] voting s = Fault.
Proof.
  intros Hset Hne Hv Hnp Hpx.
  unfold update_votes. rewrite Hset. mexec.
  rewrite Hv. mexec. rewrite Hv, Hnp. mexec. rewrite Hpx.
  reflexivity.
Qed.

Lemma update_votes_missing_proxy_faults_witness :
  update_votes 1000 5 1 10 20 [] true one_producer_one_voter = Fault.
Proof.
  apply (update_votes_missing_proxy_faults 1000 5 1 10 20 true one_producer_one_voter
           (fresh_voter 10 100)).
  - reflexivity.
  - discriminate.
  - reflexivity.
  - reflexivity.
  - reflexivity.
Defined.




Lemma wrap64_id z : in_int64 z -> wrap64 z = z.
Proof.
  unfold in_int64, wrap64. intros H.
  rewrite Z.mod_small by lia. lia.
Qed.

Lemma Rtrunc_IZR (x : R) (z : Z) : x = IZR z -> Rtrunc x = z.
Proof.
  intros ->. unfold Rtrunc. destruct (decide (0 <= IZR z)%R).
  - symmetry. apply Int_part_spec. lra.
  - rewrite <- opp_IZR. rewrite <- (Int_part_spec (IZR (- z)) (- z)) by lra. lia.
Qed.

Lemma fits_int64_IZR (x : R) (z : Z) : x = IZR z -> in_int64 z -> fits_int64 x.
Proof. intros Hx Hz. unfold fits_int64. now rewrite (Rtrunc_IZR x z Hx). Qed.

Lemma double_to_int64_fits (x : R) : fits_int64 x -> double_to_int64 x = Rtrunc x.
Proof. apply wrap64_id. Qed.





Lemma weight_three_of_one s :
  size (_producers s) = 1%nat ->
  inverseVoteWeight s 100 (INR 3) VOTE_VARIATION = (-80)%R.
Proof.
  intros Hsz. rewrite inverseVoteWeight_eq by (simpl; lra).
  rewrite Hsz. rewrite Rmin_left by (simpl; lra). simpl INR. unfold VOTE_VARIATION.
  replace (PI / 2 * ((1 + 1 + 1) / 1))%R with (3 * (PI / 2))%R by field.
  rewrite sin_3PI2. lra.
Qed.

Lemma weight_one_of_one s :
  size (_producers s) = 1%nat ->
  inverseVoteWeight s 100 (INR 1) VOTE_VARIATION = 100%R.
Proof.
  intros Hsz. rewrite inverseVoteWeight_eq by (simpl; lra).
  rewrite Hsz. rewrite Rmin_left by (simpl; lra). simpl INR. unfold VOTE_VARIATION.
  replace (PI / 2 * (1 / 1))%R with (PI / 2)%R by field.
  rewrite sin_PI2. lra.
Qed.

(** A first vote for the one registered producer, by a voter whose stake
    reaches the threshold: the producer receives the whole stake, the stake is
    activated and the activation time is set. *)
Example voteproducer_first_vote :
  exists s' p v,
    voteproducer 100 5 always_auth 1 10 0 [1%N] one_producer_one_voter = Done tt s'
    /\ _producers s' !! 1%N = Some p /\ total_votes p = 100%R
    /\ _voters s' !! 10%N = Some v
    /\ last_vote_weight v = 100%R /\ producers v = [1%N] /\ proxy v = 0%N
    /\ total_activated_stake (_gstate s') = 100%Z
    /\ thresh_activated_stake_time (_gstate s') = 5%N
    /\ total_producer_vote_weight (_gstate s') = 100%R.
Proof.
  assert (Hv : _voters one_producer_one_voter !! 10%N = Some (fresh_voter 10 100))
    by reflexivity.
  assert (Hp : _producers one_producer_one_voter !! 1%N = Some (prod_row 1 0 true))
    by reflexivity.
  eexists. eexists. eexists. split.
  - unfold voteproducer, require_auth, update_votes, check_sorted, always_auth.
    change (is_set 0) with false. mexec.
    rewrite Hv. mexec. rewrite Hv. mexec.
    rewrite weight_one_of_one by reflexivity.
    cbn [last_vote_weight proxied_vote_weight staked proxy producers is_proxy
         fresh_voter].
    mexec. unfold checkNetworkActivation. mexec.
    cbn [total_activated_stake set_total_activated_stake thresh_activated_stake_time
         _gstate one_producer_one_voter gstate0].
    change (add64 0 100) with 100%Z. mexec.
    change (is_set 0) with false. mexec.
    cbn [deltas_update]. unfold apply_delta. mexec.
    cbn [fst snd]. rewrite Hp. mexec. cbn [is_active prod_row]. mexec.
    reflexivity.
  - unfold one_producer_one_voter. cbn [_producers _voters _gstate].
    rewrite lookup_alter_eq, !lookup_insert_eq.
    cbn [fmap option_fmap option_map].
    split; [reflexivity|]. split.
    { unfold clamp_add. cbn [total_votes prod_row set_total_votes].
      rewrite bool_decide_eq_false_2 by lra. lra. }
    split; [reflexivity|]. split; [reflexivity|]. split; [reflexivity|].
    split; [reflexivity|]. split; [reflexivity|]. split; [reflexivity|].
    cbn. lra.
Qed.

(** C1, the code at the failing input: with one registered producer, a voter
    that names one unregistered producer is refused by the assertion of the
    loop over the deltas; a voter that names three gets a negative weight, the
    slate is never entered into the deltas, no assertion is reached, and the
    vote is stored: the activated stake and the voter's row are changed. *)
Theorem voteproducer_accepts_unregistered_slate :
  _producers one_producer_one_voter !! 2%N = None
  /\ _producers one_producer_one_voter !! 3%N = None
  /\ _producers one_producer_one_voter !! 4%N = None
  /\ voteproducer 1000 5 always_auth 1 10 0 [2%N] one_producer_one_voter
     = Abort "producer is not registered"
  /\ exists s',
       voteproducer 1000 5 always_auth 1 10 0 [2; 3; 4]%N one_producer_one_voter
       = Done tt s'
       /\ _voters s' !! 10%N = Some (mk_voter 10 0 [2; 3; 4]%N 100 (-80) 0 false)
       /\ total_activated_stake (_gstate s') = 100%Z
       /\ commit one_producer_one_voter
            (voteproducer 1000 5 always_auth 1 10 0 [2; 3; 4]%N one_producer_one_voter)
          ≠ one_producer_one_voter.
Proof.
  assert (Hv : _voters one_producer_one_voter !! 10%N = Some (fresh_voter 10 100))
    by reflexivity.
  assert (Hp : _producers one_producer_one_voter !! 2%N = None) by reflexivity.
  split; [exact Hp|]. split; [reflexivity|]. split; [reflexivity|]. split.
  { unfold voteproducer, require_auth, update_votes, check_sorted, always_auth.
    change (is_set 0) with false. mexec.
    rewrite Hv. mexec. rewrite Hv. mexec.
    rewrite weight_one_of_one by reflexivity.
    cbn [last_vote_weight proxied_vote_weight staked proxy producers is_proxy
         fresh_voter].
    mexec. unfold checkNetworkActivation. mexec.
    cbn [total_activated_stake set_total_activated_stake thresh_activated_stake_time
         _gstate one_producer_one_voter gstate0].
    change (add64 0 100) with 100%Z. mexec.
    change (is_set 0) with false. mexec.
    cbn [deltas_update]. unfold apply_delta. mexec.
    cbn [fst snd]. rewrite Hp. reflexivity. }
  assert (Hrun : exists s',
       voteproducer 1000 5 always_auth 1 10 0 [2; 3; 4]%N one_producer_one_voter
       = Done tt s'
       /\ _voters s' !! 10%N = Some (mk_voter 10 0 [2; 3; 4]%N 100 (-80) 0 false)
       /\ total_activated_stake (_gstate s') = 100%Z).
  { eexists. split.
    - unfold voteproducer, require_auth, update_votes, check_sorted, always_auth.
      change (is_set 0) with false. mexec.
      change ((2 <? 3)%N) with true. change ((3 <? 4)%N) with true. mexec.
      rewrite Hv. mexec. rewrite Hv. mexec.
      rewrite weight_three_of_one by reflexivity.
      cbn [last_vote_weight proxied_vote_weight staked proxy producers is_proxy
           fresh_voter].
      mexec. unfold checkNetworkActivation. mexec.
      cbn [total_activated_stake set_total_activated_stake thresh_activated_stake_time
           _gstate one_producer_one_voter gstate0].
      change (add64 0 100) with 100%Z. mexec.
      change (is_set 0) with false. mexec.
      reflexivity.
    - split; [|reflexivity]. unfold one_producer_one_voter. cbn [_voters].
      rewrite lookup_alter_eq, lookup_insert_eq. reflexivity. }
  destruct Hrun as (s' & Hs' & Hvoter & Hstake).
  exists s'. repeat split; try assumption.
  rewrite Hs'. cbn [commit]. intros Heq. rewrite Heq in Hstake. discriminate.
Qed.



(** ** The vote deltas *)




Lemma apply_deltas_lookup_other m t p :
  p ∉ m.*1 -> apply_deltas m t !! p = t !! p.
Proof.
  revert t. induction m as [|[q d] m IH]; intros t Hp; [reflexivity|].
  rewrite fmap_cons in Hp. cbn [fst] in Hp. apply not_elem_of_cons in Hp as [Hpq Hp].
  unfold apply_deltas. cbn [fold_left fst snd].
  fold (apply_deltas m (alter (clamp_add d.1) q t)).
  rewrite IH by exact Hp. now apply lookup_alter_ne.
Qed.

Lemma apply_deltas_lookup m t p d :
  NoDup m.*1 -> Forall (fun pd : N * (R * bool) => pd.2.1 = d) m -> p ∈ m.*1 ->
  apply_deltas m t !! p = clamp_add d <$> t !! p.
Proof.
  revert t. induction m as [|[q e] m IH]; intros t Hnd Hall Hin.
  - now apply elem_of_nil in Hin.
  - rewrite fmap_cons in Hnd, Hin. cbn [fst] in Hnd, Hin.
    apply NoDup_cons in Hnd as [Hq Hnd].
    apply Forall_cons in Hall as [He Hall]. cbn in He.
    unfold apply_deltas. cbn [fold_left fst snd].
    fold (apply_deltas m (alter (clamp_add e.1) q t)).
    apply elem_of_cons in Hin as [->|Hin].
    + rewrite apply_deltas_lookup_other by exact Hq.
      rewrite lookup_alter_eq. now rewrite He.
    + rewrite IH by assumption. rewrite lookup_alter_ne; [reflexivity|].
      intros ->. contradiction.
Qed.

Lemma deltas_update_fresh p f m :
  deltas_sorted m -> p ∉ m.*1 ->
  deltas_sorted (deltas_update p f m)
  /\ (forall q, q ∈ (deltas_update p f m).*1 <-> q = p \/ q ∈ m.*1)
  /\ (forall P : R * bool -> Prop,
        P (f (0%R, false)) -> Forall (fun pd => P pd.2) m ->
        Forall (fun pd => P pd.2) (deltas_update p f m)).
Proof.
  unfold deltas_sorted.
  induction m as [|[q d] m IH]; intros Hs Hp.
  - cbn [deltas_update]. rewrite fmap_cons, fmap_nil. cbn [fst]. repeat split.
    + repeat constructor.
    + intros Hq. apply list_elem_of_singleton in Hq. now left.
    + intros [->|Hq]; [now apply list_elem_of_singleton|].
      now apply elem_of_nil in Hq.
    + intros P HP _. now repeat constructor.
  - cbn [deltas_update]. rewrite fmap_cons in Hs, Hp. cbn [fst] in Hs, Hp.
    apply StronglySorted_inv in Hs as [Hs Hq].
    apply not_elem_of_cons in Hp as [Hpq Hpm].
    rewrite Forall_forall in Hq.
    destruct (p <? q)%N eqn:Hlt.
    + apply N.ltb_lt in Hlt. rewrite !fmap_cons. cbn [fst]. repeat split.
      * constructor; [constructor; [exact Hs | now apply Forall_forall]|].
        constructor; [exact Hlt|].
        apply Forall_forall. intros x Hx. specialize (Hq x Hx). lia.
      * intros Hin. apply elem_of_cons in Hin as [->|Hin]; auto.
      * intros [->|Hin]; [now left | now right].
      * intros P HP Hall. now constructor.
    + apply N.ltb_ge in Hlt.
      destruct (p =? q)%N eqn:Heq; [apply N.eqb_eq in Heq; contradiction|].
      destruct (IH Hs Hpm) as (IH1 & IH2 & IH3).
      rewrite !fmap_cons. cbn [fst]. repeat split.
      * constructor; [exact IH1|].
        apply Forall_forall. intros x Hx.
        apply IH2 in Hx as [->|Hx]; [lia | now apply Hq].
      * intros Hin. apply elem_of_cons in Hin as [->|Hin].
        -- right. now left.
        -- apply IH2 in Hin as [->|Hin]; [now left | right; now right].
      * intros [->|Hin].
        -- right. apply IH2. now left.
        -- apply elem_of_cons in Hin as [->|Hin]; [now left|].
           right. apply IH2. now right.
      * intros P HP Hall. apply Forall_cons in Hall as [Hd Hall].
        constructor; [exact Hd | now apply IH3].
Qed.

Lemma deltas_of_slate (f : R * bool -> R * bool) l m0 :
  NoDup l -> deltas_sorted m0 -> (forall p, p ∈ l -> p ∉ m0.*1) ->
  let m := fold_left (fun m p => deltas_update p f m) l m0 in
  deltas_sorted m
  /\ (forall q, q ∈ m.*1 <-> q ∈ l \/ q ∈ m0.*1)
  /\ (forall P : R * bool -> Prop,
        P (f (0%R, false)) -> Forall (fun pd => P pd.2) m0 ->
        Forall (fun pd => P pd.2) m).
Proof.
  revert m0. induction l as [|p l IH]; intros m0 Hnd Hs Hdis; cbn.
  - repeat split; auto. intros [Hq|Hq]; [now apply elem_of_nil in Hq | exact Hq].
  - apply NoDup_cons in Hnd as [Hp Hnd].
    destruct (deltas_update_fresh p f m0 Hs) as (H1 & H2 & H3).
    { apply Hdis. now left. }
    destruct (IH (deltas_update p f m0) Hnd H1) as (I1 & I2 & I3).
    { intros q Hq Hin. apply H2 in Hin as [->|Hin]; [contradiction|].
      eapply Hdis; [right; exact Hq | exact Hin]. }
    repeat split.
    + exact I1.
    + intros Hq. apply I2 in Hq as [Hq|Hq]; [left; now right|].
      apply H2 in Hq as [->|Hq]; [left; now left | now right].
    + intros [Hq|Hq]; apply I2.
      * apply elem_of_cons in Hq as [->|Hq]; [right; apply H2; now left | now left].
      * right. apply H2. now right.
    + intros P HP Hall. apply I3; [exact HP | now apply H3].
Qed.

Lemma sorted_keys_NoDup (l : list N) : StronglySorted N.lt l -> NoDup l.
Proof.
  induction 1 as [|x l Hs IH Hx]; [constructor|].
  apply NoDup_cons. split; [|exact IH].
  intros Hin. rewrite Forall_forall in Hx. specialize (Hx x Hin). lia.
Qed.


(** ** The propagation on a proxy that votes directly *)

Lemma overwrite_votes_other w l t p :
  p ∉ l -> overwrite_votes w l t !! p = t !! p.
Proof.
  revert t. induction l as [|q l IH]; intros t Hp; [reflexivity|].
  apply not_elem_of_cons in Hp as [Hpq Hp].
  unfold overwrite_votes. cbn [fold_left].
  fold (overwrite_votes w l (alter (set_total_votes w) q t)).
  rewrite IH by exact Hp. now apply lookup_alter_ne.
Qed.

Lemma for_each_overwrite w l s :
  Forall (fun p => is_Some (_producers s !! p)) l ->
  for_each l (fun acnt =>
      _ ← producers_get acnt "producer not found";
      producers_modify acnt (set_total_votes w)) s
  = Done tt (mk_state (_voters s) (overwrite_votes w l (_producers s)) (_gstate s)).
Proof.
  revert s. induction l as [|q l IH]; intros s Hl.
  - now destruct s.
  - apply Forall_cons in Hl as [[pi Hq] Hl].
    cbn [for_each]. mrun. rewrite Hq.
    rewrite IH; [reflexivity|]. cbn [_producers].
    eapply Forall_impl; [exact Hl|]. intros p [x Hx]. cbn beta.
    rewrite lookup_alter. destruct (decide (q = p)) as [->|]; [|eauto].
    rewrite Hq. eauto.
Qed.

Lemma propagate_proxy_row fuel k s P :
  _voters s !! k = Some P -> proxy P = 0%N ->
  Forall (fun p => is_Some (_producers s !! p)) (producers P) ->
  exists w,
    propagate_weight_change (S fuel) k s =
      Done tt (mk_state (alter (set_last_vote_weight w) k (_voters s))
                        (overwrite_votes w (producers P) (_producers s)) (_gstate s)).
Proof.
  intros HP Hpx Hreg. cbn [propagate_weight_change]. mrun. rewrite HP, Hpx.
  change (is_set 0) with false. mexec.
  eexists.
  match goal with |- context [for_each ?l ?b ?s] =>
    pose proof (for_each_overwrite
      (inverseVoteWeight s (double_to_int64 (IZR (staked P) + proxied_vote_weight P))
         (INR (count_active (_producers s))) VOTE_VARIATION) l s Hreg) as Hf end.
  cbv beta iota zeta delta [mbind M_bind bind producers_get producers_modify] in Hf.
  rewrite Hf. reflexivity.
Qed.


(** ** Switching from a direct vote to a proxy *)








(** ** The check of the new slate *)

Lemma bind_Done {A B} (m : M A) (k : A -> M B) s b s' :
  (m ≫= k) s = Done b s' ->
  exists a s1, m s = Done a s1 /\ k a s1 = Done b s'.
Proof.
  unfold mbind, M_bind, bind. destruct (m s) as [a s1| | |]; try discriminate.
  intros H. now exists a, s1.
Qed.

Lemma same_activity_refl s : same_activity s s.
Proof. intros k. reflexivity. Qed.

Lemma same_activity_trans s1 s2 s3 :
  same_activity s1 s2 -> same_activity s2 s3 -> same_activity s1 s3.
Proof. intros H12 H23 k. now rewrite H23. Qed.

Lemma same_activity_of_producers s s' :
  _producers s' = _producers s -> same_activity s s'.
Proof. intros H k. now rewrite H. Qed.

Lemma same_activity_alter f k s :
  (forall p, is_active (f p) = is_active p) ->
  same_activity s (mk_state (_voters s) (alter f k (_producers s)) (_gstate s)).
Proof.
  intros Hf j. cbn [_producers]. rewrite lookup_alter.
  destruct (decide (k = j)) as [->|]; [|reflexivity].
  destruct (_producers s !! j); cbn; [now rewrite Hf | reflexivity].
Qed.

Ltac activity_step :=
  lazymatch goal with
  | |- preserved same_activity (mbind _ _) =>
      apply (preserved_bind same_activity same_activity_trans); [ | intros ? ]
  | |- preserved same_activity (mret _) =>
      apply (preserved_ret same_activity same_activity_refl)
  | |- preserved same_activity (for_each _ _) =>
      apply (preserved_for_each same_activity same_activity_refl same_activity_trans);
      intros ?
  | |- preserved same_activity (modify_gstate _) =>
      intros ? ? ? H; inversion H; now apply same_activity_of_producers
  | |- preserved same_activity (voters_modify _ _) =>
      intros ? ? ? H; inversion H; now apply same_activity_of_producers
  | |- preserved same_activity (producers_modify _ _) =>
      intros ? ? ? H; inversion H; apply same_activity_alter; intros []; reflexivity
  | |- preserved same_activity (if ?b then _ else _) => destruct b
  | |- preserved same_activity (match ?x with _ => _ end) => destruct x
  | |- preserved same_activity _ =>
      apply (preserved_read_only same_activity same_activity_refl);
      solve [eauto with read_only_db]
  end.

Lemma same_activity_propagate fuel voter :
  preserved same_activity (propagate_weight_change fuel voter).
Proof.
  revert voter. induction fuel as [|fuel IH]; intros voter; simpl.
  - activity_step.
  - repeat first [apply IH | activity_step].
Qed.

Lemma same_activity_leave_old_proxy fuel old amount :
  preserved same_activity (leave_old_proxy fuel old amount).
Proof.
  unfold leave_old_proxy. repeat first [apply same_activity_propagate | activity_step].
Qed.

Lemma same_activity_apply_delta voting pd :
  preserved same_activity (apply_delta voting pd).
Proof. unfold apply_delta. repeat activity_step. Qed.

Lemma same_activity_checkNetworkActivation min now :
  preserved same_activity (checkNetworkActivation min now).
Proof. unfold checkNetworkActivation. repeat activity_step. Qed.

(** An entry of the new slate stays in the deltas, marked as new. *)
Lemma deltas_update_here q (f : R * bool -> R * bool) m :
  exists d0, (q, f d0) ∈ deltas_update q f m.
Proof.
  induction m as [|[k e] m IH]; cbn [deltas_update].
  - exists (0%R, false). now left.
  - destruct (q <? k)%N; [exists (0%R, false); now left|].
    destruct (q =? k)%N eqn:E.
    + apply N.eqb_eq in E as ->. exists e. now left.
    + destruct IH as [d0 IH]. exists d0. now right.
Qed.

Lemma deltas_update_keeps q (f : R * bool -> R * bool) m k e :
  k ≠ q -> (k, e) ∈ m -> (k, e) ∈ deltas_update q f m.
Proof.
  intros Hk. induction m as [|[k' e'] m IH]; intros Hin; cbn [deltas_update].
  - now apply elem_of_nil in Hin.
  - destruct (q <? k')%N; [now right|].
    destruct (q =? k')%N eqn:E.
    + apply N.eqb_eq in E as ->.
      apply elem_of_cons in Hin as [Heq|Hin]; [congruence | now right].
    + apply elem_of_cons in Hin as [Heq|Hin]; [rewrite Heq; now left|].
      right. now apply IH.
Qed.

Lemma new_slate_marked w l p :
  forall m0,
    p ∈ l \/ (exists d, (p, (d, true)) ∈ m0) ->
    exists d, (p, (d, true))
              ∈ fold_left (fun m q => deltas_update q (fun d => ((d.1 + w)%R, true)) m)
                  l m0.
Proof.
  induction l as [|q l IH]; intros m0 H; cbn [fold_left].
  - destruct H as [H|H]; [now apply elem_of_nil in H | exact H].
  - apply IH. destruct (decide (p = q)) as [->|Hne].
    + right. destruct (deltas_update_here q (fun d => ((d.1 + w)%R, true)) m0)
        as [d0 Hd]. now exists (d0.1 + w)%R.
    + destruct H as [H|[d H]].
      * apply elem_of_cons in H as [->|H]; [contradiction | now left].
      * right. exists d. now apply deltas_update_keeps.
Qed.

(** The loop over the deltas does not complete when an entry marked as new
    names a producer that is not registered or not active. *)
Lemma for_each_rejects_new m p d s :
  (p, (d, true)) ∈ m ->
  (is_active <$> _producers s !! p) ≠ Some true ->
  forall s', for_each m (apply_delta true) s ≠ Done tt s'.
Proof.
  revert s. induction m as [|pd m IH]; intros s Hin Hp s' Hrun.
  - now apply elem_of_nil in Hin.
  - cbn [for_each] in Hrun. apply bind_Done in Hrun as ([] & s1 & H1 & H2).
    apply elem_of_cons in Hin as [<-|Hin].
    + revert H1. unfold apply_delta. mrun. cbn [fst snd].
      destruct (_producers s !! p) as [row|] eqn:E; mrun; [|discriminate].
      rewrite E. mrun.
      destruct (is_active row) eqn:Ha; [|discriminate].
      intros _. apply Hp. cbn. now rewrite Ha.
    + eapply IH; [exact Hin | | exact H2].
      rewrite (same_activity_apply_delta true pd s tt s1 H1 p). exact Hp.
Qed.

Lemma read_only_check_sorted l : read_only (check_sorted l).
Proof.
  induction l as [|a [|b l] IH]; intros s x s' H; cbn [check_sorted] in H.
  - now inversion H.
  - now inversion H.
  - apply bind_Done in H as ([] & s1 & H1 & H2).
    apply read_only_assert in H1 as ->. exact (IH _ _ _ H2).
Qed.

Lemma voters_deref_Done it s v s' :
  voters_deref it s = Done v s' ->
  s' = s /\ exists k, it = Some k /\ _voters s !! k = Some v.
Proof.
  unfold voters_deref. destruct it as [k|]; [|discriminate].
  destruct (_voters s !! k) as [w|] eqn:E; [|discriminate].
  intros H. injection H as <- <-. split; [reflexivity|]. now exists k.
Qed.

Lemma voters_find_Done name s it s' :
  voters_find name s = Done it s' ->
  s' = s /\ (it = Some name \/ it = None).
Proof.
  unfold voters_find. intros H. injection H as <- <-. split; [reflexivity|].
  destruct (_voters s !! name); auto.
Qed.

(** On a producer table that is not empty and with a weight that is not
    negative, a vote whose slate names a producer that is not registered or
    not active does not complete.  (On the empty table the weight of the
    source is NaN, which fails the comparison that guards the check.) *)
Lemma update_votes_rejects_bad_slate min now fuel voter_name producers_arg s v p :
  _voters s !! voter_name = Some v ->
  size (_producers s) ≠ 0 ->
  p ∈ producers_arg ->
  (is_active <$> _producers s !! p) ≠ Some true ->
  (inverseVoteWeight s (staked v) (INR (length producers_arg)) VOTE_VARIATION >= 0)%R ->
  forall s', update_votes min now fuel voter_name 0 producers_arg true s ≠ Done tt s'.
Proof.
  intros Hv _ Hin Hp Hw s' Hrun. unfold update_votes in Hrun.
  change (is_set 0) with false in Hrun. cbv beta iota in Hrun. cbn [negb orb andb] in Hrun.
  apply bind_Done in Hrun as ([] & s1 & H1 & Hrun).
  assert (s1 = s) as ->.
  { apply bind_Done in H1 as ([] & s0 & Ha & Hb).
    apply read_only_assert in Ha as ->. exact (read_only_check_sorted _ _ _ _ Hb). }
  apply bind_Done in Hrun as (voter & s1 & H2 & Hrun).
  apply voters_find_Done in H2 as [-> Hvoter].
  apply bind_Done in Hrun as ([] & s1 & H3 & Hrun).
  apply read_only_assert in H3 as ->.
  apply bind_Done in Hrun as (v0 & s1 & H4 & Hrun).
  apply voters_deref_Done in H4 as [-> (k & Hk & Hv0)].
  assert (k = voter_name) as -> by (destruct Hvoter; congruence).
  rewrite Hv in Hv0. injection Hv0 as <-.
  apply bind_Done in Hrun as ([] & s1 & H5 & Hrun).
  apply read_only_assert in H5 as ->.
  apply bind_Done in Hrun as (totalStaked & s1 & H6 & Hrun).
  inversion H6. subst totalStaked s1. clear H6.
  apply bind_Done in Hrun as (w & s1 & H7 & Hrun).
  inversion H7. subst w s1. clear H7.
  apply bind_Done in Hrun as ([] & s1 & H8 & Hrun).
  assert (A1 : same_activity s s1).
  { revert H8. match goal with |- ?m s = _ -> _ =>
      assert (Hm : preserved same_activity m)
        by (repeat first [apply same_activity_checkNetworkActivation | activity_step]);
      apply Hm end. }
  apply bind_Done in Hrun as (deltas0 & s2 & H9 & Hrun).
  assert (A2 : same_activity s1 s2).
  { revert H9. match goal with |- ?m s1 = _ -> _ =>
      assert (Hm : preserved same_activity m)
        by (repeat first [apply same_activity_leave_old_proxy | activity_step]);
      apply Hm end. }
  apply bind_Done in Hrun as (deltas & s3 & H10 & Hrun).
  rewrite (bool_decide_eq_true_2 _ Hw) in H10.
  apply bind_Done in H10 as ([] & s2' & H11 & H12).
  assert (A3 : same_activity s2 s2').
  { revert H11. match goal with |- ?m s2 = _ -> _ =>
      assert (Hm : preserved same_activity m)
        by (repeat first [apply same_activity_leave_old_proxy | activity_step]);
      apply Hm end. }
  inversion H12. subst deltas s3. clear H12.
  apply bind_Done in Hrun as ([] & s4 & H13 & _).
  destruct (new_slate_marked
              (inverseVoteWeight s (staked v) (INR (length producers_arg)) VOTE_VARIATION)
              producers_arg p deltas0 (or_introl Hin)) as [d Hd].
  eapply for_each_rejects_new; [exact Hd | | exact H13].
  rewrite (A3 p), (A2 p), (A1 p). exact Hp.
Qed.

Lemma apply_action_not_done min fuel s ea :
  (forall s', run min fuel ea.1 ea.2 s ≠ Done tt s') ->
  apply_action min fuel s ea = s.
Proof.
  intros H. unfold apply_action, commit.
  destruct (run min fuel ea.1 ea.2 s) as [[] s'| | |] eqn:E; try reflexivity.
  now contradiction (H s').
Qed.

(** Such a vote, as a transaction, leaves the state as it was. *)
Lemma bad_slate_leaves_state min fuel e voter_name producers_arg s v p :
  _voters s !! voter_name = Some v ->
  size (_producers s) ≠ 0 ->
  p ∈ producers_arg ->
  (is_active <$> _producers s !! p) ≠ Some true ->
  (inverseVoteWeight s (staked v) (INR (length producers_arg)) VOTE_VARIATION >= 0)%R ->
  apply_action min fuel s (e, Voteproducer voter_name 0 producers_arg) = s.
Proof.
  intros Hv Hne Hin Hp Hw. apply apply_action_not_done. cbn [fst snd run].
  intros s' Hrun. unfold voteproducer in Hrun.
  apply bind_Done in Hrun as ([] & s1 & H1 & H2).
  apply read_only_assert in H1 as ->.
  now apply (update_votes_rejects_bad_slate min (env_time e) fuel voter_name
               producers_arg s v p Hv Hne Hin Hp Hw s').
Qed.


(** * Further properties of the contract *)

(** ** Registration of producers *)

Lemma size_alter {A} (f : A -> A) (k : N) (m : gmap N A) : size (alter f k m) = size m.
Proof.
  rewrite alter_alt. destruct (m !! k) as [x|] eqn:E; [|reflexivity].
  apply map_size_insert_Some. eauto.
Qed.

Lemma inverseVoteWeight_same_size s s' staked n variation :
  size (_producers s') = size (_producers s) ->
  inverseVoteWeight s' staked n variation = inverseVoteWeight s staked n variation.
Proof. intros H. unfold inverseVoteWeight. now rewrite H. Qed.

Lemma regproducer_run auth producer key url_arg location_arg s :
  String.length url_arg < 512 ->
  key ≠ default_public_key ->
  auth producer = true ->
  regproducer auth producer key url_arg location_arg s
  = Done tt
      (mk_state (_voters s)
         (match _producers s !! producer with
          | Some p =>
              <[producer := mk_producer (prod_owner p) (total_votes p) key true
                              url_arg location_arg]> (_producers s)
          | None =>
              <[producer := mk_producer producer 0 key true url_arg location_arg]>
                (_producers s)
          end)
         (_gstate s)).
Proof.
  intros Hurl Hkey Hauth. unfold regproducer, require_auth. rewrite Hauth. mexec.
  destruct (_producers s !! producer) as [p|] eqn:Hp; mrun.
  - now rewrite (alter_alt_Some _ _ _ _ Hp).
  - reflexivity.
Qed.

Lemma regproducer_Done auth producer key url_arg location_arg s s' :
  regproducer auth producer key url_arg location_arg s = Done tt s' ->
  String.length url_arg < 512 /\ key ≠ default_public_key /\ auth producer = true.
Proof.
  unfold regproducer, require_auth. mrun.
  destruct (bool_decide (String.length url_arg < 512)) eqn:E1; [|discriminate].
  destruct (bool_decide (key ≠ default_public_key)) eqn:E2; [|discriminate].
  destruct (auth producer); [|discriminate].
  intros _. apply bool_decide_eq_true_1 in E1. apply bool_decide_eq_true_1 in E2.
  auto.
Qed.

Lemma unregprod_run auth producer s p :
  auth producer = true ->
  _producers s !! producer = Some p ->
  unregprod auth producer s
  = Done tt (mk_state (_voters s) (<[producer := deactivate p]> (_producers s))
               (_gstate s)).
Proof.
  intros Hauth Hp. unfold unregprod, require_auth. rewrite Hauth. mrun.
  rewrite Hp. now rewrite (alter_alt_Some _ _ _ _ Hp).
Qed.

Lemma unregprod_Done auth producer s s' :
  unregprod auth producer s = Done tt s' ->
  auth producer = true /\ exists p, _producers s !! producer = Some p.
Proof.
  unfold unregprod, require_auth. mrun.
  destruct (auth producer); [|discriminate].
  destruct (_producers s !! producer) as [p|]; [|discriminate].
  intros _. eauto.
Qed.

(** X1: a registration that passes the three checks completes.  The row of
    the producer then carries the key, the url and the location given and is
    active; a producer that was registered before (active or not) keeps its
    [total_votes], a new one starts at zero.  No other producer row, no voter
    row and no field of the global state is written. *)
Theorem regproducer_keeps_votes auth producer key url_arg location_arg s :
  String.length url_arg < 512 ->
  key ≠ default_public_key ->
  auth producer = true ->
  exists s' p',
    regproducer auth producer key url_arg location_arg s = Done tt s'
    /\ _producers s' !! producer = Some p'
    /\ producer_key p' = key /\ is_active p' = true
    /\ url p' = url_arg /\ location p' = location_arg
    /\ total_votes p' = match _producers s !! producer with
                        | Some p => total_votes p
                        | None => 0%R
                        end
    /\ (forall k, k ≠ producer -> _producers s' !! k = _producers s !! k)
    /\ _voters s' = _voters s
    /\ _gstate s' = _gstate s.
Proof.
  intros Hurl Hkey Hauth.
  rewrite (regproducer_run auth producer key url_arg location_arg s) by assumption.
  destruct (_producers s !! producer) as [p|]; eexists; eexists;
    (split; [reflexivity|]); cbn [_producers _voters _gstate];
    rewrite lookup_insert_eq;
    (split; [reflexivity|]); repeat (split; [reflexivity|]);
    (split; [|split; reflexivity]);
    intros k Hk; now rewrite lookup_insert_ne.
Qed.

Lemma regproducer_keeps_votes_witness :
  exists s' p',
    regproducer always_auth 2 7 "" 0 two_producers_one_active = Done tt s'
    /\ _producers s' !! 2%N = Some p'
    /\ producer_key p' = 7%N /\ is_active p' = true
    /\ url p' = ""%string /\ location p' = 0%N
    /\ total_votes p' = match _producers two_producers_one_active !! 2%N with
                        | Some p => total_votes p
                        | None => 0%R
                        end
    /\ (forall k, k ≠ 2%N ->
          _producers s' !! k = _producers two_producers_one_active !! k)
    /\ _voters s' = _voters two_producers_one_active
    /\ _gstate s' = _gstate two_producers_one_active.
Proof.
  apply (regproducer_keeps_votes always_auth 2 7 "" 0 two_producers_one_active).
  - simpl. lia.
  - discriminate.
  - reflexivity.
Defined.

(** X2: registering twice with the same arguments is the same as registering
    once: the second call completes and leaves the state of the first. *)
Theorem regproducer_idempotent auth producer key url_arg location_arg s s' :
  regproducer auth producer key url_arg location_arg s = Done tt s' ->
  regproducer auth producer key url_arg location_arg s' = Done tt s'.
Proof.
  intros H. pose proof (regproducer_Done _ _ _ _ _ _ _ H) as (Hurl & Hkey & Hauth).
  rewrite (regproducer_run auth producer key url_arg location_arg s) in H by assumption.
  injection H as <-.
  rewrite regproducer_run by assumption. cbn [_voters _producers _gstate].
  destruct (_producers s !! producer) as [p|];
    rewrite lookup_insert_eq; cbn [prod_owner total_votes];
    now rewrite insert_insert_eq.
Qed.

Lemma regproducer_idempotent_witness :
  regproducer always_auth 1 1 "" 0 one_producer = Done tt one_producer.
Proof.
  apply (regproducer_idempotent always_auth 1 1 "" 0 one_producer one_producer).
  rewrite regproducer_run by (first [reflexivity | discriminate | simpl; lia]).
  unfold one_producer. cbn [_producers _voters _gstate].
  rewrite lookup_insert_eq, insert_insert_eq. reflexivity.
Defined.

(** X3: [unregprod] on a registered producer, with its authority, completes:
    the row stays in the table with its [total_votes], its url and its
    location, the key is reset to the default and the row is inactive.  The
    number of rows is unchanged, so every weight computed by
    [inverseVoteWeight] is the same before and after; nothing else is
    written. *)
Theorem unregprod_keeps_row auth producer s p :
  auth producer = true ->
  _producers s !! producer = Some p ->
  exists s' p',
    unregprod auth producer s = Done tt s'
    /\ _producers s' !! producer = Some p'
    /\ is_active p' = false /\ producer_key p' = default_public_key
    /\ total_votes p' = total_votes p /\ url p' = url p /\ location p' = location p
    /\ (forall k, k ≠ producer -> _producers s' !! k = _producers s !! k)
    /\ _voters s' = _voters s
    /\ _gstate s' = _gstate s
    /\ size (_producers s') = size (_producers s)
    /\ (forall staked n variation,
          inverseVoteWeight s' staked n variation
          = inverseVoteWeight s staked n variation).
Proof.
  intros Hauth Hp. rewrite (unregprod_run auth producer s p) by assumption.
  eexists. eexists. split; [reflexivity|]. cbn [_producers _voters _gstate].
  rewrite lookup_insert_eq. split; [reflexivity|].
  repeat (split; [reflexivity|]).
  assert (Hsz : size (<[producer := deactivate p]> (_producers s)) = size (_producers s))
    by (apply map_size_insert_Some; eauto).
  split; [intros k Hk; now rewrite lookup_insert_ne|].
  split; [reflexivity|]. split; [reflexivity|]. split; [exact Hsz|].
  intros staked n variation. now apply inverseVoteWeight_same_size.
Qed.

Lemma unregprod_keeps_row_witness :
  exists s' p',
    unregprod always_auth 1 one_producer = Done tt s'
    /\ _producers s' !! 1%N = Some p'
    /\ is_active p' = false /\ producer_key p' = default_public_key
    /\ total_votes p' = total_votes (prod_row 1 0 true)
    /\ url p' = url (prod_row 1 0 true)
    /\ location p' = location (prod_row 1 0 true)
    /\ (forall k, k ≠ 1%N -> _producers s' !! k = _producers one_producer !! k)
    /\ _voters s' = _voters one_producer
    /\ _gstate s' = _gstate one_producer
    /\ size (_producers s') = size (_producers one_producer)
    /\ (forall staked n variation,
          inverseVoteWeight s' staked n variation
          = inverseVoteWeight one_producer staked n variation).
Proof.
  apply (unregprod_keeps_row always_auth 1 one_producer (prod_row 1 0 true)).
  - reflexivity.
  - reflexivity.
Defined.

(** X4: [unregprod] has no check that the producer is still active: a second
    call completes as well and leaves the state of the first. *)
Theorem unregprod_idempotent auth producer s s' :
  unregprod auth producer s = Done tt s' ->
  unregprod auth producer s' = Done tt s'.
Proof.
  intros H. pose proof (unregprod_Done _ _ _ _ H) as (Hauth & p & Hp).
  rewrite (unregprod_run auth producer s p) in H by assumption. injection H as <-.
  rewrite (unregprod_run auth producer _ (deactivate p)); [|exact Hauth|].
  - cbn [_voters _producers _gstate]. now rewrite insert_insert_eq.
  - cbn [_producers]. apply lookup_insert_eq.
Qed.

Lemma unregprod_idempotent_witness :
  unregprod always_auth 1
    (mk_state ∅ (<[1%N := deactivate (prod_row 1 0 true)]> (_producers one_producer))
       gstate0)
  = Done tt
      (mk_state ∅ (<[1%N := deactivate (prod_row 1 0 true)]> (_producers one_producer))
         gstate0).
Proof.
  apply (unregprod_idempotent always_auth 1 one_producer).
  apply (unregprod_run always_auth 1 one_producer (prod_row 1 0 true)); reflexivity.
Defined.

(** X5: round trip.  An active producer that unregisters and then registers
    again with the key, the url and the location of its row is back in the
    state it started from: the votes it had are still there. *)
Theorem unregprod_regproducer_round_trip auth producer s p s1 :
  _producers s !! producer = Some p ->
  is_active p = true ->
  producer_key p ≠ default_public_key ->
  String.length (url p) < 512 ->
  unregprod auth producer s = Done tt s1 ->
  regproducer auth producer (producer_key p) (url p) (location p) s1 = Done tt s.
Proof.
  intros Hp Hact Hkey Hurl H.
  pose proof (unregprod_Done _ _ _ _ H) as (Hauth & _).
  rewrite (unregprod_run auth producer s p) in H by assumption. injection H as <-.
  rewrite regproducer_run by assumption. cbn [_voters _producers _gstate].
  rewrite lookup_insert_eq, insert_insert_eq.
  cbn [deactivate prod_owner total_votes].
  rewrite insert_id; [now destruct s|].
  rewrite Hp. f_equal. destruct p; cbn in *. now subst.
Qed.

Lemma unregprod_regproducer_round_trip_witness :
  regproducer always_auth 1 (producer_key (prod_row 1 0 true)) (url (prod_row 1 0 true))
    (location (prod_row 1 0 true))
    (mk_state ∅ (<[1%N := deactivate (prod_row 1 0 true)]> (_producers one_producer))
       gstate0)
  = Done tt one_producer.
Proof.
  apply (unregprod_regproducer_round_trip always_auth 1 one_producer (prod_row 1 0 true)).
  - reflexivity.
  - reflexivity.
  - discriminate.
  - simpl. lia.
  - apply (unregprod_run always_auth 1 one_producer (prod_row 1 0 true)); reflexivity.
Defined.

(** X6: once a producer has unregistered, a vote whose slate names it does
    not complete, whenever the weight of the vote is not negative: the loop
    over the deltas meets "producer is not currently registered". *)
Theorem unregistered_producer_refuses_votes
    min now auth fuel producer voter_name producers_arg s s1 v :
  unregprod auth producer s = Done tt s1 ->
  _voters s1 !! voter_name = Some v ->
  producer ∈ producers_arg ->
  (inverseVoteWeight s1 (staked v) (INR (length producers_arg)) VOTE_VARIATION >= 0)%R ->
  forall s', voteproducer min now auth fuel voter_name 0 producers_arg s1 ≠ Done tt s'.
Proof.
  intros H Hv Hin Hw s' Hrun.
  pose proof (unregprod_Done _ _ _ _ H) as (Hauth & p & Hp).
  rewrite (unregprod_run auth producer s p) in H by assumption. injection H as <-.
  unfold voteproducer in Hrun. apply bind_Done in Hrun as ([] & s0 & H1 & H2).
  apply read_only_assert in H1 as ->.
  eapply update_votes_rejects_bad_slate;
    [exact Hv | | exact Hin | | exact Hw | exact H2].
  - cbn [_producers]. apply (map_size_ne_0_lookup_2 _ producer).
    rewrite lookup_insert_eq. eauto.
  - cbn [_producers]. rewrite lookup_insert_eq. discriminate.
Qed.

Lemma unregistered_producer_refuses_votes_witness :
  ~ exists s',
      voteproducer 1000 5 always_auth 1 10 0 [1%N]
        (mk_state (_voters one_producer_one_voter)
           (<[1%N := deactivate (prod_row 1 0 true)]> (_producers one_producer_one_voter))
           (_gstate one_producer_one_voter))
      = Done tt s'.
Proof.
  intros [s' H]. revert H.
  apply (unregistered_producer_refuses_votes 1000 5 always_auth 1 1 10 [1%N]
           one_producer_one_voter _ (fresh_voter 10 100)).
  - apply (unregprod_run always_auth 1 one_producer_one_voter (prod_row 1 0 true));
      reflexivity.
  - reflexivity.
  - apply list_elem_of_singleton. reflexivity.
  - rewrite weight_one_of_one; [lra|]. reflexivity.
Defined.


(** ** The proposed schedule *)

Lemma collect_top_length (idx : list producer_info) : length (collect_top idx []) <= 21.
Proof.
  destruct (collect_top_prefix idx []) as (pre & rest & _ & _ & _ & ->).
  cbn [app length]. rewrite length_map, length_firstn. lia.
Qed.

(** X7: the collecting loop of [update_elected_producers] never collects more
    than 21 entries, and every entry it collects is the name, key and location
    of a row of the traversal that is active and has votes: a producer without
    votes or a deactivated one is never proposed. *)
Theorem collect_top_bounded_and_qualified (idx : list producer_info) :
  length (collect_top idx []) <= 21
  /\ forall e, e ∈ collect_top idx [] ->
       exists p, p ∈ idx /\ e = entry_of p
                 /\ (0 < total_votes p)%R /\ is_active p = true.
Proof.
  split; [apply collect_top_length|].
  destruct (collect_top_prefix idx []) as (pre & rest & -> & Hpre & _ & ->).
  cbn [app length]. intros e He.
  apply list_elem_of_fmap in He as (p & -> & Hp).
  assert (Hin : p ∈ pre).
  { rewrite <- (firstn_skipn 21 pre). apply elem_of_app. now left. }
  exists p. split; [apply elem_of_app; now left|]. split; [reflexivity|].
  rewrite Forall_forall in Hpre. specialize (Hpre p Hin).
  unfold qualifies in Hpre. apply andb_true_iff in Hpre as [H1 H2].
  apply bool_decide_eq_true_1 in H1. auto.
Qed.

Lemma entry_ltb_asym a b : entry_ltb a b = true -> entry_ltb b a = false.
Proof.
  unfold entry_ltb. intros H.
  apply orb_true_iff in H as [H|H].
  - apply N.ltb_lt in H. apply orb_false_iff. split.
    + apply N.ltb_ge. lia.
    + apply andb_false_iff. left. apply negb_false_iff. now apply N.ltb_lt.
  - apply andb_true_iff in H as [H1 H2].
    apply negb_true_iff, N.ltb_ge in H1. apply N.ltb_lt in H2.
    apply orb_false_iff. split.
    + apply N.ltb_ge. exact H1.
    + apply andb_false_iff. right. apply N.ltb_ge. lia.
Qed.

Lemma entry_insert_perm x l : Permutation (entry_insert x l) (x :: l).
Proof.
  induction l as [|y l IH]; cbn [entry_insert]; [reflexivity|].
  destruct (entry_ltb y x); [|reflexivity].
  rewrite IH. apply perm_swap.
Qed.

Lemma sort_entries_perm l : Permutation (sort_entries l) l.
Proof.
  induction l as [|x l IH]; [reflexivity|].
  unfold sort_entries in *. cbn [foldr]. rewrite entry_insert_perm. now constructor.
Qed.

Lemma entry_insert_sorted x l : Sorted entry_le l -> Sorted entry_le (entry_insert x l).
Proof.
  induction 1 as [|y l Hs IH Hhd]; cbn [entry_insert].
  - repeat constructor.
  - destruct (entry_ltb y x) eqn:E.
    + constructor; [exact IH|].
      destruct l as [|z l]; cbn [entry_insert].
      * constructor. now apply entry_ltb_asym.
      * destruct (entry_ltb z x).
        -- constructor. now inversion Hhd.
        -- constructor. now apply entry_ltb_asym.
    + constructor; [now constructor|]. constructor. exact E.
Qed.

Lemma sort_entries_sorted l : Sorted entry_le (sort_entries l).
Proof.
  induction l as [|x l IH]; [constructor|].
  unfold sort_entries in *. cbn [foldr]. now apply entry_insert_sorted.
Qed.

Lemma entry_le_name a b : entry_le a b -> (a.1.1 <= b.1.1)%N.
Proof.
  unfold entry_le, entry_ltb. intros H. apply orb_false_iff in H as [H _].
  now apply N.ltb_ge in H.
Qed.

Lemma sorted_names (l : list schedule_entry) :
  Sorted entry_le l -> Sorted N.le (map (fun e => e.1.1) l).
Proof.
  induction 1 as [|y l Hs IH Hhd]; cbn [map]; constructor; [exact IH|].
  destruct Hhd as [|z l Hz]; cbn [map]; constructor. now apply entry_le_name.
Qed.

(** X8: the schedule that [update_elected_producers] proposes holds the
    producers the loop collected, each once, in the order of [std::sort]:
    it is a rearrangement of the collected names and keys, and the producer
    names are in increasing order. *)
Theorem proposed_schedule_sorted_by_name (idx : list producer_info) :
  Permutation (proposed_schedule idx) (map fst (collect_top idx []))
  /\ StronglySorted N.le (map fst (proposed_schedule idx))
  /\ length (proposed_schedule idx) <= 21.
Proof.
  unfold proposed_schedule. split; [|split].
  - apply Permutation_map, sort_entries_perm.
  - apply Sorted_StronglySorted; [intros x y z; apply N.le_trans|].
    rewrite map_map. apply sorted_names, sort_entries_sorted.
  - rewrite length_map, sort_entries_length. apply collect_top_length.
Qed.

Lemma same_schedule_size_refl s : same_schedule_size s s.
Proof. reflexivity. Qed.

Lemma same_schedule_size_trans s1 s2 s3 :
  same_schedule_size s1 s2 -> same_schedule_size s2 s3 -> same_schedule_size s1 s3.
Proof. unfold same_schedule_size. intros H12 H23. now rewrite H23. Qed.

Lemma same_schedule_size_of_gstate s s' :
  _gstate s' = _gstate s -> same_schedule_size s s'.
Proof. unfold same_schedule_size. now intros ->. Qed.

Ltac schedule_step :=
  frame_step same_schedule_size same_schedule_size_refl same_schedule_size_trans
    same_schedule_size_of_gstate.

Lemma same_schedule_size_propagate fuel voter :
  preserved same_schedule_size (propagate_weight_change fuel voter).
Proof.
  revert voter. induction fuel as [|fuel IH]; intros voter; simpl.
  - schedule_step.
  - repeat first [apply IH | schedule_step].
Qed.

Lemma same_schedule_size_check_sorted l : preserved same_schedule_size (check_sorted l).
Proof.
  apply (preserved_read_only _ same_schedule_size_refl), read_only_check_sorted.
Qed.

Lemma same_schedule_size_update_votes min now fuel voter_name proxy_arg producers_arg
    voting :
  preserved same_schedule_size
    (update_votes min now fuel voter_name proxy_arg producers_arg voting).
Proof.
  unfold update_votes, leave_old_proxy, apply_delta, checkNetworkActivation.
  repeat first
    [ apply same_schedule_size_propagate
    | apply same_schedule_size_check_sorted
    | schedule_step ].
Qed.

Lemma schedule_size_after_update accept idx block_time s a s' :
  update_elected_producers accept idx block_time s = Done a s' ->
  last_producer_schedule_size (_gstate s')
  = (if publishes accept idx (_gstate s)
     then N.of_nat (length (collect_top idx []))
     else last_producer_schedule_size (_gstate s)).
Proof.
  unfold update_elected_producers, publishes, proposed_schedule. mrun.
  cbn [last_producer_schedule_size set_last_producer_schedule_update].
  destruct (bool_decide (_ < _)%N); cbn [negb andb].
  - intros H. now inversion H.
  - destruct (bool_decide (_ >= _)%Z); intros H; inversion H; cbn.
    + now rewrite sort_entries_length.
    + reflexivity.
Qed.

Lemma schedule_size_run min fuel e a s x s' :
  run min fuel e a s = Done x s' ->
  (last_producer_schedule_size (_gstate s)
   <= last_producer_schedule_size (_gstate s'))%N
  /\ ((last_producer_schedule_size (_gstate s) <= 21)%N ->
      (last_producer_schedule_size (_gstate s') <= 21)%N).
Proof.
  intros H.
  assert (Hsame : same_schedule_size s s' ->
            (last_producer_schedule_size (_gstate s)
             <= last_producer_schedule_size (_gstate s'))%N
            /\ ((last_producer_schedule_size (_gstate s) <= 21)%N ->
                (last_producer_schedule_size (_gstate s') <= 21)%N)).
  { unfold same_schedule_size. intros ->. split; [reflexivity | auto]. }
  destruct a; cbn [run] in H.
  - apply Hsame. revert H. unfold regproducer, require_auth.
    match goal with |- ?m s = _ -> _ =>
      assert (Hm : preserved same_schedule_size m) by (repeat schedule_step);
      apply Hm end.
  - apply Hsame. revert H. unfold unregprod, require_auth.
    match goal with |- ?m s = _ -> _ =>
      assert (Hm : preserved same_schedule_size m) by (repeat schedule_step);
      apply Hm end.
  - apply Hsame. revert H. unfold voteproducer, require_auth.
    match goal with |- ?m s = _ -> _ =>
      assert (Hm : preserved same_schedule_size m)
        by (repeat first [apply same_schedule_size_update_votes | schedule_step]);
      apply Hm end.
  - apply Hsame. revert H. unfold regproxy, require_auth.
    match goal with |- ?m s = _ -> _ =>
      assert (Hm : preserved same_schedule_size m) by (repeat schedule_step);
      apply Hm end.
  - apply Hsame. eapply same_schedule_size_update_votes, H.
  - apply schedule_size_after_update in H. rewrite H.
    pose proof (collect_top_length idx) as Hlen.
    unfold publishes. destruct (bool_decide (_ < _)%N) eqn:E; cbn [negb andb].
    + split; [reflexivity | auto].
    + apply bool_decide_eq_false_1 in E.
      destruct (bool_decide (_ >= _)%Z); split; try reflexivity; try auto; lia.
  - apply Hsame. revert H. unfold checkNetworkActivation.
    match goal with |- ?m s = _ -> _ =>
      assert (Hm : preserved same_schedule_size m) by (repeat schedule_step);
      apply Hm end.
  - apply Hsame. eapply same_schedule_size_propagate, H.
Qed.

(** X9: over any sequence of transactions made of the functions of the
    contract, [last_producer_schedule_size] never decreases (a proposal with
    fewer producers than the last published one is dropped), and when it is at
    most 21 it stays at most 21. *)
Theorem schedule_size_never_shrinks min fuel (l : list (env * action)) s :
  (last_producer_schedule_size (_gstate s)
   <= last_producer_schedule_size (_gstate (apply_all min fuel l s)))%N
  /\ ((last_producer_schedule_size (_gstate s) <= 21)%N ->
      (last_producer_schedule_size (_gstate (apply_all min fuel l s)) <= 21)%N).
Proof.
  revert s. induction l as [|ea l IH]; intros s.
  - split; [reflexivity | auto].
  - unfold apply_all in *. cbn [fold_left].
    assert (Hstep :
      (last_producer_schedule_size (_gstate s)
       <= last_producer_schedule_size (_gstate (apply_action min fuel s ea)))%N
      /\ ((last_producer_schedule_size (_gstate s) <= 21)%N ->
          (last_producer_schedule_size (_gstate (apply_action min fuel s ea)) <= 21)%N)).
    { unfold apply_action, commit.
      destruct (run min fuel ea.1 ea.2 s) as [x s'| | |] eqn:E;
        try (split; [reflexivity | auto]).
      eapply schedule_size_run, E. }
    destruct Hstep as [H1 H2]. destruct (IH (apply_action min fuel s ea)) as [I1 I2].
    split; [etransitivity; eassumption | auto].
Qed.


(** ** The range of the weight curve *)

(** X10: for a stake that is not negative and a slate of at least one and at
    most as many producers as are registered (capped at 30), the weight lies
    between [VOTE_VARIATION] times the stake and the stake itself. *)
Theorem inverseVoteWeight_between_variation_and_stake s staked (n : nat) :
  (0 <= staked)%Z ->
  (1 <= n)%nat -> (n <= Nat.min (size (_producers s)) 30)%nat ->
  (VOTE_VARIATION * IZR staked
   <= inverseVoteWeight s staked (INR n) VOTE_VARIATION
   <= IZR staked)%R.
Proof.
  intros Hs H1 Hn.
  rewrite inverseVoteWeight_eq by (apply not_0_INR; lia).
  rewrite Rmin_INR_30.
  set (T := Nat.min _ _) in *.
  assert (HT : (0 < INR T)%R) by (apply lt_0_INR; lia).
  assert (Hn' : (INR n <= INR T)%R) by (apply le_INR; lia).
  assert (H0 : (0 <= INR n)%R) by apply pos_INR.
  assert (Hf : (0 <= INR n / INR T <= 1)%R).
  { split.
    - apply Rmult_le_pos; [lra|]. left. now apply Rinv_0_lt_compat.
    - apply (Rmult_le_reg_r (INR T)); [lra|]. field_simplify; lra. }
  pose proof PI_RGT_0 as Hpi.
  assert (Hsin : (0 <= sin (PI / 2 * (INR n / INR T)))%R) by (apply sin_ge_0; nra).
  pose proof (SIN_bound (PI / 2 * (INR n / INR T))) as [_ Hsin1].
  pose proof (IZR_le _ _ Hs) as Hst. unfold VOTE_VARIATION. simpl in Hst. nra.
Qed.

Lemma inverseVoteWeight_between_variation_and_stake_witness :
  (VOTE_VARIATION * IZR 7
   <= inverseVoteWeight two_producers_one_active 7 (INR 1) VOTE_VARIATION
   <= IZR 7)%R.
Proof.
  apply (inverseVoteWeight_between_variation_and_stake two_producers_one_active 7 1).
  - lia.
  - lia.
  - vm_compute. lia.
Defined.

(** X11: the comment of [inverseVoteWeight], "the maximum weight will be
    reached if a producer votes for the maximum producers registered": with a
    stake that is not negative, a variation between 0 and 1 and a producer
    table that is not empty, a slate of as many producers as are registered
    (capped at 30) weighs exactly the stake, and no slate of any size weighs
    more. *)
Theorem inverseVoteWeight_full_slate_is_max s staked variation :
  (0 <= staked)%Z ->
  (0 <= variation <= 1)%R ->
  (0 < size (_producers s))%nat ->
  inverseVoteWeight s staked (INR (Nat.min (size (_producers s)) 30)) variation
  = IZR staked
  /\ forall n, (inverseVoteWeight s staked n variation <= IZR staked)%R.
Proof.
  intros Hs Hv Hpos. split; [now apply inverseVoteWeight_full_slate|].
  intros n. pose proof (IZR_le _ _ Hs) as Hst. simpl in Hst.
  destruct (decide (n = 0%R)) as [->|Hn].
  - rewrite inverseVoteWeight_zero. exact Hst.
  - rewrite inverseVoteWeight_eq by exact Hn.
    match goal with |- context [sin ?x] =>
      pose proof (SIN_bound x) as [Hlo Hhi]; set (sx := sin x) in * end.
    assert (H1 : ((1 - variation) * sx + variation <= 1)%R) by nra.
    rewrite <- (Rmult_1_l (IZR staked)) at 2.
    apply Rmult_le_compat_r; assumption.
Qed.

Lemma inverseVoteWeight_full_slate_is_max_witness :
  inverseVoteWeight two_producers_one_active 7
    (INR (Nat.min (size (_producers two_producers_one_active)) 30)) VOTE_VARIATION
  = IZR 7
  /\ forall n,
       (inverseVoteWeight two_producers_one_active 7 n VOTE_VARIATION <= IZR 7)%R.
Proof.
  apply (inverseVoteWeight_full_slate_is_max two_producers_one_active 7 VOTE_VARIATION).
  - lia.
  - unfold VOTE_VARIATION. lra.
  - vm_compute. lia.
Defined.

(** X12: the quotient of the slate size by the number of registered
    producers is not capped at 1: a slate three times as large as the
    producer table (capped at 30) gets the sine of 3 pi / 2, so for a positive
    stake the weight is negative, [(2 * variation - 1)] times the stake. *)
Theorem inverseVoteWeight_negative_at_triple s staked variation :
  (0 < size (_producers s))%nat ->
  inverseVoteWeight s staked (INR (3 * Nat.min (size (_producers s)) 30)) variation
  = ((2 * variation - 1) * IZR staked)%R.
Proof.
  intros Hpos.
  assert (Hn : INR (Nat.min (size (_producers s)) 30) ≠ 0%R)
    by (apply not_0_INR; lia).
  rewrite inverseVoteWeight_eq by (apply not_0_INR; lia).
  rewrite Rmin_INR_30, mult_INR.
  replace (PI / 2 * (INR 3 * INR (Nat.min (size (_producers s)) 30)
                     / INR (Nat.min (size (_producers s)) 30)))%R
    with (3 * (PI / 2))%R by (simpl INR; field; exact Hn).
  rewrite sin_3PI2. ring.
Qed.

Lemma inverseVoteWeight_negative_at_triple_witness :
  inverseVoteWeight one_producer 100
    (INR (3 * Nat.min (size (_producers one_producer)) 30)) VOTE_VARIATION
  = ((2 * VOTE_VARIATION - 1) * IZR 100)%R.
Proof.
  apply (inverseVoteWeight_negative_at_triple one_producer 100 VOTE_VARIATION).
  vm_compute. lia.
Defined.


(** ** The checks of a vote *)

Lemma check_sorted_unfold a b l :
  check_sorted (a :: b :: l)
  = (eosio_assert (a <? b)%N "producer votes must be unique and sorted" ;;
     check_sorted (b :: l)).
Proof. reflexivity. Qed.

Lemma check_sorted_cases (l : list N) (s : state) :
  (check_sorted l s = Done tt s /\ Sorted N.lt l)
  \/ (check_sorted l s = Abort "producer votes must be unique and sorted"
      /\ ~ Sorted N.lt l).
Proof.
  induction l as [|a [|b l] IH].
  - left. split; [reflexivity | constructor].
  - left. split; [reflexivity | repeat constructor].
  - rewrite check_sorted_unfold. mrun. destruct (a <? b)%N eqn:E.
    + apply N.ltb_lt in E. destruct IH as [[-> Hs]|[-> Hn]].
      * left. split; [reflexivity|]. constructor; [exact Hs | now constructor].
      * right. split; [reflexivity|]. intros H. apply Hn. now inversion H.
    + apply N.ltb_ge in E. right. split; [reflexivity|].
      intros H. inversion H as [|? ? _ Hhd]. inversion Hhd. lia.
Qed.

Lemma Sorted_lt_strongly (l : list N) : Sorted N.lt l <-> StronglySorted N.lt l.
Proof.
  split.
  - apply Sorted_StronglySorted. intros x y z. apply N.lt_trans.
  - apply StronglySorted_Sorted.
Qed.

(** X13: the loop over [producers[i-1] < producers[i]] accepts exactly the
    slates whose names are in strictly increasing order, so an accepted slate
    names no producer twice; every other slate fails with "producer votes
    must be unique and sorted".  The loop writes nothing. *)
Theorem check_sorted_accepts_strictly_increasing (l : list N) (s : state) :
  (check_sorted l s = Done tt s /\ StronglySorted N.lt l /\ NoDup l)
  \/ (check_sorted l s = Abort "producer votes must be unique and sorted"
      /\ ~ StronglySorted N.lt l).
Proof.
  destruct (check_sorted_cases l s) as [[H Hs]|[H Hn]].
  - apply Sorted_lt_strongly in Hs. left. split; [exact H|]. split; [exact Hs|].
    now apply sorted_keys_NoDup.
  - right. split; [exact H|]. intros Hs. apply Hn. now apply Sorted_lt_strongly.
Qed.


Lemma is_set_true a : a ≠ 0%N -> is_set a = true.
Proof. intros H. unfold is_set. now apply negb_true_iff, N.eqb_neq. Qed.

Lemma is_set_true_inv a : is_set a = true -> a ≠ 0%N.
Proof. unfold is_set. intros H. now apply negb_true_iff, N.eqb_neq in H. Qed.

(** X14: the checks on the arguments of [update_votes] come before the
    voter's row is looked up, so they fail in this way on every state, also
    for an account that never staked: a proxy together with a slate; a voter
    that names itself as proxy; a slate of more than 30 names; a slate that is
    not in strictly increasing order. *)
Theorem update_votes_rejects_malformed_input
    min now fuel voter_name proxy_arg producers_arg voting s :
  (proxy_arg ≠ 0%N -> producers_arg ≠ [] ->
   update_votes min now fuel voter_name proxy_arg producers_arg voting s
   = Abort "cannot vote for producers and proxy at same time")
  /\ (proxy_arg ≠ 0%N -> producers_arg = [] -> voter_name = proxy_arg ->
      update_votes min now fuel voter_name proxy_arg producers_arg voting s
      = Abort "cannot proxy to self")
  /\ (proxy_arg = 0%N -> 30 < length producers_arg ->
      update_votes min now fuel voter_name proxy_arg producers_arg voting s
      = Abort "attempt to vote for too many producers")
  /\ (proxy_arg = 0%N -> length producers_arg <= 30 ->
      ~ StronglySorted N.lt producers_arg ->
      update_votes min now fuel voter_name proxy_arg producers_arg voting s
      = Abort "producer votes must be unique and sorted").
Proof.
  unfold update_votes. repeat split.
  - intros Hp Hl. rewrite (is_set_true _ Hp). mrun.
    rewrite bool_decide_eq_false_2; [reflexivity|].
    destruct producers_arg; [contradiction | discriminate].
  - intros Hp -> Hv. rewrite (is_set_true _ Hp). mexec. reflexivity.
  - intros -> Hl. change (is_set 0) with false. mexec. reflexivity.
  - intros -> Hl Hn. change (is_set 0) with false. mexec.
    destruct (check_sorted_cases producers_arg s) as [[_ Hs]|[-> _]]; [|reflexivity].
    contradiction Hn. now apply Sorted_lt_strongly.
Qed.

Lemma update_votes_rejects_malformed_input_witness :
  update_votes 1000 5 1 10 20 [1%N] true one_producer
  = Abort "cannot vote for producers and proxy at same time"
  /\ update_votes 1000 5 1 10 10 [] true one_producer = Abort "cannot proxy to self"
  /\ update_votes 1000 5 1 10 0 [2; 1]%N true one_producer
     = Abort "producer votes must be unique and sorted".
Proof.
  split; [|split].
  - apply (proj1 (update_votes_rejects_malformed_input 1000 5 1 10 20 [1%N] true
                    one_producer)); discriminate.
  - apply (proj1 (proj2 (update_votes_rejects_malformed_input 1000 5 1 10 10 [] true
                           one_producer))); first [discriminate | reflexivity].
  - apply (proj2 (proj2 (proj2 (update_votes_rejects_malformed_input 1000 5 1 10 0
                                  [2; 1]%N true one_producer)))).
    + reflexivity.
    + simpl. lia.
    + intros H. inversion H as [|? ? _ Hall]. inversion Hall. lia.
Defined.

Lemma valid_input_run voter_name proxy_arg producers_arg s :
  valid_vote_input voter_name proxy_arg producers_arg ->
  (if is_set proxy_arg then
     eosio_assert (bool_decide (length producers_arg = 0))
       "cannot vote for producers and proxy at same time" ;;
     eosio_assert (bool_decide (voter_name ≠ proxy_arg)) "cannot proxy to self"
   else
     eosio_assert (bool_decide (length producers_arg <= 30))
       "attempt to vote for too many producers" ;;
     check_sorted producers_arg) s = Done tt s.
Proof.
  unfold valid_vote_input. destruct (is_set proxy_arg).
  - intros [-> Hne]. mexec. reflexivity.
  - intros [Hlen Hs]. mexec.
    destruct (check_sorted_cases producers_arg s) as [[-> _]|[_ Hn]]; [reflexivity|].
    contradiction Hn. now apply Sorted_lt_strongly.
Qed.

Lemma valid_input_Done voter_name proxy_arg producers_arg s a s' :
  (if is_set proxy_arg then
     eosio_assert (bool_decide (length producers_arg = 0))
       "cannot vote for producers and proxy at same time" ;;
     eosio_assert (bool_decide (voter_name ≠ proxy_arg)) "cannot proxy to self"
   else
     eosio_assert (bool_decide (length producers_arg <= 30))
       "attempt to vote for too many producers" ;;
     check_sorted producers_arg) s = Done a s' ->
  s' = s /\ valid_vote_input voter_name proxy_arg producers_arg.
Proof.
  unfold valid_vote_input. destruct (is_set proxy_arg); intros H0;
    apply bind_Done in H0 as ([] & s1 & H1 & H2);
    apply eosio_assert_Done in H1 as [-> H1]; apply bool_decide_eq_true_1 in H1.
  - apply eosio_assert_Done in H2 as [-> H2]. apply bool_decide_eq_true_1 in H2.
    split; [reflexivity|]. split; [|exact H2].
    destruct producers_arg; [reflexivity | discriminate].
  - destruct (check_sorted_cases producers_arg s) as [[E Hs]|[E _]];
      rewrite E in H2; [|discriminate].
    injection H2 as _ <-. split; [reflexivity|]. split; [exact H1|].
    now apply Sorted_lt_strongly.
Qed.

(** X15: with arguments that pass the input checks, [update_votes] fails
    with "user must stake before they can vote" when the voter has no row, and
    with "account registered as a proxy is not allowed to use a proxy" when
    the voter names a proxy and is itself registered as one. *)
Theorem update_votes_checks_voter_row
    min now fuel voter_name proxy_arg producers_arg voting s :
  valid_vote_input voter_name proxy_arg producers_arg ->
  (_voters s !! voter_name = None ->
   update_votes min now fuel voter_name proxy_arg producers_arg voting s
   = Abort "user must stake before they can vote")
  /\ (forall v, _voters s !! voter_name = Some v ->
        proxy_arg ≠ 0%N -> is_proxy v = true ->
        update_votes min now fuel voter_name proxy_arg producers_arg voting s
        = Abort "account registered as a proxy is not allowed to use a proxy").
Proof.
  intros Hvalid. pose proof (valid_input_run _ _ _ s Hvalid) as Hrun.
  unfold update_votes. split.
  - intros Hv. unfold mbind at 1, M_bind at 1, bind at 1. rewrite Hrun.
    mrun. rewrite Hv. mexec. reflexivity.
  - intros v Hv Hp Hi. unfold mbind at 1, M_bind at 1, bind at 1. rewrite Hrun.
    mrun. rewrite Hv. mexec. rewrite Hv. rewrite (is_set_true _ Hp), Hi. mexec.
    reflexivity.
Qed.

Lemma update_votes_checks_voter_row_witness :
  update_votes 1000 5 1 11 0 [1%N] true one_producer_one_voter
  = Abort "user must stake before they can vote".
Proof.
  refine (proj1 (update_votes_checks_voter_row 1000 5 1 11 0 [1%N] true
                   one_producer_one_voter _) _).
  - split; [simpl; lia | repeat constructor].
  - reflexivity.
Defined.




(** ** What the propagation and a vote leave untouched *)

Lemma only_weights_refl s : only_weights s s.
Proof. split; intros k; reflexivity. Qed.

Lemma only_weights_trans s1 s2 s3 :
  only_weights s1 s2 -> only_weights s2 s3 -> only_weights s1 s3.
Proof.
  intros [H1 H2] [H3 H4]. split; intros k.
  - now rewrite H3.
  - now rewrite H4.
Qed.

Lemma only_weights_voters k f s :
  (forall v, voter_static (f v) = voter_static v) ->
  only_weights s (mk_state (alter f k (_voters s)) (_producers s) (_gstate s)).
Proof.
  intros Hf. split; intros j; cbn [_voters _producers]; [|reflexivity].
  rewrite lookup_alter. destruct (decide (k = j)) as [->|]; [|reflexivity].
  destruct (_voters s !! j); cbn; [now rewrite Hf | reflexivity].
Qed.

Lemma only_weights_producers k f s :
  (forall p, producer_static (f p) = producer_static p) ->
  only_weights s (mk_state (_voters s) (alter f k (_producers s)) (_gstate s)).
Proof.
  intros Hf. split; intros j; cbn [_voters _producers]; [reflexivity|].
  rewrite lookup_alter. destruct (decide (k = j)) as [->|]; [|reflexivity].
  destruct (_producers s !! j); cbn; [now rewrite Hf | reflexivity].
Qed.

Ltac weights_step :=
  lazymatch goal with
  | |- preserved only_weights (mbind _ _) =>
      apply (preserved_bind only_weights only_weights_trans); [ | intros ? ]
  | |- preserved only_weights (mret _) =>
      apply (preserved_ret only_weights only_weights_refl)
  | |- preserved only_weights (for_each _ _) =>
      apply (preserved_for_each only_weights only_weights_refl only_weights_trans);
      intros ?
  | |- preserved only_weights (modify_gstate _) =>
      intros ? ? ? H; inversion H; split; intros ?; reflexivity
  | |- preserved only_weights (voters_modify _ _) =>
      intros ? ? ? H; inversion H; apply only_weights_voters; intros []; reflexivity
  | |- preserved only_weights (producers_modify _ _) =>
      intros ? ? ? H; inversion H; apply only_weights_producers; intros []; reflexivity
  | |- preserved only_weights (if ?b then _ else _) => destruct b
  | |- preserved only_weights (match ?x with _ => _ end) => destruct x
  | |- preserved only_weights _ =>
      apply (preserved_read_only only_weights only_weights_refl);
      solve [eauto with read_only_db]
  end.

Lemma only_weights_propagate fuel voter :
  preserved only_weights (propagate_weight_change fuel voter).
Proof.
  revert voter. induction fuel as [|fuel IH]; intros voter; simpl.
  - weights_step.
  - repeat first [apply IH | weights_step].
Qed.

Lemma only_weights_leave_old_proxy fuel old amount :
  preserved only_weights (leave_old_proxy fuel old amount).
Proof.
  unfold leave_old_proxy. repeat first [apply only_weights_propagate | weights_step].
Qed.

Lemma only_weights_apply_delta voting pd : preserved only_weights (apply_delta voting pd).
Proof. unfold apply_delta. repeat weights_step. Qed.

Lemma only_weights_checkNetworkActivation min now :
  preserved only_weights (checkNetworkActivation min now).
Proof. unfold checkNetworkActivation. repeat weights_step. Qed.

Lemma same_gstate_refl s : same_gstate s s.
Proof. reflexivity. Qed.

Lemma same_gstate_trans s1 s2 s3 :
  same_gstate s1 s2 -> same_gstate s2 s3 -> same_gstate s1 s3.
Proof. unfold same_gstate. intros H12 H23. now rewrite H23. Qed.

Lemma same_gstate_of_gstate s s' : _gstate s' = _gstate s -> same_gstate s s'.
Proof. auto. Qed.

Ltac gstate_step :=
  frame_step same_gstate same_gstate_refl same_gstate_trans same_gstate_of_gstate.

Lemma same_gstate_propagate fuel voter :
  preserved same_gstate (propagate_weight_change fuel voter).
Proof.
  revert voter. induction fuel as [|fuel IH]; intros voter; simpl.
  - gstate_step.
  - repeat first [apply IH | gstate_step].
Qed.

(** X17: [propagate_weight_change] writes weights and nothing else.  After a
    completed call, at any depth of the recursion, both tables have the rows
    they had; every voter row has its owner, proxy, slate, stake and proxy
    flag, every producer row its owner, key, activity, url and location; and
    the global state is the same, so the [total_producer_vote_weight] is not
    adjusted for the totals the call overwrites. *)
Theorem propagate_writes_weights_only fuel voter s s' :
  propagate_weight_change fuel voter s = Done tt s' ->
  (forall k, (voter_static <$> _voters s' !! k) = (voter_static <$> _voters s !! k))
  /\ (forall k, (producer_static <$> _producers s' !! k)
                = (producer_static <$> _producers s !! k))
  /\ _gstate s' = _gstate s.
Proof.
  intros H. destruct (only_weights_propagate fuel voter s tt s' H) as [H1 H2].
  split; [exact H1|]. split; [exact H2|].
  exact (same_gstate_propagate fuel voter s tt s' H).
Qed.

Lemma propagate_writes_weights_only_witness :
  exists s',
    propagate_weight_change 1 10 (switch_state 7) = Done tt s'
    /\ (forall k, (voter_static <$> _voters s' !! k)
                  = (voter_static <$> _voters (switch_state 7) !! k))
    /\ (forall k, (producer_static <$> _producers s' !! k)
                  = (producer_static <$> _producers (switch_state 7) !! k))
    /\ _gstate s' = _gstate (switch_state 7).
Proof.
  destruct (propagate_proxy_row 0 10 (switch_state 7) (direct_voter 10 5 5 [1%N]))
    as [w Hw].
  - reflexivity.
  - reflexivity.
  - repeat constructor. now exists (prod_row 1 7 true).
  - eexists. split; [exact Hw|].
    apply (propagate_writes_weights_only _ _ _ _ Hw).
Defined.

(** Takes a completed run [Hrun] of [update_votes] from the state [s] apart:
    the checks that passed ([Hvalid], [Hv], [Hnp], [Hts]), then the runs of
    the activation block ([Hact], to [s1]), of the block of the old vote
    ([Hold], to [s2]), of the block of the new vote ([Hnew], to [s3]) and of
    the loop over the deltas ([Hloop], to [s4]), and the last write. *)
Ltac peel_update_votes Hrun s voter_name proxy_arg :=
  unfold update_votes in Hrun;
  apply bind_Done in Hrun as ([] & s1 & Hvalid & Hrun);
  apply valid_input_Done in Hvalid as [-> Hvalid];
  apply bind_Done in Hrun as (voter & s1 & Hvoter & Hrun);
  apply voters_find_Done in Hvoter as [-> Hvoter];
  apply bind_Done in Hrun as ([] & s1 & Hstaked & Hrun);
  apply read_only_assert in Hstaked as ->;
  apply bind_Done in Hrun as (v & s1 & Hv & Hrun);
  apply voters_deref_Done in Hv as [-> (k & Hk & Hv)];
  (assert (k = voter_name) as -> by (destruct Hvoter; congruence));
  apply bind_Done in Hrun as ([] & s1 & Hnp & Hrun);
  apply eosio_assert_Done in Hnp as [-> Hnp];
  apply bind_Done in Hrun as (totalStaked & s1 & Hts & Hrun);
  (assert (s1 = s /\ (is_set proxy_arg = false -> totalStaked = staked v)) as [-> Hts']
    by (destruct (is_set proxy_arg);
        [ apply bind_Done in Hts as (pxy & s0 & Ha & Hb);
          apply read_only_voters_find in Ha as ->;
          apply bind_Done in Hb as (px & s0 & Hb & Hc);
          apply read_only_voters_deref in Hb as ->;
          inversion Hc; split; [reflexivity | discriminate]
        | inversion Hts; split; reflexivity ]));
  apply bind_Done in Hrun as (w & s1 & Hw & Hrun);
  inversion Hw; subst w s1; clear Hw;
  apply bind_Done in Hrun as ([] & s1 & Hact & Hrun);
  apply bind_Done in Hrun as (deltas0 & s2 & Hold & Hrun);
  apply bind_Done in Hrun as (deltas & s3 & Hnew & Hrun);
  apply bind_Done in Hrun as ([] & s4 & Hloop & Hrun);
  inversion Hrun; clear Hrun.

(** The run of [update_votes], taken apart: the checks it passed, the weight
    it stored, and the state before the last write, which differs from the
    first in weights and in the global state only. *)
Lemma update_votes_Done min now fuel voter_name proxy_arg producers_arg voting s s' :
  update_votes min now fuel voter_name proxy_arg producers_arg voting s = Done tt s' ->
  exists v s1 w,
    _voters s !! voter_name = Some v
    /\ valid_vote_input voter_name proxy_arg producers_arg
    /\ (is_set proxy_arg = true -> is_proxy v = false)
    /\ w = (if is_set proxy_arg then 0%R else vote_weight s v producers_arg)
    /\ only_weights s s1
    /\ s' = mk_state (alter (set_vote w producers_arg proxy_arg) voter_name (_voters s1))
              (_producers s1) (_gstate s1).
Proof.
  intros Hrun. peel_update_votes Hrun s voter_name proxy_arg.
  assert (A1 : only_weights s s1).
  { revert Hact. match goal with |- ?m s = _ -> _ =>
      assert (Hm : preserved only_weights m)
        by (repeat first [apply only_weights_checkNetworkActivation | weights_step]);
      apply Hm end. }
  assert (A2 : only_weights s1 s2).
  { revert Hold. match goal with |- ?m s1 = _ -> _ =>
      assert (Hm : preserved only_weights m)
        by (repeat first [apply only_weights_leave_old_proxy | weights_step]);
      apply Hm end. }
  assert (A3 : only_weights s2 s3).
  { revert Hnew. match goal with |- ?m s2 = _ -> _ =>
      assert (Hm : preserved only_weights m)
        by (repeat first [apply only_weights_leave_old_proxy
                         | apply only_weights_propagate | weights_step]);
      apply Hm end. }
  assert (A4 : only_weights s3 s4).
  { revert Hloop. apply (preserved_for_each only_weights only_weights_refl
                           only_weights_trans).
    intros pd. apply only_weights_apply_delta. }
  exists v, s4, (inverseVoteWeight s totalStaked (INR (length producers_arg))
                   VOTE_VARIATION).
  split; [exact Hv|]. split; [exact Hvalid|]. split.
  { intros Hset. rewrite Hset in Hnp. cbn in Hnp.
    now apply negb_true_iff in Hnp. }
  split.
  { unfold valid_vote_input in Hvalid. unfold vote_weight.
    destruct (is_set proxy_arg).
    - destruct Hvalid as [-> _]. apply inverseVoteWeight_zero.
    - now rewrite Hts'. }
  split; [|reflexivity].
  eapply only_weights_trans; [exact A1|]. eapply only_weights_trans; [exact A2|].
  eapply only_weights_trans; [exact A3 | exact A4].
Qed.


(** ** The effect of a first vote *)

Lemma checkNetworkActivation_eq min now s :
  checkNetworkActivation min now s
  = Done tt (mk_state (_voters s) (_producers s) (activated min now (_gstate s))).
Proof.
  unfold checkNetworkActivation, activated, mbind, M_bind, bind, get_gstate.
  destruct (_ && _); [reflexivity|]. now destruct s.
Qed.

Lemma set_total_producer_vote_weight_twice x y g :
  set_total_producer_vote_weight x (set_total_producer_vote_weight y g)
  = set_total_producer_vote_weight x g.
Proof. reflexivity. Qed.

Lemma apply_delta_registered voting pd s row :
  _producers s !! pd.1 = Some row ->
  is_active row = true ->
  apply_delta voting pd s
  = Done tt (mk_state (_voters s) (alter (clamp_add pd.2.1) pd.1 (_producers s))
               (set_total_producer_vote_weight
                  (total_producer_vote_weight (_gstate s) + pd.2.1) (_gstate s))).
Proof.
  intros Hrow Hact. unfold apply_delta. mrun. rewrite Hrow. mrun. rewrite Hrow, Hact.
  destruct voting; reflexivity.
Qed.

Lemma for_each_apply_registered voting m s :
  Forall (fun pd : N * (R * bool) => is_active <$> _producers s !! pd.1 = Some true) m ->
  for_each m (apply_delta voting) s
  = Done tt (mk_state (_voters s) (apply_deltas m (_producers s))
               (set_total_producer_vote_weight
                  (deltas_total m (total_producer_vote_weight (_gstate s)))
                  (_gstate s))).
Proof.
  revert s. induction m as [|pd m IH]; intros s Hall.
  - cbn. destruct s as [vs ps []]. reflexivity.
  - apply Forall_cons in Hall as [Hpd Hall].
    destruct (_producers s !! pd.1) as [row|] eqn:Hrow; [|discriminate].
    cbn in Hpd. injection Hpd as Hact.
    cbn [for_each]. unfold mbind, M_bind, bind.
    rewrite (apply_delta_registered voting pd s row Hrow Hact).
    rewrite IH.
    + cbn [_voters _producers _gstate apply_deltas deltas_total fold_left
           total_producer_vote_weight set_total_producer_vote_weight].
      reflexivity.
    + cbn [_producers]. eapply Forall_impl; [exact Hall|]. intros pd' H. cbn beta in *.
      rewrite lookup_alter. destruct (decide (pd.1 = pd'.1)) as [->|]; [|exact H].
      destruct (_producers s !! pd'.1) as [[]|]; [exact H | discriminate].
Qed.

Lemma deltas_total_const m w t :
  Forall (fun pd : N * (R * bool) => pd.2.1 = w) m ->
  deltas_total m t = (t + INR (length m) * w)%R.
Proof.
  revert t. induction m as [|pd m IH]; intros t Hall.
  - cbn. lra.
  - apply Forall_cons in Hall as [Hpd Hall].
    unfold deltas_total in *. cbn [fold_left]. rewrite IH by exact Hall.
    rewrite Hpd. change (length (pd :: m)) with (S (length m)). rewrite S_INR. lra.
Qed.

(** The deltas of a first vote: one entry per name of the slate, each with
    the weight of the vote, marked as new. *)
Lemma new_slate_deltas w l :
  NoDup l ->
  let m := fold_left
             (fun m p => deltas_update p (fun d => ((d.1 + w)%R, true)) m) l [] in
  NoDup m.*1
  /\ (forall q, q ∈ m.*1 <-> q ∈ l)
  /\ Forall (fun pd : N * (R * bool) => pd.2.1 = w) m
  /\ length m = length l.
Proof.
  intros Hnd m.
  destruct (deltas_of_slate (fun d => ((d.1 + w)%R, true)) l [] Hnd) as (Hs & Hk & Hv).
  { constructor. }
  { intros q _ Hq. now apply elem_of_nil in Hq. }
  fold m in Hs, Hk, Hv.
  assert (Hnd' : NoDup m.*1) by now apply sorted_keys_NoDup.
  assert (Hkeys : forall q, q ∈ m.*1 <-> q ∈ l).
  { intros q. rewrite Hk. split; [|now left].
    intros [H|H]; [exact H | now apply elem_of_nil in H]. }
  split; [exact Hnd'|]. split; [exact Hkeys|]. split.
  - apply (Hv (fun x => x.1 = w)); [cbn; lra | constructor].
  - rewrite <- (length_fmap fst m). apply Permutation_length.
    now apply NoDup_Permutation.
Qed.

(** The run of a first vote. *)
Lemma first_vote_run min now fuel voter_name producers_arg s v :
  _voters s !! voter_name = Some v ->
  (last_vote_weight v <= 0)%R ->
  proxy v = 0%N ->
  0 < length producers_arg <= 30 ->
  StronglySorted N.lt producers_arg ->
  Forall (fun p => is_active <$> _producers s !! p = Some true) producers_arg ->
  (vote_weight s v producers_arg >= 0)%R ->
  exists s',
    update_votes min now fuel voter_name 0 producers_arg true s = Done tt s'
    /\ _voters s'
       = alter (set_vote (vote_weight s v producers_arg) producers_arg 0) voter_name
           (_voters s)
    /\ (forall p,
          _producers s' !! p
          = (fun row => if decide (p ∈ producers_arg)
                        then clamp_add (vote_weight s v producers_arg) row
                        else row)
            <$> _producers s !! p)
    /\ _gstate s'
       = set_total_producer_vote_weight
           (total_producer_vote_weight (_gstate s)
            + INR (length producers_arg) * vote_weight s v producers_arg)
           (activated min now
              (set_total_activated_stake
                 (activated_stake v (total_activated_stake (_gstate s))) (_gstate s))).
Proof.
  intros Hv Hlvw Hpx Hlen Hsorted Hreg Hw.
  assert (Hvalid : valid_vote_input voter_name 0 producers_arg)
    by (split; [lia | exact Hsorted]).
  pose proof (valid_input_run _ _ _ s Hvalid) as Hrun.
  pose proof (sorted_keys_NoDup _ Hsorted) as Hnd.
  destruct (new_slate_deltas (vote_weight s v producers_arg) producers_arg Hnd)
    as (Hkeys_nd & Hkeys & Hvals & Hlength).
  unfold vote_weight in *.
  set (w := inverseVoteWeight s (staked v) (INR (length producers_arg)) VOTE_VARIATION)
    in *.
  unfold update_votes. unfold mbind at 1, M_bind at 1, bind at 1. rewrite Hrun.
  change (is_set 0) with false. mexec.
  rewrite Hv. mexec. rewrite Hv. mexec. fold w.
  rewrite Hpx. change (is_set 0) with false. mexec.
  set (m := fold_left _ producers_arg []) in *.
  assert (Hm : forall ps',
            ps' = _producers s ->
            Forall (fun pd : N * (R * bool) => is_active <$> ps' !! pd.1 = Some true) m).
  { intros ps' ->. apply Forall_forall. intros pd Hpd.
    rewrite Forall_forall in Hreg. apply Hreg, Hkeys.
    apply list_elem_of_fmap. now exists pd. }
  assert (Hrows : forall p,
            apply_deltas m (_producers s) !! p
            = (fun row => if decide (p ∈ producers_arg) then clamp_add w row else row)
              <$> _producers s !! p).
  { intros p. destruct (decide (p ∈ producers_arg)) as [Hin|Hin].
    - now rewrite (apply_deltas_lookup m _ p w Hkeys_nd Hvals) by now apply Hkeys.
    - rewrite apply_deltas_lookup_other by (intros Hq; now apply Hkeys in Hq).
      now destruct (_producers s !! p). }
  unfold activated_stake.
  destruct (bool_decide (proxied_vote_weight v > 0)%R); mrun;
    rewrite checkNetworkActivation_eq; cbn [_voters _producers _gstate];
    rewrite for_each_apply_registered by (apply Hm; reflexivity);
    (eexists; split; [reflexivity|]); cbn [_voters _producers _gstate];
    (split; [reflexivity|]); (split; [exact Hrows|]);
    rewrite (deltas_total_const m w) by exact Hvals; rewrite Hlength;
    destruct s as [vs ps [tas th sz tw up]]; unfold activated;
    cbn [_gstate total_activated_stake set_total_activated_stake
         thresh_activated_stake_time total_producer_vote_weight
         last_producer_schedule_size last_producer_schedule_update];
    destruct (_ && _); reflexivity.
Qed.

(** X18: the first vote.  A voter whose last weight is not positive and whose
    row names no proxy votes, without a proxy, for a slate that passes the
    input checks, is not empty and names registered, active producers only;
    the weight [w] of the vote is not negative, and when the voter's proxied
    weight is positive its sum with the activated stake converts to an
    [int64_t].  The call completes: the voter's row stores [w], the slate and
    no proxy; every producer of the slate has [w] added to its [total_votes]
    (floored at zero), no other producer row is touched and none is created;
    the stake of the voter (and its proxied weight when positive) is added to
    the activated stake, the activation is checked, and
    [total_producer_vote_weight] grows by [w] for each name of the slate. *)
Theorem first_vote_effect min now fuel voter_name producers_arg s v :
  _voters s !! voter_name = Some v ->
  (last_vote_weight v <= 0)%R ->
  proxy v = 0%N ->
  0 < length producers_arg <= 30 ->
  StronglySorted N.lt producers_arg ->
  Forall (fun p => is_active <$> _producers s !! p = Some true) producers_arg ->
  (vote_weight s v producers_arg >= 0)%R ->
  ((proxied_vote_weight v > 0)%R ->
   fits_int64 (IZR (add64 (total_activated_stake (_gstate s)) (staked v))
               + proxied_vote_weight v)) ->
  exists s',
    update_votes min now fuel voter_name 0 producers_arg true s = Done tt s'
    /\ _voters s'
       = alter (set_vote (vote_weight s v producers_arg) producers_arg 0) voter_name
           (_voters s)
    /\ (forall p,
          _producers s' !! p
          = (fun row => if decide (p ∈ producers_arg)
                        then clamp_add (vote_weight s v producers_arg) row
                        else row)
            <$> _producers s !! p)
    /\ _gstate s'
       = set_total_producer_vote_weight
           (total_producer_vote_weight (_gstate s)
            + INR (length producers_arg) * vote_weight s v producers_arg)
           (activated min now
              (set_total_activated_stake
                 (activated_stake v (total_activated_stake (_gstate s))) (_gstate s))).
Proof. intros Hv Hlvw Hpx Hlen Hsorted Hreg Hw _. now apply first_vote_run. Qed.

Lemma first_vote_effect_witness :
  exists s',
    update_votes 100 5 1 10 0 [1%N] true one_producer_one_voter = Done tt s'
    /\ _voters s'
       = alter (set_vote (vote_weight one_producer_one_voter (fresh_voter 10 100) [1%N])
                  [1%N] 0) 10%N (_voters one_producer_one_voter)
    /\ (forall p,
          _producers s' !! p
          = (fun row => if decide (p ∈ [1%N])
                        then clamp_add
                               (vote_weight one_producer_one_voter (fresh_voter 10 100)
                                  [1%N]) row
                        else row)
            <$> _producers one_producer_one_voter !! p)
    /\ _gstate s'
       = set_total_producer_vote_weight
           (total_producer_vote_weight (_gstate one_producer_one_voter)
            + INR (length [1%N])
              * vote_weight one_producer_one_voter (fresh_voter 10 100) [1%N])
           (activated 100 5
              (set_total_activated_stake
                 (activated_stake (fresh_voter 10 100)
                    (total_activated_stake (_gstate one_producer_one_voter)))
                 (_gstate one_producer_one_voter))).
Proof.
  apply (first_vote_effect 100 5 1 10 [1%N] one_producer_one_voter (fresh_voter 10 100)).
  - reflexivity.
  - simpl. lra.
  - reflexivity.
  - simpl. lia.
  - repeat constructor.
  - repeat constructor.
  - unfold vote_weight. change (length [1%N]) with 1%nat.
    rewrite weight_one_of_one; [lra | reflexivity].
  - simpl. intros H. exfalso. lra.
Defined.


(** ** What a completed vote stores *)

(** X19: a completed call of [update_votes] stores the slate and the proxy
    it was given in the voter's row.  When the slate is empty or the producer
    table has a row, the weight it stores is the one it computed: zero when a
    proxy is named, the weight of the slate otherwise.  The call changes
    nobody's stake, owner or proxy flag, leaves the proxy and the slate of
    every other voter and the key, activity, url and location of every
    producer as they were, and adds or removes no row. *)
Theorem update_votes_records_vote
    min now fuel voter_name proxy_arg producers_arg voting s s' :
  update_votes min now fuel voter_name proxy_arg producers_arg voting s = Done tt s' ->
  exists v v',
    _voters s !! voter_name = Some v
    /\ _voters s' !! voter_name = Some v'
    /\ producers v' = producers_arg
    /\ proxy v' = proxy_arg
    /\ (producers_arg = [] \/ size (_producers s) ≠ 0 ->
        last_vote_weight v'
        = (if is_set proxy_arg then 0%R else vote_weight s v producers_arg))
    /\ owner v' = owner v /\ staked v' = staked v /\ is_proxy v' = is_proxy v
    /\ (forall k, k ≠ voter_name ->
          (voter_static <$> _voters s' !! k) = (voter_static <$> _voters s !! k))
    /\ (forall k, (producer_static <$> _producers s' !! k)
                  = (producer_static <$> _producers s !! k)).
Proof.
  intros Hrun.
  destruct (update_votes_Done _ _ _ _ _ _ _ _ _ Hrun)
    as (v & s1 & w & Hv & _ & _ & Hw & [Hvs Hps] & ->).
  pose proof (Hvs voter_name) as Hrow. rewrite Hv in Hrow.
  destruct (_voters s1 !! voter_name) as [v1|] eqn:Hv1; [|discriminate].
  cbn in Hrow. injection Hrow as Ho Hp Hsl Hst Hi.
  exists v, (set_vote w producers_arg proxy_arg v1). cbn [_voters _producers].
  split; [exact Hv|]. split; [now rewrite lookup_alter_eq, Hv1|].
  split; [reflexivity|]. split; [reflexivity|]. split; [intros _; exact Hw|].
  split; [exact Ho|]. split; [exact Hst|]. split; [exact Hi|]. split.
  - intros k Hk. rewrite lookup_alter_ne by congruence. apply Hvs.
  - exact Hps.
Qed.

Lemma example_first_vote_run :
  exists s', update_votes 100 5 1 10 0 [1%N] true one_producer_one_voter = Done tt s'.
Proof.
  destruct (first_vote_run 100 5 1 10 [1%N] one_producer_one_voter (fresh_voter 10 100))
    as (s' & H & _).
  - reflexivity.
  - simpl. lra.
  - reflexivity.
  - simpl. lia.
  - repeat constructor.
  - repeat constructor.
  - unfold vote_weight. change (length [1%N]) with 1%nat.
    rewrite weight_one_of_one; [lra | reflexivity].
  - now exists s'.
Qed.

Lemma update_votes_records_vote_witness :
  exists s' v v',
    update_votes 100 5 1 10 0 [1%N] true one_producer_one_voter = Done tt s'
    /\ _voters one_producer_one_voter !! 10%N = Some v
    /\ _voters s' !! 10%N = Some v'
    /\ producers v' = [1%N]
    /\ proxy v' = 0%N
    /\ last_vote_weight v'
       = (if is_set 0 then 0%R else vote_weight one_producer_one_voter v [1%N])
    /\ owner v' = owner v /\ staked v' = staked v /\ is_proxy v' = is_proxy v.
Proof.
  destruct example_first_vote_run as [s' Hrun].
  destruct (update_votes_records_vote 100 5 1 10 0 [1%N] true one_producer_one_voter s'
              Hrun) as (v & v' & H1 & H2 & H3 & H4 & H5 & H6 & H7 & H8 & _).
  exists s', v, v'. repeat split; try assumption.
  apply H5. right. discriminate.
Defined.

(** ** The activated stake *)

Lemma same_activation_refl s : same_activation s s.
Proof. split; reflexivity. Qed.

Lemma same_activation_trans s1 s2 s3 :
  same_activation s1 s2 -> same_activation s2 s3 -> same_activation s1 s3.
Proof. intros [H1 H2] [H3 H4]. split; congruence. Qed.

Ltac activation_step :=
  lazymatch goal with
  | |- preserved same_activation (mbind _ _) =>
      apply (preserved_bind same_activation same_activation_trans); [ | intros ? ]
  | |- preserved same_activation (mret _) =>
      apply (preserved_ret same_activation same_activation_refl)
  | |- preserved same_activation (for_each _ _) =>
      apply (preserved_for_each same_activation same_activation_refl
               same_activation_trans);
      intros ?
  | |- preserved same_activation (modify_gstate _) =>
      intros [? ? []] ? ? H; inversion H; split; reflexivity
  | |- preserved same_activation (voters_modify _ _) =>
      intros ? ? ? H; inversion H; split; reflexivity
  | |- preserved same_activation (producers_modify _ _) =>
      intros ? ? ? H; inversion H; split; reflexivity
  | |- preserved same_activation (if ?b then _ else _) => destruct b
  | |- preserved same_activation (match ?x with _ => _ end) => destruct x
  | |- preserved same_activation _ =>
      apply (preserved_read_only same_activation same_activation_refl);
      solve [eauto with read_only_db]
  end.

Lemma same_activation_propagate fuel voter :
  preserved same_activation (propagate_weight_change fuel voter).
Proof.
  revert voter. induction fuel as [|fuel IH]; intros voter; simpl.
  - activation_step.
  - repeat first [apply IH | activation_step].
Qed.

Lemma same_activation_leave_old_proxy fuel old amount :
  preserved same_activation (leave_old_proxy fuel old amount).
Proof.
  unfold leave_old_proxy.
  repeat first [apply same_activation_propagate | activation_step].
Qed.

Lemma same_activation_apply_delta voting pd :
  preserved same_activation (apply_delta voting pd).
Proof. unfold apply_delta. repeat activation_step. Qed.

Lemma activation_block_skipped min now fuel voter_name proxy_arg producers_arg voting
    s s' row :
  update_votes min now fuel voter_name proxy_arg producers_arg voting s = Done tt s' ->
  _voters s !! voter_name = Some row ->
  (voting = false
   \/ ((last_vote_weight row > 0)%R /\ (producers_arg ≠ [] \/ proxy_arg ≠ 0%N))) ->
  same_activation s s'.
Proof.
  intros Hrun Hrow Hcase. peel_update_votes Hrun s voter_name proxy_arg.
  rewrite Hrow in Hv. injection Hv as <-.
  assert (s1 = s) as ->.
  { destruct Hcase as [->|[Hgt Hcase]].
    - rewrite !andb_false_r in Hact. now inversion Hact.
    - rewrite (bool_decide_eq_false_2 (last_vote_weight row <= 0)%R) in Hact by lra.
      cbn [andb] in Hact.
      assert (Hc : bool_decide (length producers_arg = 0) && negb (is_set proxy_arg)
                   = false).
      { destruct Hcase as [Hne|Hne].
        - rewrite bool_decide_eq_false_2; [reflexivity|].
          destruct producers_arg; [contradiction | discriminate].
        - rewrite (is_set_true _ Hne). apply andb_false_r. }
      rewrite Hc in Hact. cbn [andb] in Hact. now inversion Hact. }
  assert (A2 : same_activation s s2).
  { revert Hold. match goal with |- ?m s = _ -> _ =>
      assert (Hm : preserved same_activation m)
        by (repeat first [apply same_activation_leave_old_proxy | activation_step]);
      apply Hm end. }
  assert (A3 : same_activation s2 s3).
  { revert Hnew. match goal with |- ?m s2 = _ -> _ =>
      assert (Hm : preserved same_activation m)
        by (repeat first [apply same_activation_leave_old_proxy
                         | apply same_activation_propagate | activation_step]);
      apply Hm end. }
  assert (A4 : same_activation s3 s4).
  { revert Hloop. apply (preserved_for_each same_activation same_activation_refl
                           same_activation_trans).
    intros pd. apply same_activation_apply_delta. }
  eapply same_activation_trans; [exact A2|].
  eapply same_activation_trans; [exact A3|]. exact A4.
Qed.

(** X20: [update_votes] changes the activated stake only for a first vote
    and for a withdrawal.  A completed call with [voting = false] (a change of
    stake), or by a voter whose last weight is positive and who names a slate
    or a proxy, leaves [total_activated_stake] and the activation time as
    they were, whatever it propagates. *)
Theorem activated_stake_kept_by_revote
    min now fuel voter_name proxy_arg producers_arg voting s s' row :
  update_votes min now fuel voter_name proxy_arg producers_arg voting s = Done tt s' ->
  _voters s !! voter_name = Some row ->
  (voting = false
   \/ ((last_vote_weight row > 0)%R /\ (producers_arg ≠ [] \/ proxy_arg ≠ 0%N))) ->
  total_activated_stake (_gstate s') = total_activated_stake (_gstate s)
  /\ thresh_activated_stake_time (_gstate s')
     = thresh_activated_stake_time (_gstate s).
Proof. apply activation_block_skipped. Qed.

Lemma example_stake_change_run :
  exists s', update_votes 100 5 1 10 0 [1%N] false one_producer_one_voter = Done tt s'.
Proof.
  assert (Hv : _voters one_producer_one_voter !! 10%N = Some (fresh_voter 10 100))
    by reflexivity.
  unfold update_votes, check_sorted. change (is_set 0) with false. mexec.
  rewrite Hv. mexec. rewrite Hv. mexec.
  rewrite weight_one_of_one by reflexivity.
  cbn [last_vote_weight proxied_vote_weight staked proxy producers is_proxy fresh_voter].
  mexec. change (is_set 0) with false. mexec. rewrite Hv. mexec.
  cbn [last_vote_weight fresh_voter]. mexec.
  eexists. reflexivity.
Qed.

Lemma activated_stake_kept_by_revote_witness :
  exists s',
    update_votes 100 5 1 10 0 [1%N] false one_producer_one_voter = Done tt s'
    /\ total_activated_stake (_gstate s')
       = total_activated_stake (_gstate one_producer_one_voter)
    /\ thresh_activated_stake_time (_gstate s')
       = thresh_activated_stake_time (_gstate one_producer_one_voter).
Proof.
  destruct example_stake_change_run as [s' Hrun].
  exists s'. split; [exact Hrun|].
  apply (activated_stake_kept_by_revote 100 5 1 10 0 [1%N] false one_producer_one_voter
           s' (fresh_voter 10 100) Hrun).
  - reflexivity.
  - now left.
Defined.

(** ** Invariants of the tables *)

Lemma preserved_apply_all (Rel : state -> state -> Prop) min fuel :
  (forall s, Rel s s) ->
  (forall s1 s2 s3, Rel s1 s2 -> Rel s2 s3 -> Rel s1 s3) ->
  (forall e a, preserved Rel (run min fuel e a)) ->
  forall l s, Rel s (apply_all min fuel l s).
Proof.
  intros Hrefl Htrans Hrun l. induction l as [|ea l IH]; intros s; [apply Hrefl|].
  unfold apply_all in *. cbn [fold_left].
  eapply Htrans; [|apply IH].
  unfold apply_action, commit.
  destruct (run min fuel ea.1 ea.2 s) as [x s'| | |] eqn:E; try apply Hrefl.
  eapply Hrun, E.
Qed.

Lemma rows_kept_refl s : rows_kept s s.
Proof. split; auto. Qed.

Lemma rows_kept_trans s1 s2 s3 : rows_kept s1 s2 -> rows_kept s2 s3 -> rows_kept s1 s3.
Proof. intros [H1 H2] [H3 H4]. split; auto. Qed.

Lemma rows_kept_voters_alter f k s :
  rows_kept s (mk_state (alter f k (_voters s)) (_producers s) (_gstate s)).
Proof. split; intros j Hj; cbn; [now apply lookup_alter_is_Some | exact Hj]. Qed.

Lemma rows_kept_producers_alter f k s :
  rows_kept s (mk_state (_voters s) (alter f k (_producers s)) (_gstate s)).
Proof. split; intros j Hj; cbn; [exact Hj | now apply lookup_alter_is_Some]. Qed.

Lemma rows_kept_voters_insert k x s :
  rows_kept s (mk_state (<[k := x]> (_voters s)) (_producers s) (_gstate s)).
Proof.
  split; intros j Hj; cbn; [|exact Hj].
  apply lookup_insert_is_Some. destruct (decide (k = j)); auto.
Qed.

Lemma rows_kept_producers_insert k x s :
  rows_kept s (mk_state (_voters s) (<[k := x]> (_producers s)) (_gstate s)).
Proof.
  split; intros j Hj; cbn; [exact Hj|].
  apply lookup_insert_is_Some. destruct (decide (k = j)); auto.
Qed.

Ltac rows_step :=
  lazymatch goal with
  | |- preserved rows_kept (mbind _ _) =>
      apply (preserved_bind rows_kept rows_kept_trans); [ | intros ? ]
  | |- preserved rows_kept (mret _) => apply (preserved_ret rows_kept rows_kept_refl)
  | |- preserved rows_kept (for_each _ _) =>
      apply (preserved_for_each rows_kept rows_kept_refl rows_kept_trans); intros ?
  | |- preserved rows_kept (modify_gstate _) =>
      intros ? ? ? H; inversion H; split; intros ? ?; assumption
  | |- preserved rows_kept (voters_modify _ _) =>
      intros ? ? ? H; inversion H; apply rows_kept_voters_alter
  | |- preserved rows_kept (voters_emplace _) =>
      intros ? ? ? H; inversion H; apply rows_kept_voters_insert
  | |- preserved rows_kept (producers_modify _ _) =>
      intros ? ? ? H; inversion H; apply rows_kept_producers_alter
  | |- preserved rows_kept (producers_emplace _) =>
      intros ? ? ? H; inversion H; apply rows_kept_producers_insert
  | |- preserved rows_kept (if ?b then _ else _) => destruct b
  | |- preserved rows_kept (match ?x with _ => _ end) => destruct x
  | |- preserved rows_kept _ =>
      apply (preserved_read_only rows_kept rows_kept_refl);
      solve [eauto with read_only_db]
  end.

Lemma rows_kept_propagate fuel voter :
  preserved rows_kept (propagate_weight_change fuel voter).
Proof.
  revert voter. induction fuel as [|fuel IH]; intros voter; simpl.
  - rows_step.
  - repeat first [apply IH | rows_step].
Qed.

Lemma rows_kept_update_votes min now fuel voter_name proxy_arg producers_arg voting :
  preserved rows_kept
    (update_votes min now fuel voter_name proxy_arg producers_arg voting).
Proof.
  unfold update_votes, leave_old_proxy, apply_delta, checkNetworkActivation.
  repeat first
    [ apply rows_kept_propagate
    | apply (preserved_read_only rows_kept rows_kept_refl), read_only_check_sorted
    | rows_step ].
Qed.

Lemma rows_kept_run min fuel e a : preserved rows_kept (run min fuel e a).
Proof.
  destruct a; cbn [run].
  - unfold regproducer, require_auth. repeat rows_step.
  - unfold unregprod, require_auth. repeat rows_step.
  - unfold voteproducer, require_auth.
    repeat first [apply rows_kept_update_votes | rows_step].
  - unfold regproxy, require_auth. repeat rows_step.
  - apply rows_kept_update_votes.
  - unfold update_elected_producers. repeat rows_step.
  - unfold checkNetworkActivation. repeat rows_step.
  - apply rows_kept_propagate.
Qed.

(** X21: no function of the contract erases a row.  Over any sequence of
    transactions every voter and every producer that has a row keeps one
    ([unregprod] only deactivates), so the number of rows of the producer
    table, the denominator of the weight curve, never decreases. *)
Theorem rows_are_never_removed min fuel (l : list (env * action)) s :
  (forall k, is_Some (_voters s !! k) ->
             is_Some (_voters (apply_all min fuel l s) !! k))
  /\ (forall k, is_Some (_producers s !! k) ->
                is_Some (_producers (apply_all min fuel l s) !! k))
  /\ size (_producers s) <= size (_producers (apply_all min fuel l s)).
Proof.
  destruct (preserved_apply_all rows_kept min fuel rows_kept_refl rows_kept_trans
              (rows_kept_run min fuel) l s) as [H1 H2].
  split; [exact H1|]. split; [exact H2|].
  rewrite <- !size_dom. apply subseteq_size. intros k Hk.
  apply elem_of_dom in Hk. apply elem_of_dom. now apply H2.
Qed.

Lemma wellformed_only_weights s s' :
  only_weights s s' -> voters_wellformed s -> voters_wellformed s'.
Proof.
  intros [Hvs _] Hwf k v' Hv'. specialize (Hvs k). rewrite Hv' in Hvs.
  destruct (_voters s !! k) as [v|] eqn:Hv; [|discriminate].
  cbn in Hvs. injection Hvs as Ho Hp Hsl Hst Hi.
  specialize (Hwf k v Hv). unfold wellformed_row in *.
  now rewrite Hp, Hsl, Hi.
Qed.

Lemma wellformed_same_voters s s' :
  _voters s' = _voters s -> voters_wellformed s -> voters_wellformed s'.
Proof. unfold voters_wellformed. now intros ->. Qed.

Lemma wellformed_update_votes min now fuel voter_name proxy_arg producers_arg voting
    s s' :
  update_votes min now fuel voter_name proxy_arg producers_arg voting s = Done tt s' ->
  voters_wellformed s -> voters_wellformed s'.
Proof.
  intros Hrun Hwf.
  destruct (update_votes_Done _ _ _ _ _ _ _ _ _ Hrun)
    as (v & s1 & w & Hv & Hvalid & Hnp & _ & Hw & ->).
  pose proof (wellformed_only_weights _ _ Hw Hwf) as Hwf1.
  destruct Hw as [Hvs _]. specialize (Hvs voter_name). rewrite Hv in Hvs.
  intros k v' Hv'. cbn [_voters] in Hv'.
  destruct (decide (k = voter_name)) as [->|Hk].
  - rewrite lookup_alter_eq in Hv'.
    destruct (_voters s1 !! voter_name) as [v1|] eqn:Hv1; [|discriminate].
    cbn in Hv', Hvs. injection Hv' as <-. injection Hvs as _ _ _ _ Hi.
    unfold wellformed_row. cbn [is_proxy proxy producers set_vote].
    unfold valid_vote_input in Hvalid.
    destruct (is_set proxy_arg) eqn:Hset.
    + destruct Hvalid as [-> _]. specialize (Hnp eq_refl).
      repeat split; try (intros; congruence); try constructor. cbn. lia.
    + assert (proxy_arg = 0%N) as ->.
      { unfold is_set in Hset. now apply negb_false_iff, N.eqb_eq in Hset. }
      destruct Hvalid as [Hlen Hs]. repeat split; try assumption; congruence.
  - rewrite lookup_alter_ne in Hv' by congruence. exact (Hwf1 k v' Hv').
Qed.

Lemma regproxy_Done auth proxy_arg isproxy s s' :
  regproxy auth proxy_arg isproxy s = Done tt s' ->
  auth proxy_arg = true
  /\ match _voters s !! proxy_arg with
     | Some p =>
         isproxy ≠ is_proxy p
         /\ (isproxy = true -> proxy p = 0%N)
         /\ s' = mk_state (alter (set_is_proxy isproxy) proxy_arg (_voters s))
                   (_producers s) (_gstate s)
     | None =>
         s' = mk_state (<[proxy_arg := mk_voter proxy_arg 0 [] 0 0 0 isproxy]> (_voters s))
                (_producers s) (_gstate s)
     end.
Proof.
  unfold regproxy, require_auth. intros H.
  apply bind_Done in H as ([] & s1 & H1 & H).
  apply eosio_assert_Done in H1 as [-> Hauth]. split; [exact Hauth|].
  apply bind_Done in H as (pitr & s1 & H1 & H).
  unfold voters_find in H1. injection H1 as <- <-.
  destruct (_voters s !! proxy_arg) as [p|] eqn:Hp.
  - apply bind_Done in H as (p' & s1 & H1 & H).
    unfold voters_deref in H1. rewrite Hp in H1. injection H1 as <- <-.
    apply bind_Done in H as ([] & s1 & H1 & H).
    apply eosio_assert_Done in H1 as [-> Hne].
    apply bind_Done in H as ([] & s1 & H1 & H).
    apply eosio_assert_Done in H1 as [-> Hpx].
    injection H as <-. split; [|split; [|reflexivity]].
    + intros ->. destruct (is_proxy p); discriminate.
    + intros ->. cbn in Hpx. apply negb_true_iff in Hpx. unfold is_set in Hpx.
      now apply negb_false_iff, N.eqb_eq in Hpx.
  - now injection H as <-.
Qed.

Lemma wellformed_regproxy auth proxy_arg isproxy s s' :
  regproxy auth proxy_arg isproxy s = Done tt s' ->
  voters_wellformed s -> voters_wellformed s'.
Proof.
  intros H Hwf. apply regproxy_Done in H as [_ H].
  destruct (_voters s !! proxy_arg) as [p|] eqn:Hp.
  - destruct H as (Hne & Hpx & ->). intros k v' Hv'. cbn [_voters] in Hv'.
    destruct (decide (k = proxy_arg)) as [->|Hk].
    + rewrite lookup_alter_eq, Hp in Hv'. cbn in Hv'. injection Hv' as <-.
      destruct (Hwf proxy_arg p Hp) as (W1 & W2 & W3 & W4).
      unfold wellformed_row. cbn [is_proxy proxy producers set_is_proxy].
      repeat split; assumption.
    + rewrite lookup_alter_ne in Hv' by congruence. exact (Hwf k v' Hv').
  - subst s'. intros k v' Hv'. cbn [_voters] in Hv'.
    destruct (decide (k = proxy_arg)) as [->|Hk].
    + rewrite lookup_insert_eq in Hv'. injection Hv' as <-.
      unfold wellformed_row. cbn. repeat split; try constructor; try congruence. lia.
    + rewrite lookup_insert_ne in Hv' by congruence. exact (Hwf k v' Hv').
Qed.

Lemma wellformed_run min fuel e a s x s' :
  run min fuel e a s = Done x s' -> voters_wellformed s -> voters_wellformed s'.
Proof.
  destruct x. destruct a; cbn [run]; intros H.
  - apply wellformed_same_voters.
    pose proof (regproducer_Done _ _ _ _ _ _ _ H) as (Hurl & Hkey & Hauth).
    rewrite regproducer_run in H by assumption. now injection H as <-.
  - apply wellformed_same_voters.
    pose proof (unregprod_Done _ _ _ _ H) as (Hauth & p & Hp).
    rewrite (unregprod_run _ _ _ p) in H by assumption. now injection H as <-.
  - unfold voteproducer in H. apply bind_Done in H as ([] & s1 & H1 & H2).
    apply read_only_assert in H1 as ->. eapply wellformed_update_votes, H2.
  - eapply wellformed_regproxy, H.
  - eapply wellformed_update_votes, H.
  - apply wellformed_same_voters. revert H. unfold update_elected_producers. mrun.
    repeat match goal with
           | |- context [if ?b then _ else _] => destruct b
           end; intros H; now injection H as <-.
  - apply wellformed_same_voters. rewrite checkNetworkActivation_eq in H.
    now injection H as <-.
  - apply wellformed_only_weights. eapply only_weights_propagate, H.
Qed.

(** X22: the rows of the voters table stay well formed.  When every row
    satisfies: a registered proxy names no proxy; a row that names a proxy has
    an empty slate; a slate has at most 30 names in strictly increasing
    order, then so does every row after any sequence of transactions. *)
Theorem voters_stay_wellformed min fuel (l : list (env * action)) s :
  voters_wellformed s -> voters_wellformed (apply_all min fuel l s).
Proof.
  apply (preserved_apply_all (fun s s' => voters_wellformed s -> voters_wellformed s')
           min fuel).
  - auto.
  - auto.
  - intros e a s0 x s' H. eapply wellformed_run, H.
Qed.

Lemma voters_stay_wellformed_witness :
  voters_wellformed
    (apply_all 100 1 [(test_env, Voteproducer 10 0 [1%N]); (test_env, Regproxy 10 true)]
       one_producer_one_voter).
Proof.
  apply (voters_stay_wellformed 100 1
           [(test_env, Voteproducer 10 0 [1%N]); (test_env, Regproxy 10 true)]
           one_producer_one_voter).
  intros k v Hv. unfold one_producer_one_voter in Hv. cbn [_voters] in Hv.
  apply lookup_insert_Some in Hv as [[_ <-]|[_ Hv]].
  - unfold wellformed_row. cbn. repeat split; try constructor; try congruence. lia.
  - rewrite lookup_empty in Hv. discriminate.
Defined.


(** ** Registration of proxies *)

Lemma regproxy_run auth proxy_arg isproxy s :
  auth proxy_arg = true ->
  regproxy auth proxy_arg isproxy s
  = match _voters s !! proxy_arg with
    | Some p =>
        if eqb isproxy (is_proxy p) then Abort "action has no effect"
        else if isproxy && is_set (proxy p)
             then Abort "account that uses a proxy is not allowed to become a proxy"
             else Done tt (mk_state (alter (set_is_proxy isproxy) proxy_arg (_voters s))
                             (_producers s) (_gstate s))
    | None =>
        Done tt (mk_state (<[proxy_arg := mk_voter proxy_arg 0 [] 0 0 0 isproxy]>
                             (_voters s))
                   (_producers s) (_gstate s))
    end.
Proof.
  intros Hauth. unfold regproxy, require_auth. rewrite Hauth.
  unfold mbind, M_bind, bind, eosio_assert, voters_find, voters_deref, voters_modify,
    voters_emplace.
  destruct (_voters s !! proxy_arg) as [p|] eqn:Hp; [|reflexivity].
  rewrite Hp. destruct (eqb isproxy (is_proxy p)); [reflexivity|]. cbn [negb].
  destruct isproxy, (is_set (proxy p)); reflexivity.
Qed.

(** X23: a completed [regproxy] writes one thing.  When the account has a
    row, the row had the other value of the proxy flag and only the flag
    changes: stake, weights, slate and proxy are kept, and an account that
    becomes a proxy names no proxy.  When the account has no row, one is
    created with the flag, no stake, no slate and no weight.  No other voter
    row, no producer row and no field of the global state is written. *)
Theorem regproxy_effect auth proxy_arg isproxy s s' :
  regproxy auth proxy_arg isproxy s = Done tt s' ->
  exists v',
    _voters s' !! proxy_arg = Some v'
    /\ is_proxy v' = isproxy
    /\ (isproxy = true -> proxy v' = 0%N)
    /\ match _voters s !! proxy_arg with
       | Some p => is_proxy p = negb isproxy /\ v' = set_is_proxy isproxy p
       | None => v' = mk_voter proxy_arg 0 [] 0 0 0 isproxy
       end
    /\ (forall k, k ≠ proxy_arg -> _voters s' !! k = _voters s !! k)
    /\ _producers s' = _producers s
    /\ _gstate s' = _gstate s.
Proof.
  intros H. apply regproxy_Done in H as [_ H].
  destruct (_voters s !! proxy_arg) as [p|] eqn:Hp.
  - destruct H as (Hne & Hpx & ->). exists (set_is_proxy isproxy p).
    cbn [_voters _producers _gstate]. rewrite lookup_alter_eq, Hp.
    split; [reflexivity|]. split; [reflexivity|]. split; [exact Hpx|].
    split; [split; [|reflexivity]|].
    + destruct isproxy, (is_proxy p); try reflexivity; congruence.
    + split; [|split; reflexivity]. intros k Hk. now rewrite lookup_alter_ne.
  - subst s'. eexists. cbn [_voters _producers _gstate]. rewrite lookup_insert_eq.
    split; [reflexivity|]. split; [reflexivity|]. split; [reflexivity|].
    split; [reflexivity|].
    split; [|split; reflexivity]. intros k Hk. now rewrite lookup_insert_ne.
Qed.

Lemma regproxy_effect_witness :
  exists s' v',
    regproxy always_auth 10 true one_producer_one_voter = Done tt s'
    /\ _voters s' !! 10%N = Some v'
    /\ is_proxy v' = true
    /\ staked v' = 100%Z.
Proof.
  assert (Hrun : regproxy always_auth 10 true one_producer_one_voter
                 = Done tt (mk_state
                              (alter (set_is_proxy true) 10%N
                                 (_voters one_producer_one_voter))
                              (_producers one_producer_one_voter)
                              (_gstate one_producer_one_voter)))
    by (rewrite regproxy_run by reflexivity; reflexivity).
  destruct (regproxy_effect always_auth 10 true one_producer_one_voter _ Hrun)
    as (v' & H1 & H2 & _ & H4 & _).
  eexists. exists v'. split; [exact Hrun|]. split; [exact H1|]. split; [exact H2|].
  change (_voters one_producer_one_voter !! 10%N) with (Some (fresh_voter 10 100)) in H4.
  destruct H4 as [_ ->]. reflexivity.
Defined.

(** X24: [regproxy] toggles.  After a completed call the same call fails
    with "action has no effect", also when the first call created the row;
    and for an account that had a row and names no proxy, the call with the
    other value of the flag completes and restores the state from before the
    first call. *)
Theorem regproxy_toggles auth proxy_arg isproxy s s' :
  regproxy auth proxy_arg isproxy s = Done tt s' ->
  regproxy auth proxy_arg isproxy s' = Abort "action has no effect"
  /\ (forall p, _voters s !! proxy_arg = Some p -> proxy p = 0%N ->
        regproxy auth proxy_arg (negb isproxy) s' = Done tt s).
Proof.
  intros H. apply regproxy_Done in H as [Hauth H]. split.
  - rewrite regproxy_run by exact Hauth.
    destruct (_voters s !! proxy_arg) as [p|] eqn:Hp.
    + destruct H as (_ & _ & ->). cbn [_voters]. rewrite lookup_alter_eq, Hp.
      cbn [fmap option_fmap option_map is_proxy set_is_proxy].
      now rewrite eqb_reflx.
    + subst s'. cbn [_voters]. rewrite lookup_insert_eq. cbn [is_proxy].
      now rewrite eqb_reflx.
  - intros p Hp Hpx. rewrite Hp in H. destruct H as (Hne & _ & ->).
    rewrite regproxy_run by exact Hauth. cbn [_voters _producers _gstate].
    rewrite lookup_alter_eq, Hp.
    cbn [fmap option_fmap option_map is_proxy proxy set_is_proxy].
    rewrite Hpx. change (is_set 0) with false. rewrite andb_false_r.
    replace (eqb (negb isproxy) isproxy) with false by (now destruct isproxy).
    rewrite alter_alter_eq. rewrite alter_id; [now destruct s|].
    intros x Hx. rewrite Hp in Hx. injection Hx as <-. cbn.
    destruct p as [o px ps st lw pw ip]; cbn in *.
    unfold set_is_proxy; cbn. f_equal.
    destruct isproxy, ip; try reflexivity; congruence.
Qed.

Lemma regproxy_toggles_witness :
  regproxy always_auth 10 true
    (mk_state (alter (set_is_proxy true) 10%N (_voters one_producer_one_voter))
       (_producers one_producer_one_voter) (_gstate one_producer_one_voter))
  = Abort "action has no effect".
Proof.
  apply (proj1 (regproxy_toggles always_auth 10 true one_producer_one_voter _
                  (eq_trans (regproxy_run always_auth 10 true one_producer_one_voter
                               eq_refl) eq_refl))).
Defined.


(** ** The weight the propagation writes *)

Lemma overwrite_votes_lookup w l t p :
  p ∈ l -> overwrite_votes w l t !! p = set_total_votes w <$> t !! p.
Proof.
  revert t. induction l as [|q l IH]; intros t Hp.
  - now apply elem_of_nil in Hp.
  - unfold overwrite_votes. cbn [fold_left].
    fold (overwrite_votes w l (alter (set_total_votes w) q t)).
    destruct (decide (p ∈ l)) as [Hin|Hin].
    + rewrite IH by exact Hin. rewrite lookup_alter.
      destruct (decide (q = p)) as [->|]; [|reflexivity].
      destruct (t !! p); reflexivity.
    + apply elem_of_cons in Hp as [->|Hp]; [|contradiction].
      rewrite overwrite_votes_other by exact Hin. apply lookup_alter_eq.
Qed.

Lemma propagate_direct_run fuel k s P :
  _voters s !! k = Some P -> proxy P = 0%N ->
  Forall (fun p => is_Some (_producers s !! p)) (producers P) ->
  propagate_weight_change (S fuel) k s
  = Done tt (mk_state (alter (set_last_vote_weight (propagated_weight s P)) k (_voters s))
               (overwrite_votes (propagated_weight s P) (producers P) (_producers s))
               (_gstate s)).
Proof.
  intros HP Hpx Hreg. cbn [propagate_weight_change]. mrun. rewrite HP, Hpx.
  change (is_set 0) with false. mexec.
  pose proof (for_each_overwrite (propagated_weight s P) (producers P) s Hreg) as Hf.
  cbv beta iota zeta delta [mbind M_bind bind producers_get producers_modify] in Hf.
  unfold propagated_weight in *. rewrite Hf. reflexivity.
Qed.

Lemma count_active_all (prods : gmap N producer_info) :
  (forall k p, prods !! k = Some p -> is_active p = true) ->
  count_active prods = size prods.
Proof.
  intros Hall. unfold count_active.
  rewrite <- (length_map_to_list prods), <- (length_map snd (map_to_list prods)).
  f_equal.
  assert (H : Forall (fun p => is_active p = true) (map snd (map_to_list prods))).
  { apply Forall_forall. intros p Hp.
    apply list_elem_of_fmap in Hp as ([k p'] & -> & Hin).
    apply elem_of_map_to_list in Hin. eapply Hall, Hin. }
  induction H as [|p l Hp _ IH]; [reflexivity|].
  rewrite filter_cons_True by exact Hp. now rewrite IH.
Qed.

(** X25: the propagation on a row that names no proxy, whose slate names
    registered producers only and whose stake and proxied weight have a sum
    that converts to an [int64_t], completes.  It computes one weight: the
    curve at that sum, with the number of active producers, not the length of
    the slate, as the number of producers voted for.  It stores this weight as
    the row's [last_vote_weight] and writes it over the [total_votes] of every
    producer of the slate, so whatever other voters added to these totals is
    gone; no other row is touched.  When every registered producer is active
    and there are between 1 and 30 of them, the weight is the whole sum,
    truncated to an integer. *)
Theorem propagate_overwrites_slate fuel k s P :
  _voters s !! k = Some P ->
  proxy P = 0%N ->
  Forall (fun p => is_Some (_producers s !! p)) (producers P) ->
  fits_int64 (IZR (staked P) + proxied_vote_weight P) ->
  exists s',
    propagate_weight_change (S fuel) k s = Done tt s'
    /\ _voters s' !! k = Some (set_last_vote_weight (propagated_weight s P) P)
    /\ (forall j, j ≠ k -> _voters s' !! j = _voters s !! j)
    /\ (forall p, p ∈ producers P ->
          _producers s' !! p
          = set_total_votes (propagated_weight s P) <$> _producers s !! p)
    /\ (forall p, p ∉ producers P -> _producers s' !! p = _producers s !! p)
    /\ ((forall j row, _producers s !! j = Some row -> is_active row = true) ->
        0 < size (_producers s) <= 30 ->
        propagated_weight s P = IZR (Rtrunc (IZR (staked P) + proxied_vote_weight P))).
Proof.
  intros HP Hpx Hreg Hfits. rewrite (propagate_direct_run fuel k s P) by assumption.
  eexists. split; [reflexivity|]. cbn [_voters _producers].
  split; [now rewrite lookup_alter_eq, HP|].
  split; [intros j Hj; now rewrite lookup_alter_ne|].
  split; [intros p Hp; now apply overwrite_votes_lookup|].
  split; [intros p Hp; now apply overwrite_votes_other|].
  intros Hall Hsz. unfold propagated_weight.
  rewrite (count_active_all _ Hall).
  replace (size (_producers s)) with (Nat.min (size (_producers s)) 30) at 1 by lia.
  rewrite <- (double_to_int64_fits _ Hfits).
  apply inverseVoteWeight_full_slate. lia.
Qed.

Lemma propagate_overwrites_slate_witness :
  exists s',
    propagate_weight_change 1 10 (switch_state 7) = Done tt s'
    /\ _voters s' !! 10%N
       = Some (set_last_vote_weight
                 (propagated_weight (switch_state 7) (direct_voter 10 5 5 [1%N]))
                 (direct_voter 10 5 5 [1%N]))
    /\ (forall p, p ∈ producers (direct_voter 10 5 5 [1%N]) ->
          _producers s' !! p
          = set_total_votes
              (propagated_weight (switch_state 7) (direct_voter 10 5 5 [1%N]))
            <$> _producers (switch_state 7) !! p).
Proof.
  destruct (propagate_overwrites_slate 0 10 (switch_state 7) (direct_voter 10 5 5 [1%N]))
    as (s' & H1 & H2 & _ & H4 & _).
  - reflexivity.
  - reflexivity.
  - repeat constructor. now exists (prod_row 1 7 true).
  - apply (fits_int64_IZR _ 5); [simpl; lra | unfold in_int64; lia].
  - exists s'. auto.
Defined.





(** ** Naming a proxy *)






(** ** Changing a vote *)

Lemma deltas_total_shift m t x : deltas_total m (t + x) = (deltas_total m t + x)%R.
Proof.
  revert t. induction m as [|pd m IH]; intros t; [reflexivity|].
  unfold deltas_total in *. cbn [fold_left].
  replace (t + x + pd.2.1)%R with (t + pd.2.1 + x)%R by lra. apply IH.
Qed.

Lemma deltas_total_update p (f : R * bool -> R * bool) c m t :
  (forall d, (f d).1 = (d.1 + c)%R) ->
  deltas_total (deltas_update p f m) t = (deltas_total m t + c)%R.
Proof.
  intros Hf. revert t. induction m as [|[q d] m IH]; intros t.
  - unfold deltas_total. cbn. rewrite Hf. cbn. lra.
  - cbn [deltas_update]. destruct (p <? q)%N.
    + unfold deltas_total. cbn [fold_left fst snd]. rewrite Hf. cbn [fst].
      fold (deltas_total m (t + (0 + c) + d.1)). fold (deltas_total m (t + d.1)).
      replace (t + (0 + c) + d.1)%R with (t + d.1 + c)%R by lra.
      apply deltas_total_shift.
    + destruct (p =? q)%N.
      * unfold deltas_total. cbn [fold_left fst snd]. rewrite Hf.
        fold (deltas_total m (t + (d.1 + c))). fold (deltas_total m (t + d.1)).
        replace (t + (d.1 + c))%R with (t + d.1 + c)%R by lra.
        apply deltas_total_shift.
      * unfold deltas_total. cbn [fold_left fst snd].
        fold (deltas_total (deltas_update p f m) (t + d.1)).
        fold (deltas_total m (t + d.1)). apply IH.
Qed.

Lemma deltas_total_slate (f : R * bool -> R * bool) c l m0 t :
  (forall d, (f d).1 = (d.1 + c)%R) ->
  deltas_total (fold_left (fun m p => deltas_update p f m) l m0) t
  = (deltas_total m0 t + INR (length l) * c)%R.
Proof.
  intros Hf. revert m0. induction l as [|p l IH]; intros m0.
  - cbn [fold_left length]. change (INR 0) with 0%R. lra.
  - cbn [fold_left]. rewrite IH, (deltas_total_update p f c) by exact Hf.
    change (length (p :: l)) with (S (length l)). rewrite S_INR. lra.
Qed.

Lemma deltas_update_map p (f : R * bool -> R * bool) m :
  deltas_sorted m ->
  deltas_sorted (deltas_update p f m)
  /\ deltas_map (deltas_update p f m)
     = <[p := f (default (0%R, false) (deltas_map m !! p))]> (deltas_map m).
Proof.
  unfold deltas_sorted, deltas_map.
  induction m as [|[q d] m IH]; intros Hs.
  - cbn. split; [repeat constructor | reflexivity].
  - rewrite fmap_cons in Hs. cbn [fst] in Hs.
    apply StronglySorted_inv in Hs as [Hs Hq]. rewrite Forall_forall in Hq.
    cbn [deltas_update]. destruct (p <? q)%N eqn:Hlt.
    + apply N.ltb_lt in Hlt. split.
      * rewrite !fmap_cons. cbn [fst].
        constructor; [constructor; [exact Hs | now apply Forall_forall]|].
        constructor; [exact Hlt|]. apply Forall_forall. intros x Hx.
        specialize (Hq x Hx). lia.
      * rewrite (list_to_map_cons ((q, d) :: m)).
        assert (Hnone : (list_to_map ((q, d) :: m) : gmap N (R * bool)) !! p = None).
        { apply not_elem_of_list_to_map. rewrite fmap_cons. cbn [fst].
          apply not_elem_of_cons. split; [lia|].
          intros Hin. specialize (Hq p Hin). lia. }
        now rewrite Hnone.
    + apply N.ltb_ge in Hlt. destruct (p =? q)%N eqn:Heq.
      * apply N.eqb_eq in Heq as ->. split.
        -- rewrite !fmap_cons. cbn [fst]. constructor; [exact Hs | now apply Forall_forall].
        -- rewrite !list_to_map_cons, lookup_insert_eq. cbn [default].
           now rewrite insert_insert_eq.
      * apply N.eqb_neq in Heq. destruct (IH Hs) as [IH1 IH2]. split.
        -- rewrite !fmap_cons. cbn [fst]. constructor; [exact IH1|].
           apply Forall_forall. intros x Hx.
           destruct (decide (x = p)) as [->|Hxp]; [lia|].
           destruct (decide (x ∈ m.*1)) as [Hin|Hnin]; [now apply Hq|].
           exfalso. revert Hx. apply not_elem_of_list_to_map.
           rewrite IH2, lookup_insert_ne by congruence.
           now apply not_elem_of_list_to_map.
        -- rewrite !list_to_map_cons, IH2.
           rewrite lookup_insert_ne by congruence. apply insert_insert_ne. congruence.
Qed.

Lemma deltas_slate_map (f : R * bool -> R * bool) l m0 :
  NoDup l -> deltas_sorted m0 ->
  let m := fold_left (fun m p => deltas_update p f m) l m0 in
  deltas_sorted m
  /\ forall p, deltas_map m !! p
               = if decide (p ∈ l)
                 then Some (f (default (0%R, false) (deltas_map m0 !! p)))
                 else deltas_map m0 !! p.
Proof.
  revert m0. induction l as [|q l IH]; intros m0 Hnd Hs; cbn [fold_left].
  - split; [exact Hs|]. intros p. rewrite decide_False; [reflexivity|].
    apply not_elem_of_nil.
  - apply NoDup_cons in Hnd as [Hq Hnd].
    destruct (deltas_update_map q f m0 Hs) as [Hs1 Hm1].
    destruct (IH (deltas_update q f m0) Hnd Hs1) as [Hs2 Hm2].
    split; [exact Hs2|]. intros p. rewrite Hm2, Hm1.
    destruct (decide (p ∈ l)) as [Hin|Hin].
    + rewrite decide_True by (now right).
      rewrite lookup_insert_ne; [reflexivity|]. intros ->. contradiction.
    + destruct (decide (p = q)) as [->|Hpq].
      * rewrite decide_True by (now left). apply lookup_insert_eq.
      * rewrite decide_False.
        -- now rewrite lookup_insert_ne by congruence.
        -- intros H. apply elem_of_cons in H as [?|?]; contradiction.
Qed.

Lemma apply_deltas_lookup_map m t p :
  NoDup m.*1 ->
  apply_deltas m t !! p
  = match deltas_map m !! p with
    | Some d => clamp_add d.1 <$> t !! p
    | None => t !! p
    end.
Proof.
  unfold deltas_map. revert t. induction m as [|[q d] m IH]; intros t Hnd.
  - reflexivity.
  - rewrite fmap_cons in Hnd. cbn [fst] in Hnd. apply NoDup_cons in Hnd as [Hq Hnd].
    unfold apply_deltas. cbn [fold_left fst snd].
    fold (apply_deltas m (alter (clamp_add d.1) q t)).
    rewrite IH by exact Hnd. rewrite list_to_map_cons.
    destruct (decide (p = q)) as [->|Hpq].
    + rewrite lookup_insert_eq.
      apply not_elem_of_list_to_map in Hq. rewrite Hq. apply lookup_alter_eq.
    + rewrite lookup_insert_ne by congruence.
      destruct (_ !! p); now rewrite lookup_alter_ne by congruence.
Qed.

Lemma apply_delta_accepted pd s row :
  _producers s !! pd.1 = Some row ->
  (pd.2.2 = true -> is_active row = true) ->
  apply_delta true pd s
  = Done tt (mk_state (_voters s) (alter (clamp_add pd.2.1) pd.1 (_producers s))
               (set_total_producer_vote_weight
                  (total_producer_vote_weight (_gstate s) + pd.2.1) (_gstate s))).
Proof.
  intros Hrow Hact. unfold apply_delta. mrun. rewrite Hrow. mrun. rewrite Hrow.
  destruct (is_active row); [reflexivity|].
  destruct pd.2.2; [now specialize (Hact eq_refl) | reflexivity].
Qed.

Lemma for_each_apply_accepted m s :
  Forall (fun pd : N * (R * bool) =>
            exists row, _producers s !! pd.1 = Some row
                        /\ (pd.2.2 = true -> is_active row = true)) m ->
  for_each m (apply_delta true) s
  = Done tt (mk_state (_voters s) (apply_deltas m (_producers s))
               (set_total_producer_vote_weight
                  (deltas_total m (total_producer_vote_weight (_gstate s)))
                  (_gstate s))).
Proof.
  revert s. induction m as [|pd m IH]; intros s Hall.
  - cbn. destruct s as [vs ps []]. reflexivity.
  - apply Forall_cons in Hall as [(row & Hrow & Hact) Hall].
    cbn [for_each]. unfold mbind, M_bind, bind.
    rewrite (apply_delta_accepted pd s row Hrow Hact).
    rewrite IH.
    + cbn [_voters _producers _gstate apply_deltas deltas_total fold_left
           total_producer_vote_weight set_total_producer_vote_weight].
      reflexivity.
    + cbn [_producers]. eapply Forall_impl; [exact Hall|].
      intros pd' (row' & Hrow' & Hact'). cbn beta.
      rewrite lookup_alter. destruct (decide (pd.1 = pd'.1)) as [Heq|]; [|eauto].
      rewrite <- Heq in *. rewrite Hrow in Hrow'. injection Hrow' as <-.
      rewrite Hrow. eexists. split; [reflexivity|]. exact Hact'.
Qed.

Lemma clamp_add_ext x y row : x = y -> clamp_add x row = clamp_add y row.
Proof. now intros ->. Qed.

(** The merged deltas of a change of vote. *)
Lemma revote_deltas old_w w old new :
  NoDup old -> NoDup new ->
  let m := fold_left
             (fun m p => deltas_update p (fun d => ((d.1 + w)%R, true)) m) new
             (fold_left
                (fun m p => deltas_update p (fun d => ((d.1 - old_w)%R, false)) m)
                old []) in
  NoDup m.*1
  /\ (forall p d, (p, d) ∈ m -> (p ∈ new \/ p ∈ old) /\ (d.2 = true -> p ∈ new))
  /\ (forall p t row, t !! p = Some row ->
        apply_deltas m t !! p = Some (vote_change old new old_w w p row))
  /\ (forall p t, t !! p = None -> apply_deltas m t !! p = None)
  /\ (forall t, deltas_total m t
                = (t + INR (length new) * w - INR (length old) * old_w)%R).
Proof.
  intros Hold Hnew.
  destruct (deltas_slate_map (fun d => ((d.1 - old_w)%R, false)) old [] Hold)
    as [Hs0 Hm0]; [constructor|].
  set (m0 := fold_left _ old []) in *.
  destruct (deltas_slate_map (fun d => ((d.1 + w)%R, true)) new m0 Hnew Hs0)
    as [Hs Hm].
  set (m := fold_left _ new m0) in *. cbn zeta.
  assert (Hnd : NoDup m.*1) by now apply sorted_keys_NoDup.
  assert (Hlook : forall p,
            deltas_map m !! p
            = if decide (p ∈ new)
              then Some (((if decide (p ∈ old) then (0 - old_w)%R else 0%R) + w)%R, true)
              else if decide (p ∈ old) then Some ((0 - old_w)%R, false) else None).
  { intros p. rewrite Hm, Hm0. unfold deltas_map at 1 2. rewrite list_to_map_nil.
    rewrite !lookup_empty.
    destruct (decide (p ∈ new)), (decide (p ∈ old)); reflexivity. }
  split; [exact Hnd|]. split; [|split; [|split]].
  - intros p d Hin. apply (elem_of_list_to_map m p d Hnd) in Hin.
    fold (deltas_map m) in Hin. rewrite Hlook in Hin.
    destruct (decide (p ∈ new)); [auto|].
    destruct (decide (p ∈ old)); [|discriminate].
    injection Hin as <-. split; [auto | discriminate].
  - intros p t row Hrow. rewrite (apply_deltas_lookup_map m t p Hnd), Hlook, Hrow.
    unfold vote_change.
    destruct (decide (p ∈ new)) as [Hn|Hn], (decide (p ∈ old)) as [Ho|Ho]; cbn.
    + rewrite decide_True by auto. f_equal. apply clamp_add_ext. lra.
    + rewrite decide_True by auto. f_equal. apply clamp_add_ext. lra.
    + rewrite decide_True by auto. reflexivity.
    + rewrite decide_False by (intros [?|?]; contradiction). reflexivity.
  - intros p t Hnone. rewrite (apply_deltas_lookup_map m t p Hnd), Hnone.
    now destruct (deltas_map m !! p).
  - intros t. unfold m.
    rewrite (deltas_total_slate _ w) by reflexivity. unfold m0.
    rewrite (deltas_total_slate _ (- old_w)) by (intros d; cbn; lra).
    unfold deltas_total at 1. cbn [fold_left]. lra.
Qed.

Lemma match_nil_length {A B} (l : list A) (x y : B) :
  match l with [] => x | _ :: _ => y end
  = if bool_decide (length l = 0) then x else y.
Proof. now destruct l. Qed.

(** The run of a change of vote. *)
Lemma revote_run min now fuel voter_name producers_arg s v :
  _voters s !! voter_name = Some v ->
  (last_vote_weight v > 0)%R ->
  proxy v = 0%N ->
  NoDup (producers v) ->
  Forall (fun p => is_Some (_producers s !! p)) (producers v) ->
  length producers_arg <= 30 ->
  StronglySorted N.lt producers_arg ->
  Forall (fun p => is_active <$> _producers s !! p = Some true) producers_arg ->
  (vote_weight s v producers_arg >= 0)%R ->
  exists s',
    update_votes min now fuel voter_name 0 producers_arg true s = Done tt s'
    /\ _voters s'
       = alter (set_vote (vote_weight s v producers_arg) producers_arg 0) voter_name
           (_voters s)
    /\ (forall p,
          _producers s' !! p
          = vote_change (producers v) producers_arg (last_vote_weight v)
              (vote_weight s v producers_arg) p
            <$> _producers s !! p)
    /\ _gstate s'
       = set_total_producer_vote_weight
           (total_producer_vote_weight (_gstate s)
            + INR (length producers_arg) * vote_weight s v producers_arg
            - INR (length (producers v)) * last_vote_weight v)
           (match producers_arg with
            | [] => set_total_activated_stake
                      (withdrawn_stake v (total_activated_stake (_gstate s))) (_gstate s)
            | _ :: _ => _gstate s
            end).
Proof.
  intros Hv Hlvw Hpx Hold Holdreg Hlen Hsorted Hreg Hw.
  assert (Hvalid : valid_vote_input voter_name 0 producers_arg)
    by (split; [lia | exact Hsorted]).
  pose proof (valid_input_run _ _ _ s Hvalid) as Hrun.
  pose proof (sorted_keys_NoDup _ Hsorted) as Hnew.
  destruct (revote_deltas (last_vote_weight v) (vote_weight s v producers_arg)
              (producers v) producers_arg Hold Hnew)
    as (Hnd & Hkeys & Hrows & Hnone & Htotal).
  unfold vote_weight in *.
  set (w := inverseVoteWeight s (staked v) (INR (length producers_arg)) VOTE_VARIATION)
    in *.
  set (m := fold_left _ producers_arg _) in *.
  assert (Hm : forall ps',
            ps' = _producers s ->
            Forall (fun pd : N * (R * bool) =>
                      exists row, ps' !! pd.1 = Some row
                                  /\ (pd.2.2 = true -> is_active row = true)) m).
  { intros ps' ->. apply Forall_forall. intros [p d] Hpd. cbn [fst snd].
    destruct (Hkeys p d Hpd) as [Hin Hflag].
    rewrite Forall_forall in Hreg, Holdreg.
    destruct (decide (p ∈ producers_arg)) as [Hn|Hn].
    - specialize (Hreg p Hn). destruct (_producers s !! p) as [row|]; [|discriminate].
      exists row. split; [reflexivity|]. intros _. cbn in Hreg. congruence.
    - destruct Hin as [Hin|Hin]; [contradiction|].
      destruct (Holdreg p Hin) as [row Hrow]. exists row. split; [exact Hrow|].
      intros Hd. now specialize (Hflag Hd). }
  assert (Hall : forall p,
            apply_deltas m (_producers s) !! p
            = vote_change (producers v) producers_arg (last_vote_weight v) w p
              <$> _producers s !! p).
  { intros p. destruct (_producers s !! p) as [row|] eqn:Hrow; cbn.
    - now apply Hrows.
    - now apply Hnone. }
  unfold update_votes. unfold mbind at 1, M_bind at 1, bind at 1. rewrite Hrun.
  change (is_set 0) with false. mexec.
  rewrite Hv. mexec. rewrite Hv. mexec. fold w.
  rewrite Hpx. change (is_set 0) with false. mexec. fold m.
  rewrite match_nil_length. unfold withdrawn_stake.
  destruct (bool_decide (length producers_arg = 0));
    [destruct (bool_decide (proxied_vote_weight v > 0)%R)|]; mrun;
    rewrite for_each_apply_accepted by (apply Hm; reflexivity);
    (eexists; split; [reflexivity|]); cbn [_voters _producers _gstate];
    (split; [reflexivity|]); (split; [exact Hall|]);
    rewrite Htotal; destruct s as [vs ps [tas th sz tw up]]; reflexivity.
Qed.


(** X28: a change of vote.  A voter that voted directly before (positive last
    weight, no proxy, a slate without repetition whose producers have rows)
    votes, without a proxy, for a slate that passes the input checks and names
    registered, active producers only, with a weight [w] that is not negative;
    the new slate may be empty, and when it is and the voter's proxied weight
    is positive, the activated stake less the stake and that weight converts
    to an [int64_t].  The call completes.  The voter's row stores
    [w] and the new slate.  Every producer of the old or the new slate gets
    one update: [w] is added when the new slate names it, the last weight is
    taken off when the old slate names it, and the sum is floored at zero once;
    no other producer row is touched.  [total_producer_vote_weight] changes by
    [w] for each new name minus the last weight for each old name.  The
    activated stake is untouched unless the new slate is empty, which takes
    the voter's stake (and its proxied weight when positive) off it. *)
Theorem revote_effect min now fuel voter_name producers_arg s v :
  _voters s !! voter_name = Some v ->
  (last_vote_weight v > 0)%R ->
  proxy v = 0%N ->
  NoDup (producers v) ->
  Forall (fun p => is_Some (_producers s !! p)) (producers v) ->
  length producers_arg <= 30 ->
  StronglySorted N.lt producers_arg ->
  Forall (fun p => is_active <$> _producers s !! p = Some true) producers_arg ->
  (vote_weight s v producers_arg >= 0)%R ->
  (producers_arg = [] -> (proxied_vote_weight v > 0)%R ->
   fits_int64 (IZR (sub64 (total_activated_stake (_gstate s)) (staked v))
               - proxied_vote_weight v)) ->
  exists s',
    update_votes min now fuel voter_name 0 producers_arg true s = Done tt s'
    /\ _voters s'
       = alter (set_vote (vote_weight s v producers_arg) producers_arg 0) voter_name
           (_voters s)
    /\ (forall p,
          _producers s' !! p
          = vote_change (producers v) producers_arg (last_vote_weight v)
              (vote_weight s v producers_arg) p
            <$> _producers s !! p)
    /\ _gstate s'
       = set_total_producer_vote_weight
           (total_producer_vote_weight (_gstate s)
            + INR (length producers_arg) * vote_weight s v producers_arg
            - INR (length (producers v)) * last_vote_weight v)
           (match producers_arg with
            | [] => set_total_activated_stake
                      (withdrawn_stake v (total_activated_stake (_gstate s))) (_gstate s)
            | _ :: _ => _gstate s
            end).
Proof.
  intros Hv Hlvw Hpx Hold Holdreg Hlen Hsorted Hreg Hw _. now apply revote_run.
Qed.

Lemma revote_effect_witness :
  exists s',
    update_votes 1000 5 1 10 0 [] true (switch_state 7) = Done tt s'
    /\ (forall p,
          _producers s' !! p
          = vote_change [1%N] [] 5 (vote_weight (switch_state 7)
                                      (direct_voter 10 5 5 [1%N]) []) p
            <$> _producers (switch_state 7) !! p).
Proof.
  destruct (revote_effect 1000 5 1 10 [] (switch_state 7) (direct_voter 10 5 5 [1%N]))
    as (s' & H1 & _ & H3 & _).
  - reflexivity.
  - simpl. lra.
  - reflexivity.
  - apply NoDup_cons. split; [apply not_elem_of_nil | constructor].
  - repeat constructor. now exists (prod_row 1 7 true).
  - simpl. lia.
  - constructor.
  - constructor.
  - unfold vote_weight. change (INR (length [])) with 0%R.
    rewrite inverseVoteWeight_zero. lra.
  - simpl. intros _ H. exfalso. lra.
  - exists s'. split; [exact H1 | exact H3].
Defined.

Lemma clamp_add_zero row : (0 <= total_votes row)%R -> clamp_add 0 row = row.
Proof.
  intros H. unfold clamp_add. rewrite bool_decide_eq_false_2 by lra.
  rewrite Rplus_0_r. now destruct row.
Qed.

Lemma state_eq s s' :
  _voters s' = _voters s -> _producers s' = _producers s -> _gstate s' = _gstate s ->
  s' = s.
Proof. destruct s, s'. cbn. now intros -> -> ->. Qed.

(** X29: casting the same vote again changes nothing.  A voter that voted
    directly before, whose row names no proxy and holds a positive last weight
    and a slate that is not empty and passes the input checks, votes for that
    slate again; the last weight is the weight the curve gives for the slate
    now, and the producers of the slate are registered, active and have
    totals that are not negative.  The call completes in the state it started
    from. *)
Theorem revote_same_vote_is_noop min now fuel voter_name s v :
  _voters s !! voter_name = Some v ->
  (last_vote_weight v > 0)%R ->
  proxy v = 0%N ->
  0 < length (producers v) <= 30 ->
  StronglySorted N.lt (producers v) ->
  Forall (fun p => exists row, _producers s !! p = Some row
                               /\ is_active row = true /\ (0 <= total_votes row)%R)
    (producers v) ->
  last_vote_weight v = vote_weight s v (producers v) ->
  update_votes min now fuel voter_name 0 (producers v) true s = Done tt s.
Proof.
  intros Hv Hlvw Hpx Hlen Hsorted Hrows Hsame.
  destruct (revote_run min now fuel voter_name (producers v) s v)
    as (s' & Hrun & Hvs & Hps & Hg); try assumption.
  - now apply sorted_keys_NoDup.
  - eapply Forall_impl; [exact Hrows|]. intros p (row & -> & _). eauto.
  - lia.
  - eapply Forall_impl; [exact Hrows|]. intros p (row & -> & Ha & _). cbn.
    now rewrite Ha.
  - rewrite <- Hsame. lra.
  - rewrite Hrun. f_equal. apply state_eq.
    + rewrite Hvs. apply alter_id. intros x Hx. rewrite Hv in Hx. injection Hx as <-.
      rewrite <- Hsame. destruct v; cbn in *. now subst.
    + apply map_eq. intros p. rewrite Hps.
      destruct (_producers s !! p) as [row|] eqn:Hrow; [|reflexivity]. cbn. f_equal.
      unfold vote_change. rewrite <- Hsame.
      destruct (decide (p ∈ producers v)) as [Hin|Hin].
      * rewrite decide_True by auto.
        rewrite Forall_forall in Hrows. destruct (Hrows p Hin) as (row' & Hrow' & _ & Htv).
        rewrite Hrow in Hrow'. injection Hrow' as <-.
        rewrite (clamp_add_ext _ 0%R) by lra. now apply clamp_add_zero.
      * rewrite decide_False by (intros [?|?]; contradiction). reflexivity.
    + rewrite Hg. rewrite <- Hsame.
      destruct (producers v) as [|a l]; [cbn in Hlen; lia|].
      destruct (_gstate s) as [tas th sz tw up].
      unfold set_total_producer_vote_weight. cbn. f_equal. lra.
Qed.

Lemma revote_same_vote_is_noop_witness :
  update_votes 1000 5 1 10 0 (producers (direct_voter 10 5 5 [1%N])) true (switch_state 7)
  = Done tt (switch_state 7).
Proof.
  apply (revote_same_vote_is_noop 1000 5 1 10 (switch_state 7)
           (direct_voter 10 5 5 [1%N])).
  - reflexivity.
  - simpl. lra.
  - reflexivity.
  - simpl. lia.
  - repeat constructor.
  - repeat constructor. exists (prod_row 1 7 true).
    split; [reflexivity|]. split; [reflexivity|]. simpl. lra.
  - unfold vote_weight.
    change (INR (length (producers (direct_voter 10 5 5 [1%N]))))
      with (INR (Nat.min (size (_producers (switch_state 7))) 30)).
    rewrite inverseVoteWeight_full_slate; [reflexivity|]. vm_compute. lia.
Defined.

Lemma activated_keeps min now g :
  total_activated_stake (activated min now g) = total_activated_stake g
  /\ total_producer_vote_weight (activated min now g) = total_producer_vote_weight g.
Proof. unfold activated. destruct (_ && _); split; reflexivity. Qed.

(** X30: a vote taken back.  A voter that has not voted (no weight, no slate,
    no proxy, no proxied weight) votes for a slate of registered, active
    producers, with a positive weight, and then votes for nobody.  Both calls
    complete, and after the second the voters table and the activated stake
    are what they were before the first; the producers outside the slate are
    untouched, those of the slate keep their key, activity, url and location,
    and no producer row is added or removed.  (The stake arithmetic is
    assumed to stay within [int64_t]; the activation time may have been set by
    the first call and then stays.  The totals of the slate and
    [total_producer_vote_weight] had the weight added and then subtracted,
    which in the arithmetic of the source restores them only up to rounding:
    nothing is stated about them.) *)
Theorem vote_then_withdraw_round_trip min now fuel voter_name producers_arg s v :
  _voters s !! voter_name = Some v ->
  last_vote_weight v = 0%R ->
  proxy v = 0%N ->
  producers v = [] ->
  (proxied_vote_weight v <= 0)%R ->
  0 < length producers_arg <= 30 ->
  StronglySorted N.lt producers_arg ->
  Forall (fun p => is_active <$> _producers s !! p = Some true) producers_arg ->
  (vote_weight s v producers_arg > 0)%R ->
  in_int64 (total_activated_stake (_gstate s)) ->
  in_int64 (total_activated_stake (_gstate s) + staked v) ->
  exists s1 s2,
    update_votes min now fuel voter_name 0 producers_arg true s = Done tt s1
    /\ update_votes min now fuel voter_name 0 [] true s1 = Done tt s2
    /\ _voters s2 = _voters s
    /\ total_activated_stake (_gstate s2) = total_activated_stake (_gstate s)
    /\ (forall p, p ∉ producers_arg -> _producers s2 !! p = _producers s !! p)
    /\ (forall p, (producer_static <$> _producers s2 !! p)
                  = (producer_static <$> _producers s !! p)).
Proof.
  intros Hv Hlvw Hpx Hslate Hpvw Hlen Hsorted Hrows Hw Htas Htas'.
  pose proof (sorted_keys_NoDup _ Hsorted) as Hnd.
  destruct (first_vote_run min now fuel voter_name producers_arg s v)
    as (s1 & Hrun1 & Hvs1 & Hps1 & Hg1); try assumption.
  { lra. }
  { lra. }
  set (w := vote_weight s v producers_arg) in *.
  assert (Hv1 : _voters s1 !! voter_name = Some (set_vote w producers_arg 0 v))
    by (rewrite Hvs1, lookup_alter_eq, Hv; reflexivity).
  assert (Hw0 : vote_weight s1 (set_vote w producers_arg 0 v) [] = 0%R)
    by (unfold vote_weight; apply inverseVoteWeight_zero).
  destruct (revote_run min now fuel voter_name [] s1 (set_vote w producers_arg 0 v))
    as (s2 & Hrun2 & Hvs2 & Hps2 & Hg2).
  { exact Hv1. }
  { exact Hw. }
  { reflexivity. }
  { exact Hnd. }
  { eapply Forall_impl; [exact Hrows|]. intros p Hp. cbn beta in *.
    rewrite Hps1. destruct (_producers s !! p); [cbn; eauto | discriminate]. }
  { cbn. lia. }
  { constructor. }
  { constructor. }
  { rewrite Hw0. lra. }
  rewrite Hw0 in Hvs2, Hps2, Hg2.
  cbn [last_vote_weight producers set_vote staked proxied_vote_weight] in Hvs2, Hps2, Hg2.
  exists s1, s2. split; [exact Hrun1|]. split; [exact Hrun2|]. split; [|split; [|split]].
  - rewrite Hvs2, Hvs1, alter_alter_eq. apply alter_id.
    intros x Hx. rewrite Hv in Hx. injection Hx as <-.
    destruct v; cbn in *. now subst.
  - rewrite Hg2, Hg1. cbn [total_activated_stake set_total_producer_vote_weight
                            set_total_activated_stake].
    destruct (activated_keeps min now
                (set_total_activated_stake
                   (activated_stake v (total_activated_stake (_gstate s))) (_gstate s)))
      as [-> _].
    cbn [total_activated_stake set_total_activated_stake].
    unfold withdrawn_stake, activated_stake. cbn [proxied_vote_weight staked set_vote].
    rewrite !bool_decide_eq_false_2 by lra.
    unfold add64, sub64. rewrite (wrap64_id _ Htas').
    replace (total_activated_stake (_gstate s) + staked v - staked v)%Z
      with (total_activated_stake (_gstate s)) by lia.
    now apply wrap64_id.
  - intros p Hin. rewrite Hps2, Hps1.
    destruct (_producers s !! p) as [row|] eqn:Hrow; [|reflexivity]. cbn. f_equal.
    unfold vote_change.
    rewrite (decide_False (P := p ∈ [] \/ p ∈ producers_arg))
      by (intros [H|H]; [now apply elem_of_nil in H | contradiction]).
    now rewrite decide_False by exact Hin.
  - intros p. rewrite Hps2, Hps1.
    destruct (_producers s !! p) as [row|] eqn:Hrow; [|reflexivity]. cbn. f_equal.
    unfold vote_change.
    repeat match goal with |- context [decide ?P] => destruct (decide P) end;
      reflexivity.
Qed.

Lemma vote_then_withdraw_round_trip_witness :
  exists s1 s2,
    update_votes 1000 5 1 10 0 [1%N] true one_producer_one_voter = Done tt s1
    /\ update_votes 1000 5 1 10 0 [] true s1 = Done tt s2
    /\ _voters s2 = _voters one_producer_one_voter
    /\ total_activated_stake (_gstate s2)
       = total_activated_stake (_gstate one_producer_one_voter).
Proof.
  destruct (vote_then_withdraw_round_trip 1000 5 1 10 [1%N] one_producer_one_voter
              (fresh_voter 10 100)) as (s1 & s2 & H1 & H2 & H3 & H4 & _).
  - reflexivity.
  - reflexivity.
  - reflexivity.
  - reflexivity.
  - simpl. lra.
  - simpl. lia.
  - repeat constructor.
  - repeat constructor.
  - unfold vote_weight. change (length [1%N]) with 1%nat.
    rewrite weight_one_of_one; [lra | reflexivity].
  - unfold in_int64. simpl. lia.
  - unfold in_int64. simpl. lia.
  - exists s1, s2. auto.
Defined.
